(** * SSHRemoteControl: the device session layer and the Activity engine

    A shallow embedding of [lib/Devices.py] and [lib/Activity.py], and
    what holds of them: the device factory, the vendor dialogues (login,
    escalation, logout), the command runner, the loop of the engine over
    its targets, and the credential codec.

    - Python text is a [string]; [str.find] and [str.lower] are written out.
    - A method that mutates [self] is a state transformer on the object;
      a Python exception is the [Raise] outcome of the computation, and
      [try ... except (E1, E2)] is [try_except] with the list of handled
      classes.  The state reached when an exception is raised is kept:
      what was sent or written before stays sent and written.
    - The remote end is an oracle inside the transport: the queue of what
      the successive polls of the channel will see and the queue of the
      outcomes of the successive sends.
    - The credential codec works on code points ([N]) and bytes, as
      [chr], [ord], [str.encode] and the hex codec do. *)

From Stdlib Require Import String Ascii List Bool Arith NArith ZArith Lia.
Import ListNotations.
Local Open Scope list_scope.
Local Open Scope string_scope.

(* ===================================================================== *)
(** ** Python text *)
(* ===================================================================== *)

Module Text.

(** [s.startswith(p)] *)
Fixpoint startswith (p s : string) : bool :=
  match p, s with
  | EmptyString, _ => true
  | String a p', String b s' => Ascii.eqb a b && startswith p' s'
  | String _ _, EmptyString => false
  end.

(** [s.find(sub)]: the lowest index at which [sub] occurs in [s], or -1.
    Case-sensitive, literal. *)
Fixpoint find (s sub : string) : Z :=
  if startswith sub s then 0%Z
  else match s with
       | EmptyString => (-1)%Z
       | String _ s' =>
           let i := find s' sub in
           if (i =? -1)%Z then (-1)%Z else (i + 1)%Z
       end.

(** [s.endswith(suf)] *)
Fixpoint endswith (suf s : string) : bool :=
  String.eqb suf s
  || match s with
     | EmptyString => false
     | String _ s' => endswith suf s'
     end.

(** The specification side of a prompt test: [sub] occurs in [s]. *)
Definition Substring (sub s : string) : Prop :=
  exists before after, s = before ++ sub ++ after.

(** [c.lower()] on one ASCII character: 'A'..'Z' move to 'a'..'z',
    every other character stays. *)
Definition lower_char (c : ascii) : ascii :=
  let n := nat_of_ascii c in
  if ((65 <=? n) && (n <=? 90))%nat then ascii_of_nat (n + 32)%nat else c.

(** [s.lower()] *)
Fixpoint lower (s : string) : string :=
  match s with
  | EmptyString => EmptyString
  | String c s' => String (lower_char c) (lower s')
  end.

(** Specification side of a case-insensitive match: two characters are
    the same letter when they are equal or are the two cases of one
    ASCII letter. *)
Definition is_upper (c : ascii) : bool :=
  ((65 <=? nat_of_ascii c) && (nat_of_ascii c <=? 90))%nat.

Definition same_letter (c d : ascii) : bool :=
  Ascii.eqb c d
  || (is_upper c && (nat_of_ascii d =? nat_of_ascii c + 32)%nat)
  || (is_upper d && (nat_of_ascii c =? nat_of_ascii d + 32)%nat).

Fixpoint caseless (s t : string) : bool :=
  match s, t with
  | EmptyString, EmptyString => true
  | String c s', String d t' => same_letter c d && caseless s' t'
  | _, _ => false
  end.

(** All characters of [s] are outside 'A'..'Z'. *)
Fixpoint no_upper (s : string) : bool :=
  match s with
  | EmptyString => true
  | String c s' => negb (is_upper c) && no_upper s'
  end.

(** ["".join(l)] *)
Definition join (l : list string) : string :=
  fold_right String.append EmptyString l.

End Text.

(* ===================================================================== *)
(** ** Exceptions and the state-and-exception monad *)
(* ===================================================================== *)

(** The exception classes that occur in the two modules.  In Python 3
    [socket.error] and [IOError] are both aliases of [OSError].
    [UnicodeEncodeError] is what a write raises on a stream that cannot
    encode the text; it is not a [UnicodeDecodeError]. *)
Inductive exn : Type :=
| SSHException
| OSError
| UnicodeDecodeError
| UnboundLocalError
| UnicodeEncodeError.

Definition exn_eqb (a b : exn) : bool :=
  match a, b with
  | SSHException, SSHException
  | OSError, OSError
  | UnicodeDecodeError, UnicodeDecodeError
  | UnboundLocalError, UnboundLocalError
  | UnicodeEncodeError, UnicodeEncodeError => true
  | _, _ => false
  end.

(** [except (E1, ..., En)] handles [e] when [e] is one of the classes. *)
Definition handles (classes : list exn) (e : exn) : bool :=
  existsb (exn_eqb e) classes.

Inductive result (A : Type) : Type :=
| Ret (a : A)
| Raise (e : exn).
Arguments Ret {A} a.
Arguments Raise {A} e.

Definition M (S A : Type) : Type := S -> result A * S.

Definition ret {S A} (a : A) : M S A := fun s => (Ret a, s).

Definition raise {S A} (e : exn) : M S A := fun s => (Raise e, s).

Definition bind {S A B} (c : M S A) (k : A -> M S B) : M S B :=
  fun s => match c s with
           | (Ret a, s') => k a s'
           | (Raise e, s') => (Raise e, s')
           end.

Definition gets {S A} (f : S -> A) : M S A := fun s => (Ret (f s), s).

Definition modify {S} (f : S -> S) : M S unit := fun s => (Ret tt, f s).

(** [try: body  except classes: handler] *)
Definition try_except {S A} (body : M S A) (classes : list exn)
    (handler : M S A) : M S A :=
  fun s => match body s with
           | (Ret a, s') => (Ret a, s')
           | (Raise e, s') =>
               if handles classes e then handler s' else (Raise e, s')
           end.

(** Run a computation on a part [P] of a larger state [W]. *)
Definition zoom {W P A} (get : W -> P) (put : P -> W -> W) (c : M P A)
    : M W A :=
  fun w => let (r, p) := c (get w) in (r, put p w).

(** A computation keeps a relation between the state it starts in and
    the state it ends in, however it ends. *)
Definition keeps {S A} (R : S -> S -> Prop) (c : M S A) : Prop :=
  forall s, R s (snd (c s)).

Declare Scope py_scope.
Delimit Scope py_scope with py.
Notation "x <- c ;; k" := (bind c (fun x => k))
  (at level 61, c at next level, right associativity) : py_scope.
Notation "c ;;; k" := (bind c (fun _ => k))
  (at level 61, right associativity) : py_scope.
Local Open Scope py_scope.

(* ===================================================================== *)
(** ** The transport: an interactive channel of the SSH client library *)
(* ===================================================================== *)

(** The exceptions the transport raises: [paramiko.SSHException] and
    [socket.error]. *)
Inductive neterr : Type := SSHFault | SocketFault.

Definition exn_of (e : neterr) : exn :=
  match e with SSHFault => SSHException | SocketFault => OSError end.

(** What one poll of the channel sees.  [Idle]: [recv_ready()] is false at
    this poll.  Otherwise [recv_ready()] is true and [recv(_bufferSize)]
    returns a chunk of bytes: [Chunk t] decodes as UTF-8 to [t],
    [Garbled] does not decode, [RecvFails e] is [recv] raising.  When the
    queue is exhausted nothing arrives any more. *)
Inductive poll : Type :=
| Chunk (t : string)
| Garbled
| RecvFails (e : neterr)
| Idle.

(** The outcome of one [send]: the number of bytes accepted, or a raise. *)
Inductive sendres : Type :=
| Accepts (n : nat)
| SendFails (e : neterr).

Record Shell : Type := mkShell {
  rxq : list poll;                   (* what the coming polls will see *)
  txq : list sendres;                (* outcomes of the coming sends *)
  close_fault : option neterr;       (* RemoteShell.close() raises this *)
  client_close_fault : option neterr;(* SSHClient.close() raises this *)
  sent : list string;                (* texts handed to send(), in order *)
  close_calls : nat;                 (* RemoteShell.close() invocations *)
  client_close_calls : nat           (* SSHClient.close() invocations *)
}.

Definition set_rxq (q : list poll) (sh : Shell) : Shell :=
  mkShell q (txq sh) (close_fault sh) (client_close_fault sh)
          (sent sh) (close_calls sh) (client_close_calls sh).

Definition blank_shell : Shell := mkShell [] [] None None [] 0%nat 0%nat.

(** [while self.RemoteShell.recv_ready():
         data = self.RemoteShell.recv(_bufferSize).decode("utf-8")
         <use data>]
    on the queue of polls: [step] is the use made of each decoded chunk,
    [acc] what the loop has built so far.  The loop ends at the first poll
    that is not ready, or at the first chunk whose [recv] or [decode]
    raises; the chunk is consumed either way, and what was built before
    the raise is kept. *)
Fixpoint drain_queue {A} (step : A -> string -> A) (acc : A)
    (q : list poll) : result unit * A * list poll :=
  match q with
  | [] => (Ret tt, acc, [])
  | Idle :: q' => (Ret tt, acc, q')
  | Chunk t :: q' => drain_queue step (step acc t) q'
  | Garbled :: q' => (Raise UnicodeDecodeError, acc, q')
  | RecvFails e :: q' => (Raise (exn_of e), acc, q')
  end.

(** The drain loop of a vendor dialogue, whose only state is the local
    variable [data] (or nothing at all). *)
Definition drain {A} (step : A -> string -> A) (acc : A) : M Shell A :=
  fun sh =>
    match drain_queue step acc (rxq sh) with
    | (Ret _, acc', q') => (Ret acc', set_rxq q' sh)
    | (Raise e, _, q') => (Raise e, set_rxq q' sh)
    end.

(** The loop whose body only decodes. *)
Definition drain_discard : M Shell unit := drain (fun _ _ => tt) tt.

(** The loop whose body is [data = ...decode("utf-8")]: [data] ends as the
    last chunk, or keeps its value from before the loop. *)
Definition drain_last {A} (inj : string -> A) (data : A) : M Shell A :=
  drain (fun _ t => inj t) data.

(** [self.RemoteShell.send(text)]: the next outcome of the queue; when
    the queue is exhausted the whole text is accepted. *)
Definition send (text : string) : M Shell nat :=
  fun sh =>
    let record q :=
      mkShell (rxq sh) q (close_fault sh) (client_close_fault sh)
              (sent sh ++ [text])%list (close_calls sh)
              (client_close_calls sh) in
    match txq sh with
    | [] => (Ret (String.length text), record [])
    | Accepts n :: q => (Ret n, record q)
    | SendFails e :: q => (Raise (exn_of e), record q)
    end.

(** [time.sleep(secs)]: what arrives meanwhile is already in the queue of
    polls. *)
Definition sleep (secs : nat) : M Shell unit := ret tt.

(** [self.RemoteShell.close()] *)
Definition shell_close : M Shell unit :=
  fun sh =>
    let sh' := mkShell (rxq sh) (txq sh) (close_fault sh)
                 (client_close_fault sh) (sent sh)
                 (S (close_calls sh)) (client_close_calls sh) in
    match close_fault sh with
    | None => (Ret tt, sh')
    | Some e => (Raise (exn_of e), sh')
    end.

(** [self.SSHClient.close()] *)
Definition client_close : M Shell unit :=
  fun sh =>
    let sh' := mkShell (rxq sh) (txq sh) (close_fault sh)
                 (client_close_fault sh) (sent sh)
                 (close_calls sh) (S (client_close_calls sh)) in
    match client_close_fault sh with
    | None => (Ret tt, sh')
    | Some e => (Raise (exn_of e), sh')
    end.

(* ===================================================================== *)
(** ** The output sink: a file object open for writing *)
(* ===================================================================== *)

(** What a write can meet: the stream cannot encode the text
    ([UnicodeEncodeError]) or the system refuses the write ([OSError]). *)
Inductive sinkerr : Type := EncodeFault | DiskFault.

Definition exn_of_sink (e : sinkerr) : exn :=
  match e with EncodeFault => UnicodeEncodeError | DiskFault => OSError end.

(** The outcome of one [write]. *)
Inductive wres : Type :=
| Written
| WriteFails (e : sinkerr).

(** A file object: the outcomes of the coming writes, and the texts
    written so far, in order.  When the outcomes are exhausted every
    write is accepted. *)
Record File : Type := mkFile {
  wq : list wres;
  written : list string
}.

(** [outfile.write(text)]: nothing is written when it raises. *)
Definition write (text : string) : M File unit :=
  fun f =>
    match wq f with
    | [] => (Ret tt, mkFile [] (written f ++ [text])%list)
    | Written :: q => (Ret tt, mkFile q (written f ++ [text])%list)
    | WriteFails e :: q => (Raise (exn_of_sink e), mkFile q (written f))
    end.

(** [while self.RemoteShell.recv_ready():
         data = self.RemoteShell.recv(_bufferSize).decode("utf-8")
         outfile.write(data)]
    on the queue of polls and the file: the loop ends at the first poll
    that is not ready, at the first chunk whose [recv] or [decode]
    raises, or at the first write that raises; the chunk is consumed in
    each case. *)
Fixpoint drain_write (q : list poll) (out : File)
    : result unit * File * list poll :=
  match q with
  | [] => (Ret tt, out, [])
  | Idle :: q' => (Ret tt, out, q')
  | Chunk t :: q' =>
      match write t out with
      | (Ret _, out') => drain_write q' out'
      | (Raise e, out') => (Raise e, out', q')
      end
  | Garbled :: q' => (Raise UnicodeDecodeError, out, q')
  | RecvFails e :: q' => (Raise (exn_of e), out, q')
  end.

(* ===================================================================== *)
(** ** Devices.py *)
(* ===================================================================== *)

Module Devices.

(** The class of a device object: [Device] and its three subclasses. *)
Inductive kind : Type := Generic | CiscoIOS | CiscoWLC | Linux.

Record Device : Type := mkDevice {
  variant : kind;
  hostname : string;
  username : string;
  password : string;
  RemoteShell : Shell
}.

Definition set_shell (sh : Shell) (d : Device) : Device :=
  mkDevice (variant d) (hostname d) (username d) (password d) sh.

(** A statement on [self.RemoteShell] inside a method of the device. *)
Definition on_shell {A} (c : M Shell A) : M Device A :=
  zoom RemoteShell set_shell c.

(** [Device.__init__] through the constructor of the class [k]; the
    channel exists only after [connect]. *)
Definition new_device (k : kind) (hostname : string) : Device :=
  mkDevice k hostname "" "" blank_shell.

Definition listOfDeviceTypes : list string :=
  ["ciscoios"; "ciscowlc"; "linux"].

Definition createDevice (hostname typeClass : string) : Device :=
  if String.eqb (Text.lower typeClass) "ciscoios" then
    new_device CiscoIOS hostname
  else if String.eqb (Text.lower typeClass) "ciscowlc" then
    new_device CiscoWLC hostname
  else if String.eqb (Text.lower typeClass) "linux" then
    new_device Linux hostname
  else new_device Generic hostname.

(** Specification side of [createDevice]: the class named by a device
    type, the name being read without regard to case; [Generic] for every
    other text. *)
Definition class_named (typeClass : string) : kind :=
  if Text.caseless typeClass "ciscoios" then CiscoIOS
  else if Text.caseless typeClass "ciscowlc" then CiscoWLC
  else if Text.caseless typeClass "linux" then Linux
  else Generic.

(** The remote end met by [SSHClient.connect]: the handshake raises, or
    [invoke_shell()] gives a channel. *)
Record Host : Type := mkHost {
  handshake : option neterr;
  channel : Shell
}.

(** [Device.connect(username, password)], against the remote end [peer]. *)
Definition connect (peer : Host) (user pass : string) : M Device bool :=
  modify (fun d => mkDevice (variant d) (hostname d) user pass
                            (RemoteShell d));;;
  try_except
    (match handshake peer with
     | Some e => raise (exn_of e)
     | None => modify (set_shell (channel peer));;; ret true
     end)
    [SSHException; OSError]
    (ret false).

(** The line feed that ends what is typed. *)
Definition nl : string := String "010" "".

(** *** Device.run *)

(** The drain loop of [run], whose body is [outfile.write(data)]; the
    second component of the state is the file object handed to [run]. *)
Definition drain_to_outfile : M (Device * File) unit :=
  fun st =>
    let '(d, out) := st in
    let '(r, out', q') := drain_write (rxq (RemoteShell d)) out in
    (r, (set_shell (set_rxq q' (RemoteShell d)) d, out')).

Definition on_self {A} (c : M Device A) : M (Device * File) A :=
  zoom fst (fun d st => (d, snd st)) c.

(** [for cmd in commands: ...] *)
Fixpoint run_commands (commands : list string) : M (Device * File) unit :=
  match commands with
  | [] => ret tt
  | cmd :: rest =>
      n <- on_self (on_shell (send (cmd ++ nl)));;
      (if (n =? 0)%nat then raise OSError (* raise IOError *) else ret tt);;;
      on_self (on_shell (sleep 2));;;
      drain_to_outfile;;;
      run_commands rest
  end.

Definition run (commands : list string) : M (Device * File) bool :=
  try_except
    (drain_to_outfile;;;
     run_commands commands;;;
     ret true)
    [SSHException; OSError; UnicodeDecodeError]
    (ret false).

(** *** The generic device *)

Definition Device_superuser (pass : string) : M Device bool := ret true.

Definition Device_login : M Device bool := ret true.

(** Falls off the end of the function, returning [None], when a close
    raises. *)
Definition Device_logout : M Device (option bool) :=
  try_except
    (on_shell shell_close;;;
     on_shell client_close;;;
     ret (Some true))
    [SSHException; OSError]
    (ret None).

(** *** Cisco IOS *)

(** [result] is False until the last statement of the [try] body, so the
    handler returns False. *)
Definition DeviceCiscoIOS_superuser (pass : string) : M Device bool :=
  try_except
    (on_shell drain_discard;;;
     on_shell (send ("enable " ++ nl));;;
     on_shell (sleep 1);;;
     data <- on_shell (drain_last id "");;
     if negb (Text.find data "Password:" =? -1)%Z then
       on_shell (send (pass ++ nl));;;
       on_shell (sleep 1);;;
       data <- on_shell (drain_last id "");;
       if negb (Text.find data "#" =? -1)%Z then ret true else ret false
     else ret false)
    [SSHException]
    (ret false).

(** The dialogue of [logout] before the session is closed. *)
Definition DeviceCiscoIOS_farewell : M Device unit :=
  on_shell drain_discard;;;
  on_shell (send ("end " ++ nl));;;
  on_shell (sleep 1);;;
  on_shell (send ("exit " ++ nl));;;
  on_shell (sleep 1).

Definition DeviceCiscoIOS_logout : M Device (option bool) :=
  try_except
    (DeviceCiscoIOS_farewell;;;
     Device_logout;;;
     ret (Some true))
    [SSHException; OSError]
    (ret (Some false)).

Definition DeviceCiscoIOS_login : M Device bool :=
  try_except
    (on_shell drain_discard;;;
     on_shell (send ("terminal length 0 " ++ nl));;;
     on_shell (sleep 1);;;
     ret true)
    [SSHException; OSError]
    (ret false).

(** *** Cisco WLC *)

Definition DeviceCiscoWLC_farewell : M Device unit :=
  on_shell (send ("end " ++ nl));;;
  on_shell (sleep 1);;;
  on_shell (send ("exit " ++ nl));;;
  on_shell (sleep 1);;;
  data <- on_shell (drain_last id "");;
  if negb (Text.find data "save?" =? -1)%Z then
    on_shell (send ("No " ++ nl));;;
    on_shell (sleep 1)
  else ret tt.

Definition DeviceCiscoWLC_logout : M Device (option bool) :=
  try_except
    (DeviceCiscoWLC_farewell;;;
     Device_logout;;;
     ret (Some true))
    [SSHException; OSError]
    (ret (Some false)).

(** [data] is assigned only in the body of the second loop: it is
    unbound ([None] here) when that loop does not run, and reading it
    then raises [UnboundLocalError]. *)
Definition DeviceCiscoWLC_login : M Device bool :=
  try_except
    (user <- gets username;;
     on_shell (send (user ++ nl));;;
     on_shell (sleep 1);;;
     on_shell drain_discard;;;
     pass <- gets password;;
     on_shell (send (pass ++ nl));;;
     on_shell (sleep 1);;;
     data <- on_shell (drain_last Some None);;
     match data with
     | None => raise UnboundLocalError
     | Some data =>
         if (Text.find data ">" =? -1)%Z then ret false
         else
           on_shell (send ("config paging disable " ++ nl));;;
           on_shell (sleep 1);;;
           ret true
     end)
    [SSHException; OSError]
    (ret false).

(** *** Linux *)

Definition DeviceLinux_superuser (pass : string) : M Device bool :=
  try_except
    (on_shell drain_discard;;;
     on_shell (send ("su " ++ nl));;;
     on_shell (sleep 1);;;
     data <- on_shell (drain_last id "");;
     if negb (Text.find data "Password:" =? -1)%Z then
       on_shell (send (pass ++ nl));;;
       on_shell (sleep 1);;;
       data <- on_shell (drain_last id "");;
       if negb (Text.find data "root" =? -1)%Z then ret true else ret false
     else ret false)
    [SSHException; UnicodeDecodeError]
    (ret false).

Definition DeviceLinux_farewell : M Device unit :=
  on_shell (send ("logout " ++ nl));;;
  on_shell (sleep 1).

Definition DeviceLinux_logout : M Device (option bool) :=
  try_except
    (DeviceLinux_farewell;;;
     Device_logout;;;
     ret (Some true))
    [SSHException; OSError]
    (ret (Some false)).

(** *** Method resolution: the subclass's method when it defines one,
    the method of [Device] otherwise. *)

Definition login : M Device bool :=
  fun d => match variant d with
           | CiscoIOS => DeviceCiscoIOS_login d
           | CiscoWLC => DeviceCiscoWLC_login d
           | Generic | Linux => Device_login d
           end.

Definition superuser (pass : string) : M Device bool :=
  fun d => match variant d with
           | CiscoIOS => DeviceCiscoIOS_superuser pass d
           | Linux => DeviceLinux_superuser pass d
           | Generic | CiscoWLC => Device_superuser pass d
           end.

(** The dialogue before closing; the generic device has none. *)
Definition farewell : M Device unit :=
  fun d => match variant d with
           | Generic => ret tt d
           | CiscoIOS => DeviceCiscoIOS_farewell d
           | CiscoWLC => DeviceCiscoWLC_farewell d
           | Linux => DeviceLinux_farewell d
           end.

Definition logout : M Device (option bool) :=
  fun d => match variant d with
           | Generic => Device_logout d
           | CiscoIOS => DeviceCiscoIOS_logout d
           | CiscoWLC => DeviceCiscoWLC_logout d
           | Linux => DeviceLinux_logout d
           end.

End Devices.

(* ===================================================================== *)
(** ** Activity.py: the engine *)
(* ===================================================================== *)

Module Activity.

Import Devices.

(** The attributes of an Activity that [run] reads.  Passwords are the
    plain texts held in memory after loading. *)
Record Activity : Type := mkActivity {
  name : string;
  user : string;
  password : string;
  superuserPassword : string;
  superuserNeeded : bool;
  targets : list string;
  commands : list string;
  outputDir : option string;
  logDir : option string;
  singleFile : bool;
  deviceType : string
}.

(** One reading of [datetime.now()], in the two formats in use. *)
Record Time : Type := mkTime {
  hms : string;        (* strftime('%H:%M:%S') *)
  ymd_hms : string     (* strftime('%Y%m%d_%H%M%S') *)
}.

Inductive handle : Type :=
| Stdout
| Stderr
| FileAt (path : string).

(** What happens to the files and streams of the process. *)
Inductive fs_event : Type :=
| Opened (path : string)
| Wrote (h : handle) (text : string)
| Closed (h : handle).

(** One call of [_writeLogFile]: the line written to [self.logFile] is
    [stamp + ": " + msg + "\n"]. *)
Record entry : Type := mkEntry {
  stamp : string;
  msg : string
}.

Definition line (e : entry) : string := stamp e ++ ": " ++ msg e ++ nl.

(** The methods the engine calls on a device. *)
Inductive method : Type :=
| m_connect | m_login | m_superuser | m_run | m_logout.

Record World : Type := mkWorld {
  (* the environment *)
  net : list Host;       (* the remote ends of the coming connects *)
  clock : list Time;     (* the coming readings of datetime.now() *)
  openq : list bool;     (* whether the coming open(path, 'w') succeed *)
  writeq : list wres;    (* outcomes of the coming writes of output *)
  (* the program *)
  aDevice : Device;      (* the object bound to aDevice *)
  outputFile : handle;   (* self.outputFile *)
  logFile : handle;      (* self.logFile *)
  (* what has been observed so far *)
  disk : list fs_event;
  log : list entry;
  calls : list (string * method)   (* hostname and method of each call *)
}.

Definition set_net v w := mkWorld v (clock w) (openq w) (writeq w) (aDevice w)
  (outputFile w) (logFile w) (disk w) (log w) (calls w).
Definition set_clock v w := mkWorld (net w) v (openq w) (writeq w) (aDevice w)
  (outputFile w) (logFile w) (disk w) (log w) (calls w).
Definition set_openq v w := mkWorld (net w) (clock w) v (writeq w)
  (aDevice w) (outputFile w) (logFile w) (disk w) (log w) (calls w).
Definition set_writeq v w := mkWorld (net w) (clock w) (openq w) v
  (aDevice w) (outputFile w) (logFile w) (disk w) (log w) (calls w).
Definition set_aDevice v w := mkWorld (net w) (clock w) (openq w) (writeq w) v
  (outputFile w) (logFile w) (disk w) (log w) (calls w).
Definition set_outputFile v w := mkWorld (net w) (clock w) (openq w) (writeq w)
  (aDevice w) v (logFile w) (disk w) (log w) (calls w).
Definition set_logFile v w := mkWorld (net w) (clock w) (openq w) (writeq w)
  (aDevice w) (outputFile w) v (disk w) (log w) (calls w).
Definition set_disk v w := mkWorld (net w) (clock w) (openq w) (writeq w)
  (aDevice w) (outputFile w) (logFile w) v (log w) (calls w).
Definition set_log v w := mkWorld (net w) (clock w) (openq w) (writeq w)
  (aDevice w) (outputFile w) (logFile w) (disk w) v (calls w).
Definition set_calls v w := mkWorld (net w) (clock w) (openq w) (writeq w)
  (aDevice w) (outputFile w) (logFile w) (disk w) (log w) v.

Definition emit (e : fs_event) : M World unit :=
  modify (fun w => set_disk (disk w ++ [e])%list w).

(** [datetime.now()]: the next reading of the clock. *)
Definition epoch : Time := mkTime "00:00:00" "19700101_000000".

Definition now : M World Time :=
  fun w => (Ret (hd epoch (clock w)), set_clock (tl (clock w)) w).

(** [open(path, 'w')]: raises OSError when the file cannot be created. *)
Definition open_w (path : string) : M World handle :=
  fun w => match openq w with
           | false :: later => (Raise OSError, set_openq later w)
           | true :: later =>
               (Ret (FileAt path),
                set_disk (disk w ++ [Opened path])%list (set_openq later w))
           | [] => (Ret (FileAt path),
                    set_disk (disk w ++ [Opened path])%list w)
           end.

(** [os.path.join(directory, filename)] of [posixpath]: an absolute
    [filename] replaces the directory, and no separator is added after a
    directory that is empty or ends with one. *)
Definition path_join (directory filename : string) : string :=
  if Text.startswith "/" filename then filename
  else if String.eqb directory "" || Text.endswith "/" directory
  then directory ++ filename
  else directory ++ "/" ++ filename.

(** [if self.outputDir:] and [if self.logDir:]: the directory when the
    attribute is a text that is not empty, nothing when it is None or
    the empty text. *)
Definition directory (dir : option string) : option string :=
  match dir with
  | Some (String c s) => Some (String c s)
  | _ => None
  end.

(** The characters kept by [re.sub(r'[^-a-zA-Z0-9_\.]+', '', s)]. *)
Definition filename_char (c : ascii) : bool :=
  let n := nat_of_ascii c in
  (((97 <=? n) && (n <=? 122)) || ((65 <=? n) && (n <=? 90))
   || ((48 <=? n) && (n <=? 57)) || (n =? 45) || (n =? 95) || (n =? 46))%nat.

Fixpoint cleanse (s : string) : string :=
  match s with
  | EmptyString => EmptyString
  | String c s' =>
      if filename_char c then String c (cleanse s') else cleanse s'
  end.

Definition timestampedFilename (baseFileName : string) : M World string :=
  t <- now;;
  ret (cleanse baseFileName ++ "_" ++ ymd_hms t ++ ".txt").

Definition _writeLogFile (m : string) : M World unit :=
  t <- now;;
  modify (fun w => set_log (log w ++ [mkEntry (hms t) m])%list w).

(** The file object [self.outputFile] as a statement finds it: the
    outcomes of its coming writes are those of the environment. *)
Definition sink (w : World) : File := mkFile (writeq w) [].

(** What the statement did to it: the outcomes it consumed are gone, and
    what it wrote is written on the handle. *)
Definition flush (f : File) (w : World) : World :=
  set_writeq (wq f)
    (set_disk (disk w ++ map (Wrote (outputFile w)) (written f))%list w).

(** [self.outputFile.write(msg)]: outside every [try]. *)
Definition _writeOutputFile (text : string) : M World unit :=
  zoom sink flush (write text).

Definition _openLogFile (a : Activity) (logFilename : string)
    : M World unit :=
  match directory (logDir a) with
  | Some d =>
      h <- try_except (open_w (path_join d logFilename)) [OSError]
             (emit (Wrote Stderr
                      ("Activity: Unable to create log file '"
                       ++ logFilename ++ " " ++ nl));;;
              raise OSError (* raise IOError *));;
      modify (set_logFile h)
  | None => modify (set_logFile Stderr)
  end.

Definition _openOutputFile (a : Activity) (filename : string)
    : M World unit :=
  match directory (outputDir a) with
  | Some d =>
      h <- try_except (open_w (path_join d filename)) [OSError]
             (emit (Wrote Stderr
                      ("Activity: Unable to create output file '"
                       ++ filename ++ "'" ++ nl));;;
              raise OSError (* raise IOError *));;
      modify (set_outputFile h)
  | None => modify (set_outputFile Stdout)
  end.

Definition _closeLogFile (a : Activity) : M World unit :=
  match directory (logDir a) with
  | Some _ => h <- gets logFile;; emit (Closed h)
  | None => ret tt
  end.

Definition _closeOutputFile (a : Activity) : M World unit :=
  match directory (outputDir a) with
  | Some _ => h <- gets outputFile;; emit (Closed h)
  | None => ret tt
  end.

(** A call [aDevice.m(...)] whose body only touches the device. *)
Definition call {A} (m : method) (body : M Device A) : M World A :=
  modify (fun w =>
    set_calls (calls w ++ [(hostname (aDevice w), m)])%list w);;;
  zoom aDevice set_aDevice body.

(** The call [aDevice.run(self.commands, self.outputFile)]: every
    [outfile.write(data)] of the body is a write on the handle. *)
Definition call_run (cmds : list string) : M World bool :=
  modify (fun w =>
    set_calls (calls w ++ [(hostname (aDevice w), m_run)])%list w);;;
  zoom (fun w => (aDevice w, sink w))
       (fun st w => flush (snd st) (set_aDevice (fst st) w))
       (Devices.run cmds).

(** Python's truth value of what [logout] returns. *)
Definition truthy (v : option bool) : bool :=
  match v with Some b => b | None => false end.

Definition opening_delimiter (hostname : string) : string :=
  nl ++ "----------------" ++ hostname ++ "--------------" ++ nl.

Definition closing_delimiter : string :=
  nl ++ "--------------------------------------------------" ++ nl.

(** A remote end that cannot be reached. *)
Definition unreachable : Host := mkHost (Some SocketFault) blank_shell.

(** The remote end that the next [connect] meets. *)
Definition next_peer : M World Host :=
  fun w => (Ret (hd unreachable (net w)), set_net (tl (net w)) w).

(** From the opening delimiter to the end of the loop body. *)
Definition target_block (a : Activity) (hostname : string)
    : M World unit :=
  _writeOutputFile (opening_delimiter hostname);;;
  ok <- call_run (commands a);;
  (if negb ok then _writeLogFile "ERROR while running the commmands"
   else ret tt);;;
  v <- call m_logout logout;;
  (if negb (truthy v) then _writeLogFile "ERROR while logging out"
   else ret tt);;;
  _writeOutputFile closing_delimiter;;;
  (if negb (singleFile a) then _closeOutputFile a else ret tt);;;
  _writeLogFile ("Finished commands at " ++ hostname).

(** The command phase of a target: what the loop body does once connect,
    login and the requested escalation have succeeded. *)
Definition command_phase (a : Activity) (hostname : string)
    : M World unit :=
  (if negb (singleFile a) then
     f <- timestampedFilename hostname;;
     _openOutputFile a f
   else ret tt);;;
  target_block a hostname.

(** [if self.superuserNeeded: ...]: false when the body took its
    [continue]. *)
Definition escalation (a : Activity) (hostname : string) : M World bool :=
  if superuserNeeded a then
    ok <- call m_superuser (superuser (superuserPassword a));;
    if negb ok then
      _writeLogFile ("Unable to superuser at " ++ hostname);;;
      ret false
    else
      _writeLogFile ("Superuser at " ++ hostname);;;
      ret true
  else ret true.

(** The body of [for hostname in self.targets]; each [continue] ends the
    body. *)
Definition visit (a : Activity) (hostname : string) : M World unit :=
  modify (set_aDevice (createDevice hostname (deviceType a)));;;
  peer <- next_peer;;
  ok <- call m_connect (connect peer (user a) (password a));;
  if negb ok then
    _writeLogFile ("Unable to connect to " ++ hostname
                   ++ ". Test with a local SSH session.")
  else
    _writeLogFile ("Connected to " ++ hostname);;;
    ok <- call m_login login;;
    if negb ok then
      _writeLogFile ("Unable to login to " ++ hostname
                     ++ ". " ++ String "009" ""
                     ++ " Test with the default Device type.")
    else
      escalated <- escalation a hostname;;
      if negb escalated then ret tt
      else command_phase a hostname.

Fixpoint for_each (hosts : list string) (body : string -> M World unit)
    : M World unit :=
  match hosts with
  | [] => ret tt
  | h :: rest => body h;;; for_each rest body
  end.

Definition run (a : Activity) : M World unit :=
  outputFilename <- timestampedFilename (name a ++ "_OUT");;
  logFilename <- timestampedFilename (name a ++ "_LOG");;
  _openLogFile a logFilename;;;
  (if singleFile a then _openOutputFile a outputFilename else ret tt);;;
  for_each (targets a) (visit a);;;
  _writeLogFile "Finished activity";;;
  (if singleFile a then _closeOutputFile a else ret tt);;;
  _writeLogFile "END";;;
  _closeLogFile a.

(** The state in which a run starts: [logFile] and [outputFile] at their
    class-level defaults, nothing observed yet. *)
Definition start (hosts : list Host) (times : list Time)
    (opens : list bool) : World :=
  mkWorld hosts times opens [] (new_device Generic "") Stdout Stderr
          [] [] [].

End Activity.

(* ===================================================================== *)
(** ** Activity.py: the credential codec *)
(* ===================================================================== *)

Module Codec.

Local Open Scope N_scope.

(** A Python [str]: its code points.  A [bytes]: its bytes. *)
Definition str : Type := list N.
Definition bytes : Type := list N.

(** [zip(xs, cycle(key))]: [cur] is what is left of the current pass
    over [key].  An empty key gives an empty cycle, hence no pair. *)
Fixpoint zip_cycle {A B} (xs : list A) (key cur : list B)
    : list (A * B) :=
  match xs with
  | [] => []
  | x :: xs' =>
      match cur with
      | y :: cur' => (x, y) :: zip_cycle xs' key cur'
      | [] =>
          match key with
          | [] => []
          | y :: key' => (x, y) :: zip_cycle xs' key key'
          end
      end
  end.

(** [chr(n)]: ValueError outside [range(0x110000)]. *)
Definition chr (n : N) : option N :=
  if n <? 1114112 then Some n else None.

(** [''.join(chr(f x y) for (x, y) in pairs)] *)
Fixpoint join_chr (codes : list N) : option str :=
  match codes with
  | [] => Some []
  | n :: rest =>
      match chr n, join_chr rest with
      | Some c, Some s => Some (c :: s)
      | _, _ => None
      end
  end.

(** One code point in UTF-8; the surrogates do not encode
    (UnicodeEncodeError). *)
Definition utf8_char (c : N) : option bytes :=
  if c <? 128 then Some [c]
  else if c <? 2048 then
    Some [N.lor 192 (N.shiftr c 6); N.lor 128 (N.land c 63)]
  else if c <? 65536 then
    if (55296 <=? c) && (c <=? 57343) then None
    else Some [N.lor 224 (N.shiftr c 12);
               N.lor 128 (N.land (N.shiftr c 6) 63);
               N.lor 128 (N.land c 63)]
  else
    Some [N.lor 240 (N.shiftr c 18);
          N.lor 128 (N.land (N.shiftr c 12) 63);
          N.lor 128 (N.land (N.shiftr c 6) 63);
          N.lor 128 (N.land c 63)].

(** [s.encode("utf-8")] *)
Fixpoint encode_utf8 (s : str) : option bytes :=
  match s with
  | [] => Some []
  | c :: rest =>
      match utf8_char c, encode_utf8 rest with
      | Some b, Some bs => Some (b ++ bs)%list
      | _, _ => None
      end
  end.

(** The hex digit of a value below 16, as a code point: '0'..'9',
    'a'..'f'. *)
Definition hexdigit (n : N) : N :=
  if n <? 10 then 48 + n else 87 + n.

(** [codecs.encode(b, "hex").decode("utf-8")]: two lower-case digits for
    each byte. *)
Fixpoint hexlify (b : bytes) : str :=
  match b with
  | [] => []
  | x :: rest => hexdigit (x / 16) :: hexdigit (x mod 16) :: hexlify rest
  end.

(** The value of a hex digit, of either case. *)
Definition unhexdigit (c : N) : option N :=
  if (48 <=? c) && (c <=? 57) then Some (c - 48)
  else if (97 <=? c) && (c <=? 102) then Some (c - 87)
  else if (65 <=? c) && (c <=? 70) then Some (c - 55)
  else None.

(** [codecs.decode(s, 'hex')]: binascii.Error on an odd length or on a
    character that is not a hex digit. *)
Fixpoint unhexlify (s : str) : option bytes :=
  match s with
  | [] => Some []
  | hi :: lo :: rest =>
      match unhexdigit hi, unhexdigit lo, unhexlify rest with
      | Some h, Some l, Some bs => Some (16 * h + l :: bs)
      | _, _, _ => None
      end
  | [_] => None
  end.

Definition xor_pair (p : N * N) : N := N.lxor (fst p) (snd p).

Definition xor_crypt_string (plaintext key : str) : option str :=
  match join_chr (map xor_pair (zip_cycle plaintext key key)) with
  | Some ciphertext =>
      match encode_utf8 ciphertext with
      | Some b => Some (hexlify b)
      | None => None
      end
  | None => None
  end.

Definition xor_decrypt_string (ciphertext key : str) : option str :=
  match unhexlify ciphertext with
  | Some b => join_chr (map xor_pair (zip_cycle b key key))
  | None => None
  end.

(** The round trip through both functions, as the loaders and writers
    of task files compose them. *)
Definition roundtrip (plaintext key : str) : option str :=
  match xor_crypt_string plaintext key with
  | Some c => xor_decrypt_string c key
  | None => None
  end.

(** Text within ASCII. *)
Definition ascii_only (s : str) : Prop := Forall (fun c => c < 128) s.

End Codec.

(* ===================================================================== *)
(** ** What a session shows: the observations the statements are about *)
(* ===================================================================== *)

Module Capture.

(** The chunks one drain loop decodes: the run of ready, decodable
    chunks at the head of the queue. *)
Fixpoint drain_chunks (q : list poll) : list string :=
  match q with
  | Chunk t :: q' => t :: drain_chunks q'
  | _ => []
  end.

(** How one drain loop ends: normally at a poll that is not ready,
    or by the exception of a chunk that does not decode or of a [recv]
    that raises. *)
Fixpoint drain_stop (q : list poll) : result unit :=
  match q with
  | Chunk _ :: q' => drain_stop q'
  | Garbled :: _ => Raise UnicodeDecodeError
  | RecvFails e :: _ => Raise (exn_of e)
  | Idle :: _ | [] => Ret tt
  end.

(** The queue left by one drain loop. *)
Fixpoint after_drain (q : list poll) : list poll :=
  match q with
  | Chunk _ :: q' => after_drain q'
  | _ :: q' => q'
  | [] => []
  end.

(** The text one drain loop drains, all chunks together, when the loop
    ends normally. *)
Definition drained_text (q : list poll) : option string :=
  match drain_stop q with
  | Ret _ => Some (Text.join (drain_chunks q))
  | Raise _ => None
  end.

(** The outcome of a [send] of [text] on a queue of outcomes. *)
Definition send_outcome (text : string) (q : list sendres) : result nat :=
  match q with
  | [] => Ret (String.length text)
  | Accepts n :: _ => Ret n
  | SendFails e :: _ => Raise (exn_of e)
  end.

Definition send_raises (q : list sendres) : bool :=
  match q with
  | SendFails _ :: _ => true
  | _ => false
  end.

(** The escalation dialogues drain the noise, send the escalation
    command and drain the reply.  [command_reply sh] is the text of
    that reply on a session in state [sh], when the dialogue gets that
    far without an exception. *)
Definition command_reply (sh : Shell) : option string :=
  match drained_text (rxq sh) with
  | None => None
  | Some _ =>
      if send_raises (txq sh) then None
      else drained_text (after_drain (rxq sh))
  end.

(** The text drained after the password was sent, likewise. *)
Definition password_reply (sh : Shell) : option string :=
  match command_reply sh with
  | None => None
  | Some _ =>
      if send_raises (tl (txq sh)) then None
      else drained_text (after_drain (after_drain (rxq sh)))
  end.

(** The Cisco WLC login sends the user name, drains, sends the password
    and drains the reply: the text of that reply, when the dialogue gets
    that far without an exception. *)
Definition credentials_reply (sh : Shell) : option string :=
  if send_raises (txq sh) then None
  else match drained_text (rxq sh) with
       | None => None
       | Some _ =>
           if send_raises (tl (txq sh)) then None
           else drained_text (after_drain (rxq sh))
       end.

(** The session after a [send] of [text]. *)
Definition after_send (text : string) (sh : Shell) : Shell :=
  mkShell (rxq sh) (tl (txq sh)) (close_fault sh) (client_close_fault sh)
          (sent sh ++ [text])%list (close_calls sh) (client_close_calls sh).

(** The logout contract as claimed for a session [d]: whenever the
    dialogue before closing raises, [logout] returns False and the
    channel's close has been invoked. *)
Definition closes_despite_fault (d : Devices.Device) : Prop :=
  forall e d1,
    Devices.farewell d = (Raise e, d1) ->
    exists d',
      Devices.logout d = (Ret (Some false), d')
      /\ close_calls (Devices.RemoteShell d)
         < close_calls (Devices.RemoteShell d').

(** The two closes of a session have not been invoked between [d] and
    [d']. *)
Definition no_close_between (d d' : Devices.Device) : Prop :=
  close_calls (Devices.RemoteShell d')
    = close_calls (Devices.RemoteShell d)
  /\ client_close_calls (Devices.RemoteShell d')
     = client_close_calls (Devices.RemoteShell d).

(** A poll at which the command runner stops with a failure. *)
Definition bad_poll (p : poll) : bool :=
  match p with
  | Garbled | RecvFails _ => true
  | Chunk _ | Idle => false
  end.

(** A send at which the command runner stops with a failure: no byte
    accepted, or an exception of the transport. *)
Definition bad_send (r : sendres) : bool :=
  match r with
  | Accepts 0 | SendFails _ => true
  | Accepts (S _) => false
  end.

(** The polls [cp] and the send outcomes [cs] were consumed between the
    session states [sh] and [sh']. *)
Definition consumed (sh sh' : Shell) (cp : list poll) (cs : list sendres)
    : Prop :=
  rxq sh = (cp ++ rxq sh')%list /\ txq sh = (cs ++ txq sh')%list.

(** Among what was consumed there is a send that accepted no byte or
    raised, or a chunk that did not decode, or a [recv] that raised. *)
Definition failure_met (cp : list poll) (cs : list sendres) : bool :=
  existsb bad_poll cp || existsb bad_send cs.

(** The device object is the same apart from its channel. *)
Definition same_object (d d' : Devices.Device) : Prop :=
  Devices.hostname d' = Devices.hostname d
  /\ Devices.variant d' = Devices.variant d.

(** The decoded texts among polls. *)
Fixpoint texts (ps : list poll) : list string :=
  match ps with
  | [] => []
  | Chunk t :: ps' => t :: texts ps'
  | _ :: ps' => texts ps'
  end.

(** The texts that land in a file when the texts [ts] are handed to
    [write] in order and the outcomes of the writes are [q]: those
    before the first write that raises. *)
Fixpoint landed (ts : list string) (q : list wres) : list string :=
  match ts with
  | [] => []
  | t :: ts' =>
      match q with
      | WriteFails _ :: _ => []
      | Written :: q' => t :: landed ts' q'
      | [] => t :: landed ts' []
      end
  end.

(** The first write that raises when [ts] are written on [q], if one
    does. *)
Fixpoint refusal (ts : list string) (q : list wres) : option sinkerr :=
  match ts with
  | [] => None
  | _ :: ts' =>
      match q with
      | WriteFails f :: _ => Some f
      | Written :: q' => refusal ts' q'
      | [] => None
      end
  end.

(** The exception the next write raises, if it raises. *)
Definition next_write (q : list wres) : option sinkerr :=
  match q with
  | WriteFails f :: _ => Some f
  | _ => None
  end.

(** A sink that accepts whatever is written. *)
Definition accepting (q : list wres) : bool :=
  forallb (fun r => match r with Written => true | WriteFails _ => false end)
          q.

(** How a part of [run] ends, given the polls [cp] and the send outcomes
    [cs] it consumed and the outcomes [q] of its writes: with the
    exception of the write that raised, if one did; else normally when
    no send and no poll failed, and with an exception that [run]
    handles when one did. *)
Definition ends (cp : list poll) (cs : list sendres) (q : list wres)
    (r : result unit) : Prop :=
  match refusal (texts cp) q with
  | Some f => r = Raise (exn_of_sink f) /\ failure_met cp cs = false
  | None =>
      match r with
      | Ret _ => failure_met cp cs = false
      | Raise e =>
          failure_met cp cs = true
          /\ handles [SSHException; OSError; UnicodeDecodeError] e = true
      end
  end.

(** How a part of [run] relates the session and the file before and
    after it: every decoded chunk was handed to [write], in order. *)
Definition trace (d : Devices.Device) (out : File) (r : result unit)
    (d' : Devices.Device) (out' : File) : Prop :=
  exists cp cs,
    consumed (Devices.RemoteShell d) (Devices.RemoteShell d') cp cs
    /\ wq out' = skipn (length (texts cp)) (wq out)
    /\ written out' = (written out ++ landed (texts cp) (wq out))%list
    /\ same_object d d'
    /\ ends cp cs (wq out) r.

(** What [run] returns or raises, given what it consumed: the
    UnicodeEncodeError of a write leaves it, the OSError of a write is
    handled like that of the transport. *)
Definition run_result (cp : list poll) (cs : list sendres) (q : list wres)
    : result bool :=
  match refusal (texts cp) q with
  | Some EncodeFault => Raise UnicodeEncodeError
  | Some DiskFault => Ret false
  | None => Ret (negb (failure_met cp cs))
  end.


(** The messages of the log, oldest first. *)
Definition messages (w : Activity.World) : list string :=
  map Activity.msg (Activity.log w).

(** The line that closes a target whose command phase was reached. *)
Definition is_finished (m : string) : bool :=
  Text.startswith "Finished commands at " m.

(** The lines that close a target whose connect, login or escalation
    failed. *)
Definition is_unable (m : string) : bool :=
  Text.startswith "Unable to connect to " m
  || Text.startswith "Unable to login to " m
  || Text.startswith "Unable to superuser at " m.

Definition count (p : string -> bool) (l : list string) : nat :=
  List.length (filter p l).

Definition finished_lines (w : Activity.World) : nat :=
  count is_finished (messages w).

Definition unable_lines (w : Activity.World) : nat :=
  count is_unable (messages w).

(** The world after one call of [_writeLogFile]. *)
Definition logged (m : string) (w : Activity.World) : Activity.World :=
  Activity.set_log
    (Activity.log w
     ++ [Activity.mkEntry (Activity.hms (hd Activity.epoch (Activity.clock w)))
                          m])%list
          (Activity.set_clock (tl (Activity.clock w)) w).

(** The log is the same in [w] and [w']. *)
Definition quiet (w w' : Activity.World) : Prop :=
  Activity.log w' = Activity.log w.

(** What a part of the run adds to the log: the messages [l], of which
    [closing l] close a target. *)
Definition closing (l : list string) : nat :=
  count is_finished l + count is_unable l.

(** The computation [c], started in [w], adds the messages [l] to the
    log. *)
Definition adds {A} (c : M Activity.World A) (w : Activity.World)
    (l : list string) : Prop :=
  messages (snd (c w)) = (messages w ++ l)%list.

(** A target is closed by one line when its turn ends, by none when an
    exception ends the run within its turn. *)
Definition verdict {A} (r : result A) (l : list string) : Prop :=
  closing l = match r with Ret _ => 1 | Raise _ => 0 end
  /\ count is_unable l <= 1.

(** The computation [c], started in [w], closes its target: it adds one
    closing line when it returns, none when it raises. *)
Definition closes_target {A} (c : M Activity.World A) (w : Activity.World)
    : Prop :=
  exists l, adds c w l /\ verdict (fst (c w)) l.

(** The count of closing lines as claimed for a run of [a] from [w]: one
    "Finished commands at" line for each target, whatever happened to
    it. *)
Definition one_finished_line_per_target (a : Activity.Activity)
    (w : Activity.World) : Prop :=
  Activity.targets a <> [] ->
  finished_lines (snd (Activity.run a w))
  = finished_lines w + List.length (Activity.targets a).

(** The escalation contract as claimed for a run of [a] from [w]: a
    target whose escalation failed still has its [logout] called. *)
Definition logout_after_failed_escalation (a : Activity.Activity)
    (w : Activity.World) : Prop :=
  forall h,
    In h (Activity.targets a) ->
    In ("Unable to superuser at " ++ h) (messages (snd (Activity.run a w))) ->
    In (h, Activity.m_logout) (Activity.calls (snd (Activity.run a w))).

End Capture.

(* ===================================================================== *)
(** ** Concrete sessions and runs *)
(* ===================================================================== *)

Module Scenarios.

Import Devices Activity.

(** A router that asks for the enable password and then shows the
    privileged prompt. *)
Definition ios_session : Device :=
  mkDevice CiscoIOS "r1" "admin" "pw"
    (mkShell [Idle; Chunk "Password: "; Idle; Chunk "r1#"; Idle] []
             None None [] 0 0).

(** A router whose channel is already closed when [logout] starts: the
    first send raises. *)
Definition ios_hung_up : Device :=
  mkDevice CiscoIOS "r1" "admin" "pw"
    (mkShell [] [SendFails SocketFault] None None [] 0 0).

(** A task on [hosts] of device type [ty], with or without escalation:
    one command, output to the console, log to the error stream. *)
Definition audit (hosts : list string) (ty : string) (su : bool)
    : Activity :=
  mkActivity "audit" "admin" "pw" "enpw" su hosts ["show version"]
             None None false ty.

(** A host that answers: a banner, then the output of the command. *)
Definition plain_host : Host :=
  mkHost None
    (mkShell [Chunk "Welcome"; Idle; Chunk "version 1"; Idle] []
             None None [] 0 0).

(** A router that shows its prompt again when "enable" is typed, without
    asking for a password. *)
Definition mute_router : Host :=
  mkHost None
    (mkShell [Chunk "r1>"; Idle; Chunk "r1>"; Idle; Idle] []
             None None [] 0 0).

(** The task that escalates on that router, the state in which its run
    starts, and the device after its connect and after its login. *)
Definition mute_audit : Activity := audit ["r1"] "ciscoios" true.

Definition mute_world : World := start [mute_router] [] [].

Definition mute_connected : Device :=
  mkDevice CiscoIOS "r1" "admin" "pw" (channel mute_router).

Definition mute_logged_in : Device :=
  mkDevice CiscoIOS "r1" "admin" "pw"
    (mkShell [Chunk "r1>"; Idle; Idle] [] None None
             ["terminal length 0 " ++ nl] 0 0).

(** A wireless controller that has sent nothing one second after the
    password was typed. *)
Definition slow_wlc : Host :=
  mkHost None
    (mkShell [Chunk "User: "; Idle; Idle] [] None None [] 0 0).

(** The session with that controller, once connected. *)
Definition slow_wlc_session : Device :=
  mkDevice CiscoWLC "wlc1" "admin" "pw" (channel slow_wlc).

(** A router whose output arrives, while it is being logged out, with a
    chunk of bytes that are not UTF-8. *)
Definition latin1_router : Host :=
  mkHost None
    (mkShell [Chunk "r1>"; Idle; Idle; Chunk "IOS 15.2"; Idle; Garbled] []
             None None [] 0 0).

(** The task run on that controller and on a second host, and the state
    in which the run starts. *)
Definition wlc_audit : Activity := audit ["wlc1"; "wlc2"] "ciscowlc" false.

Definition wlc_world : World := start [slow_wlc; plain_host] [] [].

(** The task run on that router and on a second host, and the state in
    which the run starts. *)
Definition latin1_audit : Activity := audit ["r1"; "r2"] "ciscoios" false.

Definition latin1_world : World := start [latin1_router; plain_host] [] [].

(** A router that sends a chunk of bytes that are not UTF-8 in the
    output of the command, and another while it is being logged out. *)
Definition garbling_router : Host :=
  mkHost None
    (mkShell [Chunk "r1>"; Idle; Idle; Chunk "IOS 15.2"; Garbled; Garbled] []
             None None [] 0 0).

(** The session with that router when its commands are run. *)
Definition garbling_session : Device :=
  mkDevice CiscoIOS "r1" "admin" "pw"
    (mkShell [Idle; Chunk "IOS 15.2"; Garbled; Garbled] [] None None
             ["terminal length 0 " ++ nl] 0 0).

(** The task run on that router and on a second host, and the state in
    which the run starts. *)
Definition garbling_audit : Activity := audit ["r1"; "r2"] "ciscoios" false.

Definition garbling_world : World :=
  start [garbling_router; plain_host] [] [].

End Scenarios.


(* ===================================================================== *)
(** ** Further observations on sessions and runs *)
(* ===================================================================== *)

Module Observations.

Import Capture.

(** The exceptions the transport raises, as exceptions of the program. *)
Definition transport_fault (e : exn) : Prop :=
  e = SSHException \/ e = OSError.

(** The exceptions of sending, receiving and decoding. *)
Definition stream_fault (e : exn) : Prop :=
  transport_fault e \/ e = UnicodeDecodeError.

(** The exceptions the second login of the wireless controller can meet
    before its handler. *)
Definition dialogue_fault (e : exn) : Prop :=
  stream_fault e \/ e = UnboundLocalError.

(** Whenever [c] raises, the exception satisfies [P]. *)
Definition raises_only {S A} (P : exn -> Prop) (c : M S A) : Prop :=
  forall s e s', c s = (Raise e, s') -> P e.

(** Between [d] and [d'] no close was invoked and what the closes will do
    is unchanged. *)
Definition closing_untouched (d d' : Devices.Device) : Prop :=
  no_close_between d d'
  /\ close_fault (Devices.RemoteShell d')
     = close_fault (Devices.RemoteShell d)
  /\ client_close_fault (Devices.RemoteShell d')
     = client_close_fault (Devices.RemoteShell d).

(** What the command runner types for a list of commands. *)
Definition typed (cmds : list string) : list string :=
  map (fun cmd => cmd ++ Devices.nl) cmds.

(** What [logout] of the generic device returns on a session: True when
    both closes pass, None when one raises. *)
Definition generic_logout_value (sh : Shell) : option bool :=
  match close_fault sh, client_close_fault sh with
  | None, None => Some true
  | _, _ => None
  end.

(** The number of times [SSHClient.close()] is reached by the two closes
    of a session: not at all when the close of the channel raises. *)
Definition client_closes (sh : Shell) : nat :=
  match close_fault sh with
  | None => 1
  | Some _ => 0
  end.

End Observations.

(* ===================================================================== *)
(** ** More concrete sessions *)
(* ===================================================================== *)

Module MoreScenarios.

Import Devices Activity.

(** A Linux host that asks for the root password and then shows the root
    prompt. *)
Definition linux_session : Device :=
  mkDevice Linux "srv1" "admin" "pw"
    (mkShell [Idle; Chunk "Password: "; Idle; Chunk "root@srv1:~# "; Idle] []
             None None [] 0 0).

(** A wireless controller that shows its prompt after the second login. *)
Definition wlc_session : Device :=
  mkDevice CiscoWLC "wlc1" "admin" "pw"
    (mkShell [Chunk "User: "; Idle; Chunk "(Cisco Controller) >"; Idle] []
             None None [] 0 0).

(** A wireless controller that asks whether to save when "exit" is
    typed. *)
Definition wlc_unsaved : Device :=
  mkDevice CiscoWLC "wlc1" "admin" "pw"
    (mkShell [Chunk "Would you like to save? (y/N)"; Idle] []
             None None [] 0 0).

(** A router whose channel raises when it is closed. *)
Definition ios_bad_close : Device :=
  mkDevice CiscoIOS "r1" "admin" "pw"
    (mkShell [Idle] [] (Some SocketFault) None [] 0 0).

(** A router whose channel accepts no byte of what is typed. *)
Definition ios_deaf : Device :=
  mkDevice CiscoIOS "r1" "admin" "pw"
    (mkShell [Chunk "r1>"; Idle] [Accepts 0] None None [] 0 0).

(** A Linux host at its prompt. *)
Definition linux_idle : Device :=
  mkDevice Linux "srv1" "admin" "pw"
    (mkShell [Idle] [] None None [] 0 0).

(** A router whose channel fails at the first thing typed. *)
Definition dead_router : Host :=
  mkHost None (mkShell [] [SendFails SocketFault] None None [] 0 0).

(** A task on one router, written to files of the directory "out", one
    for each target. *)
Definition filed_audit : Activity :=
  mkActivity "audit" "admin" "pw" "enpw" false ["r1"] ["show version"]
             (Some "out") None false "".

(** The state of a run of that task when the command phase of "r1"
    starts on a host that answers: the device is connected, the banner
    of the host is pending on the channel. *)
Definition filed_world : World :=
  mkWorld [] [] [] []
          (mkDevice Generic "r1" "admin" "pw" (channel Scenarios.plain_host))
          Stdout Stderr [] [] [].

(** The same task with its log in the directory "log". *)
Definition logged_audit : Activity :=
  mkActivity "audit" "admin" "pw" "enpw" false ["r1"] ["show version"]
             (Some "out") (Some "log") false "".

End MoreScenarios.

(* ===================================================================== *)
(** ** Observations on the codec *)
(* ===================================================================== *)

Module CodecObs.

Import Codec.
Local Open Scope N_scope.

(** A Python [str] holds code points of [range(0x110000)] only. *)
Definition valid_str (s : str) : Prop := Forall (fun c => c < 1114112) s.

(** The code points [ord(x) ^ ord(y)] the encoder builds before it
    writes them in UTF-8. *)
Definition scrambled (plaintext key : str) : list N :=
  map xor_pair (zip_cycle plaintext key key).

(** One of [0-9a-f], as a code point. *)
Definition is_lower_hex (c : N) : bool :=
  ((48 <=? c) && (c <=? 57)) || ((97 <=? c) && (c <=? 102)).

(** The text holds a character that is not a hex digit. *)
Definition has_non_hex (s : str) : Prop :=
  exists x, In x s /\ unhexdigit x = None.

End CodecObs.

(* ===================================================================== *)
(** ** Observations on the turns of a run *)
(* ===================================================================== *)

Module EngineObs.

Import Devices Activity.

(** The class [createDevice] picks for a device type. *)
Definition class_of (ty : string) : kind := variant (createDevice "" ty).




(** Neither a call on the device nor a change of the device, and no
    write of output. *)
Definition steady (w w' : World) : Prop :=
  calls w' = calls w /\ aDevice w' = aDevice w /\ net w' = net w
  /\ writeq w' = writeq w.





(** The remote ends of the coming connects are the same. *)
Definition same_net (w w' : World) : Prop := net w' = net w.

(** How far the turn of a target gets before its commands: to the
    commands, when connect, login and the requested escalation returned
    True; or no further than the step that returned False; or a step
    raised. *)
Inductive progress : Type :=
| Commands
| NoConnect
| NoLogin
| NoSuperuser
| Escaped.

(** The progress of the turn of [h] when [peer] is the remote end its
    connect meets. *)
Definition progress_of (a : Activity) (h : string) (peer : Host)
    : progress :=
  match connect peer (user a) (Activity.password a)
                (createDevice h (deviceType a)) with
  | (Raise _, _) => Escaped
  | (Ret false, _) => NoConnect
  | (Ret true, d1) =>
      match login d1 with
      | (Raise _, _) => Escaped
      | (Ret false, _) => NoLogin
      | (Ret true, d2) =>
          if superuserNeeded a then
            match superuser (superuserPassword a) d2 with
            | (Raise _, _) => Escaped
            | (Ret false, _) => NoSuperuser
            | (Ret true, _) => Commands
            end
          else Commands
      end
  end.

(** The line of the log that closes the turn of [h], by its progress. *)
Definition closing_line (h : string) (p : progress) : option string :=
  match p with
  | Commands => Some ("Finished commands at " ++ h)%string
  | NoConnect =>
      Some ("Unable to connect to " ++ h
            ++ ". Test with a local SSH session.")%string
  | NoLogin =>
      Some ("Unable to login to " ++ h ++ ". " ++ String "009" ""
            ++ " Test with the default Device type.")%string
  | NoSuperuser => Some ("Unable to superuser at " ++ h)%string
  | Escaped => None
  end.

(** The closing lines of the targets [hosts], in order, when [peers] are
    the remote ends their connects meet. *)
Fixpoint closing_lines (a : Activity) (hosts : list string)
    (peers : list Host) : list (option string) :=
  match hosts with
  | [] => []
  | h :: rest =>
      closing_line h (progress_of a h (hd unreachable peers))
      :: closing_lines a rest (tl peers)
  end.

(** The number of targets among [hosts] whose turn gets to the
    commands. *)
Fixpoint reached (a : Activity) (hosts : list string) (peers : list Host)
    : nat :=
  match hosts with
  | [] => 0
  | h :: rest =>
      match progress_of a h (hd unreachable peers) with
      | Commands => 1
      | _ => 0
      end + reached a rest (tl peers)
  end.

(** The turn of every target among [hosts] gets to the commands: no
    connect, login or requested escalation returns False or raises. *)
Fixpoint all_reached (a : Activity) (hosts : list string)
    (peers : list Host) : Prop :=
  match hosts with
  | [] => True
  | h :: rest =>
      progress_of a h (hd unreachable peers) = Commands
      /\ all_reached a rest (tl peers)
  end.

(** A line that closes the turn of a target. *)
Definition is_closing (m : string) : bool :=
  Capture.is_finished m || Capture.is_unable m.


(** Every character of [s] satisfies [p]. *)
Fixpoint all_chars (p : ascii -> bool) (s : string) : bool :=
  match s with
  | EmptyString => true
  | String c s' => p c && all_chars p s'
  end.

(** The file events that a part of the run adds. *)
Definition writes {A} (c : M World A) (w : World) (l : list fs_event)
    : Prop :=
  disk (snd (c w)) = (disk w ++ l)%list.

End EngineObs.

(* ===================================================================== *)
(** ** Task files: what writeToJSON stores and loadFromJSON reads *)
(* ===================================================================== *)

Module Files.

Import Codec.

(** The attributes of an Activity that the task files carry.  The three
    credentials are Python texts given by their code points, since the
    codec works on them; the other texts are stored as they are. *)
Record Task : Type := mkTask {
  name : string;
  description : string;
  user : str;
  password : str;
  superuserPassword : str;
  superuserNeeded : bool;
  targets : list string;
  commands : list string;
  outputDir : option string;
  logDir : option string;
  singleFile : bool;
  deviceType : string
}.

(** The class-level defaults: a new [Activity()]. *)
Definition blank : Task :=
  mkTask "" "" [] [] [] false [] [] None None false "".

(** Python's truth value of a text. *)
Definition nonempty (s : string) : bool :=
  match s with
  | EmptyString => false
  | String _ _ => true
  end.

(** Python's truth value of [self.outputDir] and [self.logDir]: None
    and the empty text are false. *)
Definition is_set (dir : option string) : bool :=
  match dir with
  | Some d => nonempty d
  | None => false
  end.

(** The dictionary [data]: for each key the value stored under it, if
    the key is present.  The values have the types [writeToJSON] gives
    them. *)
Record Doc : Type := mkDoc {
  j_name : option string;
  j_desc : option string;
  j_login : option str;
  j_password : option str;
  j_superuserPassword : option str;
  j_type : option string;
  j_devices : option (list string);
  j_commands : option (list string);
  j_outputDir : option string;
  j_singleFile : option bool;
  j_logDir : option string
}.

(** What leaves the loaders and writers: a missing key, an error of the
    codec (ValueError of [chr], UnicodeEncodeError, binascii.Error), or
    the TypeError of a format string. *)
Inductive failure : Type :=
| KeyError (key : string)
| CodecError
| TypeError.

Inductive outcome (A : Type) : Type :=
| Returned (a : A)
| Failed (f : failure).
Arguments Returned {A} a.
Arguments Failed {A} f.

(** The dictionary built by [writeToJSON] before it opens the file. *)
Definition data_of (t : Task) : outcome Doc :=
  match xor_crypt_string (password t) (user t) with
  | None => Failed CodecError
  | Some p =>
      match (if superuserNeeded t then
               match xor_crypt_string (superuserPassword t) (user t) with
               | Some sp => Some (Some sp)
               | None => None
               end
             else Some None) with
      | None => Failed CodecError
      | Some sp =>
          Returned
            (mkDoc (Some (name t)) (Some (description t)) (Some (user t))
                   (Some p) sp
                   (if nonempty (deviceType t) then Some (deviceType t)
                    else None)
                   (Some (targets t)) (Some (commands t))
                   (if is_set (outputDir t) then outputDir t else None)
                   (if is_set (outputDir t) && singleFile t then Some true
                    else None)
                   (if is_set (logDir t) then logDir t else None))
      end
  end.

(** [writeToJSON(filename)]: [writable] tells whether the directory can
    be made and the file written.  The file then holds the dictionary;
    otherwise the handler formats one [%s] with two values, which raises
    TypeError. *)
Definition writeToJSON (t : Task) (writable : bool)
    : outcome bool * option Doc :=
  match data_of t with
  | Failed f => (Failed f, None)
  | Returned d =>
      if writable then (Returned true, Some d)
      else (Failed TypeError, None)
  end.

(** The statements of [loadFromJSON] after the file was read, on the
    object [t]: each one updates the object or raises. *)
Definition set_name v t := mkTask v (description t) (user t) (password t)
  (superuserPassword t) (superuserNeeded t) (targets t) (commands t)
  (outputDir t) (logDir t) (singleFile t) (deviceType t).
Definition set_user v t := mkTask (name t) (description t) v (password t)
  (superuserPassword t) (superuserNeeded t) (targets t) (commands t)
  (outputDir t) (logDir t) (singleFile t) (deviceType t).
Definition set_password v t := mkTask (name t) (description t) (user t) v
  (superuserPassword t) (superuserNeeded t) (targets t) (commands t)
  (outputDir t) (logDir t) (singleFile t) (deviceType t).
Definition set_superuserPassword v t := mkTask (name t) (description t)
  (user t) (password t) v (superuserNeeded t) (targets t) (commands t)
  (outputDir t) (logDir t) (singleFile t) (deviceType t).
Definition set_superuserNeeded v t := mkTask (name t) (description t)
  (user t) (password t) (superuserPassword t) v (targets t) (commands t)
  (outputDir t) (logDir t) (singleFile t) (deviceType t).
Definition set_targets v t := mkTask (name t) (description t) (user t)
  (password t) (superuserPassword t) (superuserNeeded t) v (commands t)
  (outputDir t) (logDir t) (singleFile t) (deviceType t).
Definition set_commands v t := mkTask (name t) (description t) (user t)
  (password t) (superuserPassword t) (superuserNeeded t) (targets t) v
  (outputDir t) (logDir t) (singleFile t) (deviceType t).
Definition set_outputDir v t := mkTask (name t) (description t) (user t)
  (password t) (superuserPassword t) (superuserNeeded t) (targets t)
  (commands t) v (logDir t) (singleFile t) (deviceType t).
Definition set_logDir v t := mkTask (name t) (description t) (user t)
  (password t) (superuserPassword t) (superuserNeeded t) (targets t)
  (commands t) (outputDir t) v (singleFile t) (deviceType t).
Definition set_singleFile v t := mkTask (name t) (description t) (user t)
  (password t) (superuserPassword t) (superuserNeeded t) (targets t)
  (commands t) (outputDir t) (logDir t) v (deviceType t).
Definition set_deviceType v t := mkTask (name t) (description t) (user t)
  (password t) (superuserPassword t) (superuserNeeded t) (targets t)
  (commands t) (outputDir t) (logDir t) (singleFile t) v.

(** A method of the object: the outcome and the object after it. *)
Definition L (A : Type) : Type := Task -> outcome A * Task.

Definition done {A} (a : A) : L A := fun t => (Returned a, t).

Definition fail {A} (f : failure) : L A := fun t => (Failed f, t).

Definition andthen {A B} (c : L A) (k : A -> L B) : L B :=
  fun t => match c t with
           | (Returned a, t') => k a t'
           | (Failed f, t') => (Failed f, t')
           end.

Definition assign (f : Task -> Task) : L unit :=
  fun t => (Returned tt, f t).

(** [data[key]] *)
Definition item {A} (key : string) (v : option A) : L A :=
  match v with
  | Some a => done a
  | None => fail (KeyError key)
  end.

(** [try: body  except KeyError: pass] *)
Definition ignoring_KeyError (body : L unit) : L unit :=
  fun t => match body t with
           | (Failed (KeyError _), t') => (Returned tt, t')
           | other => other
           end.

(** [xor_decrypt_string(c, key)] as an expression of a method. *)
Definition decrypted (c key : str) : L str :=
  match xor_decrypt_string c key with
  | Some p => done p
  | None => fail CodecError
  end.

Declare Scope load_scope.
Delimit Scope load_scope with load.
Notation "x <- c ;; k" := (andthen c (fun x => k))
  (at level 61, c at next level, right associativity) : load_scope.
Notation "c ;;; k" := (andthen c (fun _ => k))
  (at level 61, right associativity) : load_scope.

(** [loadFromJSON] once [json.load] has given the dictionary [d]. *)
Definition load_data (d : Doc) : L bool :=
  (v <- item "name" (j_name d);; assign (set_name v);;;
   v <- item "login" (j_login d);; assign (set_user v);;;
   v <- item "password" (j_password d);; assign (set_password v);;;
   (fun t => (p <- decrypted (password t) (user t);;
              assign (set_password p)) t);;;
   v <- item "devices" (j_devices d);; assign (set_targets v);;;
   v <- item "commands" (j_commands d);; assign (set_commands v);;;
   ignoring_KeyError
     (v <- item "type" (j_type d);; assign (set_deviceType v);;;
      v <- item "outputDir" (j_outputDir d);;
      assign (set_outputDir (Some v));;;
      v <- item "singleFile" (j_singleFile d);; assign (set_singleFile v);;;
      v <- item "logDir" (j_logDir d);; assign (set_logDir (Some v)));;;
   ignoring_KeyError
     (v <- item "superuserPassword" (j_superuserPassword d);;
      assign (set_superuserPassword v);;;
      (fun t => (p <- decrypted (superuserPassword t) (user t);;
                 assign (set_superuserPassword p)) t);;;
      assign (set_superuserNeeded true));;;
   done true)%load.

(** [loadFromJSON(filename)]: [file] is the dictionary the file holds,
    None when the file cannot be opened or is not JSON. *)
Definition loadFromJSON (file : option Doc) : L bool :=
  match file with
  | None => done false
  | Some d => load_data d
  end.

(** Writing a task and loading the file into a new object. *)
Definition reload (t : Task) : outcome bool * Task :=
  match writeToJSON t true with
  | (Returned _, file) => loadFromJSON file blank
  | (Failed f, _) => (Failed f, blank)
  end.

End Files.

Module FileScenarios.

Import Files.
Local Open Scope N_scope.

(** A task on Linux hosts with escalation, with output and log
    directories and one output file for each target.  The user is
    "admin", the passwords "pw" and "root". *)
Definition nightly : Task :=
  mkTask "nightly" "Nightly audit" [97; 100; 109; 105; 110] [112; 119]
         [114; 111; 111; 116] true ["srv1"] ["uptime"]
         (Some "out") (Some "log") false "linux".

(** A dictionary whose keys are all present except "type". *)
Definition untyped_doc : Doc :=
  mkDoc (Some "nightly") (Some "") (Some [97]) (Some []) None None
        (Some ["srv1"]) (Some ["uptime"]) (Some "out") (Some true)
        (Some "log").

(** A dictionary without the key "login". *)
Definition anonymous_doc : Doc :=
  mkDoc (Some "nightly") (Some "") None (Some []) None None
        (Some ["srv1"]) (Some ["uptime"]) None None None.

End FileScenarios.

(* ===================================================================== *)
(** ** Activity.check *)
(* ===================================================================== *)

Module Checks.

Import Devices Activity.

(** [check()]: None when it returns, the message of the ValueError when
    it raises.  [makes dir] tells whether [testMakeDir(dir)] succeeds;
    the directories are tested only when they are set. *)
Definition check (makes : string -> bool) (a : Activity) : option string :=
  if String.eqb (name a) "" then Some "Missing name"
  else if Files.is_set (outputDir a)
          && negb (makes (match outputDir a with Some d => d | None => "" end))
  then Some ("Failed output directory"
             ++ match outputDir a with Some d => d | None => "" end)
  else if Files.is_set (logDir a)
          && negb (makes (match logDir a with Some d => d | None => "" end))
  then Some ("Failed log directory "
             ++ match logDir a with Some d => d | None => "" end)
  else if (length (targets a) =? 0)%nat then Some "No target devices found"
  else if (length (commands a) =? 0)%nat then Some "No commands found"
  else if Files.nonempty (deviceType a)
          && negb (existsb (String.eqb (deviceType a)) listOfDeviceTypes)
  then Some ("Invalid device type " ++ deviceType a)
  else None.

(** A text that [lower()] changes: it holds an upper-case letter. *)
Definition has_upper (s : string) : Prop := Text.lower s <> s.

End Checks.

(* ===================================================================== *)
(** ** taskCreator: a task typed at the console *)
(* ===================================================================== *)

Module Console.

Import Devices Activity.

(** What [fillFromCLI] fills: the activity and its description. *)
Record Form : Type := mkForm {
  activity : Activity;
  description : string
}.


(** The console: the lines that will be typed, in order.  A statement
    gives a value, or None when it raises EOFError, and leaves the lines
    not yet read and the form as filled so far. *)
Definition IO (A : Type) : Type :=
  list string * Form -> option A * (list string * Form).

Definition pure {A} (a : A) : IO A := fun st => (Some a, st).

Definition seq {A B} (c : IO A) (k : A -> IO B) : IO B :=
  fun st => match c st with
            | (Some a, st') => k a st'
            | (None, st') => (None, st')
            end.

Declare Scope io_scope.
Delimit Scope io_scope with io.
Notation "x <- c ;; k" := (seq c (fun x => k))
  (at level 61, c at next level, right associativity) : io_scope.
Notation "c ;;; k" := (seq c (fun _ => k))
  (at level 61, right associativity) : io_scope.

(** [input(prompt)] and [getpass(prompt)]: the next line, without its
    line feed. *)
Definition input : IO string :=
  fun st => match fst st with
            | [] => (None, st)
            | l :: rest => (Some l, (rest, snd st))
            end.




(** [inputYesNo(mesg)] *)
Definition inputYesNo : IO bool :=
  (text <- input;;
   pure (String.eqb (Text.lower text) "y"
         || String.eqb (Text.lower text) "ye"
         || String.eqb (Text.lower text) "yes"))%io.







End Console.

Module ConsoleObs.

Import Devices Activity Console.

(** Started on a form that satisfies [P], the statement [c] ends with a
    value and a form that satisfy [Q], or with EOFError once no line is
    left. *)
Definition holds {A} (P : Form -> Prop) (c : IO A)
    (Q : A -> Form -> Prop) : Prop :=
  forall lines f, P f ->
    match c (lines, f) with
    | (Some a, (_, f')) => Q a f'
    | (None, (rest, _)) => rest = []
    end.



End ConsoleObs.

(* ===================================================================== *)
(** ** Facts about Python text *)
(* ===================================================================== *)

Module TextFacts.

Import Text.

Lemma startswith_iff (p s : string) :
  startswith p s = true <-> exists rest, s = p ++ rest.
Proof.
  revert s. induction p as [|a p IH]; intros s; simpl.
  - split; [intros _; now exists s | reflexivity].
  - destruct s as [|b s]; simpl.
    + split; [discriminate | intros [r Hr]; discriminate].
    + rewrite andb_true_iff, Ascii.eqb_eq, IH. split.
      * intros [-> [r ->]]. now exists r.
      * intros [r Hr]. injection Hr as -> ->. split; [reflexivity | now exists r].
Qed.

Lemma find_lower_bound (s sub : string) : (-1 <= find s sub)%Z.
Proof.
  induction s as [|c s IH]; simpl.
  - destruct (startswith sub ""); lia.
  - destruct (startswith sub (String c s)); [lia|].
    destruct (Z.eqb_spec (find s sub) (-1)); lia.
Qed.

Lemma substring_empty_inv (sub : string) : Substring sub "" -> sub = "".
Proof.
  intros [b [a H]]. destruct b; [|discriminate].
  destruct sub; [reflexivity | discriminate].
Qed.

(** [s.find(sub) != -1] is the literal occurrence of [sub] in [s]. *)
Lemma find_found_iff (s sub : string) :
  find s sub <> (-1)%Z <-> Substring sub s.
Proof.
  induction s as [|c s IH]; simpl.
  - destruct (startswith sub "") eqn:E.
    + split; [|lia]. intros _.
      apply startswith_iff in E. destruct E as [r Hr].
      exists "", r. exact Hr.
    + split; [lia|]. intros H. apply substring_empty_inv in H. subst sub.
      discriminate.
  - destruct (startswith sub (String c s)) eqn:E.
    + split; [|lia]. intros _.
      apply startswith_iff in E. destruct E as [r Hr].
      exists "", r. exact Hr.
    + pose proof (find_lower_bound s sub) as Hlb.
      destruct (Z.eqb_spec (find s sub) (-1)) as [Hm|Hm].
      * split; [lia|]. intros [b [a H]]. exfalso.
        destruct b as [|c' b].
        -- simpl in H. assert (startswith sub (String c s) = true) as E'
             by (apply startswith_iff; now exists a).
           congruence.
        -- simpl in H. injection H as _ H.
           apply (proj2 IH); [now exists b, a | exact Hm].
      * split; [|lia]. intros _.
        destruct (proj1 IH Hm) as [b [a H]].
        exists (String c b), a. simpl. now rewrite H.
Qed.

Lemma find_absent_iff (s sub : string) :
  find s sub = (-1)%Z <-> ~ Substring sub s.
Proof.
  rewrite <- find_found_iff. destruct (Z.eq_dec (find s sub) (-1)); tauto.
Qed.

Lemma append_assoc (a b c : string) : (a ++ b) ++ c = a ++ b ++ c.
Proof. induction a as [|x a IH]; simpl; [reflexivity | now rewrite IH]. Qed.

Lemma append_empty_r (a : string) : a ++ "" = a.
Proof. induction a as [|x a IH]; simpl; [reflexivity | now rewrite IH]. Qed.

(** A chunk that holds the prompt makes any text it is part of hold it. *)
Lemma substring_in_context (sub s before after : string) :
  Substring sub s -> Substring sub (before ++ s ++ after).
Proof.
  intros [b [a ->]]. exists (before ++ b), (a ++ after).
  now rewrite !append_assoc.
Qed.

Lemma substring_prepend (sub s before : string) :
  Substring sub s -> Substring sub (before ++ s).
Proof.
  intros H. rewrite <- (append_empty_r s).
  now apply substring_in_context.
Qed.

(** *** Lower case and case-insensitive matching *)

Lemma nat_of_ascii_inj (c d : ascii) :
  nat_of_ascii c = nat_of_ascii d -> c = d.
Proof.
  intros H. rewrite <- (ascii_nat_embedding c), <- (ascii_nat_embedding d).
  now rewrite H.
Qed.

Lemma lower_char_cases (c : ascii) :
  lower_char c
  = if is_upper c then ascii_of_nat (nat_of_ascii c + 32) else c.
Proof. reflexivity. Qed.

Lemma is_upper_range (c : ascii) :
  is_upper c = true <-> 65 <= nat_of_ascii c <= 90.
Proof.
  unfold is_upper. rewrite andb_true_iff, !Nat.leb_le. tauto.
Qed.

Lemma same_letter_lower (c d : ascii) :
  is_upper d = false ->
  same_letter c d = Ascii.eqb (lower_char c) d.
Proof.
  intros Hd. unfold same_letter. rewrite lower_char_cases, Hd.
  rewrite andb_false_l, orb_false_r.
  pose proof (nat_ascii_bounded c) as Hc.
  destruct (is_upper c) eqn:Hu.
  - apply is_upper_range in Hu.
    assert (Ascii.eqb c d = false) as ->.
    { apply Ascii.eqb_neq. intros ->.
      assert (is_upper d = true) by now apply is_upper_range.
      congruence. }
    rewrite orb_false_l, andb_true_l.
    destruct (Nat.eqb_spec (nat_of_ascii d) (nat_of_ascii c + 32)) as [E|E].
    + symmetry. apply Ascii.eqb_eq. rewrite <- E.
      apply ascii_nat_embedding.
    + symmetry. apply Ascii.eqb_neq. intros E'. apply E. rewrite <- E'.
      rewrite nat_ascii_embedding; lia.
  - now rewrite andb_false_l, orb_false_r.
Qed.

(** Comparing the lower-cased text with a lower-case name is matching
    the name without regard to case. *)
Lemma lower_eqb_caseless (t lit : string) :
  no_upper lit = true ->
  String.eqb (lower t) lit = caseless t lit.
Proof.
  revert lit. induction t as [|c t IH]; intros [|d lit] H; simpl; try reflexivity.
  simpl in H. apply andb_true_iff in H. destruct H as [Hd Hl].
  apply negb_true_iff in Hd.
  rewrite (same_letter_lower c d Hd), (IH lit Hl). reflexivity.
Qed.

End TextFacts.

(* ===================================================================== *)
(** ** createDevice *)
(* ===================================================================== *)

Module CreateDeviceFacts.

Import Text TextFacts Devices.

(** C9.  For every device-type text, [createDevice] returns a device:
    the type is matched without regard to case against "ciscoios",
    "ciscowlc" and "linux" and selects the matching class; every other
    text, the empty one included, gives the generic [Device].  The
    device is bound to the given hostname, with no credentials and no
    channel yet. *)
Theorem createDevice_total_caseless (hostname typeClass : string) :
  createDevice hostname typeClass
    = new_device (class_named typeClass) hostname
  /\ Devices.hostname (createDevice hostname typeClass) = hostname
  /\ (variant (createDevice hostname typeClass) = Generic
      <-> caseless typeClass "ciscoios" = false
          /\ caseless typeClass "ciscowlc" = false
          /\ caseless typeClass "linux" = false)
  /\ variant (createDevice hostname "") = Generic.
Proof.
  assert (createDevice hostname typeClass
          = new_device (class_named typeClass) hostname) as E.
  { unfold createDevice, class_named.
    rewrite !lower_eqb_caseless by reflexivity.
    destruct (caseless typeClass "ciscoios"); [reflexivity|].
    destruct (caseless typeClass "ciscowlc"); [reflexivity|].
    destruct (caseless typeClass "linux"); reflexivity. }
  split; [exact E|]. split; [|split].
  - rewrite E. reflexivity.
  - rewrite E. unfold class_named. simpl.
    destruct (caseless typeClass "ciscoios");
      [split; [discriminate | intros [H _]; discriminate]|].
    destruct (caseless typeClass "ciscowlc");
      [split; [discriminate | intros [_ [H _]]; discriminate]|].
    destruct (caseless typeClass "linux");
      [split; [discriminate | intros [_ [_ H]]; discriminate]|].
    tauto.
  - reflexivity.
Qed.

Example createDevice_mixed_case :
  variant (createDevice "10.0.0.1" "CiscoIOS") = CiscoIOS
  /\ variant (createDevice "10.0.0.1" "LINUX") = Linux
  /\ variant (createDevice "10.0.0.1" "cIsCoWlC") = CiscoWLC
  /\ variant (createDevice "10.0.0.1" "junos") = Generic.
Proof. repeat split. Qed.

End CreateDeviceFacts.

(* ===================================================================== *)
(** ** The credential codec: where it inverts and where it does not *)
(* ===================================================================== *)

Module CodecFacts.

Import Codec.
Local Open Scope N_scope.

Lemma lxor_below_128 (a b : N) : a < 128 -> b < 128 -> N.lxor a b < 128.
Proof.
  intros Ha Hb.
  assert (forall n, n < 128 -> N.log2 n < 7) as Hlog.
  { intros n Hn. destruct (N.eq_dec n 0) as [->|Hz]; [reflexivity|].
    apply N.log2_lt_pow2; [lia | exact Hn]. }
  destruct (N.eq_dec (N.lxor a b) 0) as [->|Hz]; [reflexivity|].
  change 128 with (2 ^ 7). apply N.log2_lt_pow2; [lia|].
  pose proof (N.log2_lxor a b) as H.
  pose proof (Hlog a Ha). pose proof (Hlog b Hb). lia.
Qed.

Lemma lxor_cancel (x y : N) : N.lxor (N.lxor x y) y = x.
Proof. now rewrite N.lxor_assoc, N.lxor_nilpotent, N.lxor_0_r. Qed.

Lemma unhexdigit_hexdigit (n : N) :
  n < 16 -> unhexdigit (hexdigit n) = Some n.
Proof.
  intros H.
  destruct n as [|p]; [reflexivity|].
  do 4 (destruct p as [p|p|]; try reflexivity); lia.
Qed.

Lemma unhexlify_hexlify (b : bytes) :
  Forall (fun x => x < 256) b -> unhexlify (hexlify b) = Some b.
Proof.
  induction 1 as [|x b Hx _ IH]; [reflexivity|].
  cbn [hexlify unhexlify].
  rewrite !unhexdigit_hexdigit, IH.
  - f_equal. f_equal. rewrite (N.div_mod x 16) at 3 by lia. reflexivity.
  - apply N.mod_lt. lia.
  - apply N.Div0.div_lt_upper_bound. lia.
Qed.

Lemma join_chr_ascii (s : str) : ascii_only s -> join_chr s = Some s.
Proof.
  induction 1 as [|c s Hc _ IH]; [reflexivity|].
  cbn [join_chr]. rewrite IH. unfold chr.
  destruct (N.ltb_spec c 1114112); [reflexivity | lia].
Qed.

Lemma encode_utf8_ascii (s : str) : ascii_only s -> encode_utf8 s = Some s.
Proof.
  induction 1 as [|c s Hc _ IH]; [reflexivity|].
  cbn [encode_utf8]. rewrite IH. unfold utf8_char.
  destruct (N.ltb_spec c 128); [reflexivity | lia].
Qed.

Lemma xor_stream_ascii (p key cur : str) :
  ascii_only p -> ascii_only key -> ascii_only cur ->
  ascii_only (map xor_pair (zip_cycle p key cur)).
Proof.
  intros Hp Hk. revert cur.
  induction Hp as [|x p Hx _ IH]; intros cur Hcur; [constructor|].
  cbn [zip_cycle]. destruct Hcur as [|y cur Hy Hcur].
  - destruct Hk as [|y key Hy Hk']; [constructor|].
    cbn [map]. constructor.
    + now apply lxor_below_128.
    + apply IH. exact Hk'.
  - cbn [map]. constructor.
    + now apply lxor_below_128.
    + apply IH. exact Hcur.
Qed.

(** Pairing the scrambled stream with the same cycle of the key gives
    the text back, as long as the cycle is not empty. *)
Lemma xor_stream_involutive (p key cur : str) :
  key <> [] ->
  map xor_pair (zip_cycle (map xor_pair (zip_cycle p key cur)) key cur) = p.
Proof.
  intros Hk. revert cur. induction p as [|x p IH]; intros cur; [reflexivity|].
  cbn [zip_cycle]. destruct cur as [|y cur].
  - destruct key as [|y key'] eqn:E; [congruence|].
    cbn [map zip_cycle]. rewrite IH. unfold xor_pair at 1. cbn [fst snd].
    unfold xor_pair. cbn [fst snd]. now rewrite lxor_cancel.
  - cbn [map zip_cycle]. rewrite IH. unfold xor_pair at 1. cbn [fst snd].
    unfold xor_pair. cbn [fst snd]. now rewrite lxor_cancel.
Qed.

Lemma ascii_only_bytes (s : str) :
  ascii_only s -> Forall (fun x => x < 256) s.
Proof. apply Forall_impl. intros; lia. Qed.

(** Within ASCII the codec does invert: a plaintext and a non-empty key
    whose code points are all below 128 come back unchanged. *)
Lemma roundtrip_ascii (plaintext key : str) :
  ascii_only plaintext -> ascii_only key -> key <> [] ->
  xor_crypt_string plaintext key
    = Some (hexlify (map xor_pair (zip_cycle plaintext key key)))
  /\ roundtrip plaintext key = Some plaintext.
Proof.
  intros Hp Hk Hne.
  pose proof (xor_stream_ascii plaintext key key Hp Hk Hk) as Hs.
  assert (xor_crypt_string plaintext key
          = Some (hexlify (map xor_pair (zip_cycle plaintext key key)))) as E.
  { unfold xor_crypt_string.
    now rewrite (join_chr_ascii _ Hs), (encode_utf8_ascii _ Hs). }
  split; [exact E|].
  unfold roundtrip. rewrite E. unfold xor_decrypt_string.
  rewrite (unhexlify_hexlify _ (ascii_only_bytes _ Hs)).
  rewrite (xor_stream_involutive plaintext key key Hne).
  now apply join_chr_ascii.
Qed.

(** C5.  The codec evaluated at the password [é] (U+00E9) under the key
    [a]: the scrambled code point U+0088 is written as the two UTF-8
    bytes C2 88 (hex "c288"), the decoder pairs each byte with the key,
    and what comes back is the two characters U+00A3 U+00E9, not the
    password. *)
Theorem xor_roundtrip_beyond_ascii :
  xor_crypt_string [233] [97] = Some [99; 50; 56; 56]
  /\ xor_decrypt_string [99; 50; 56; 56] [97] = Some [163; 233]
  /\ roundtrip [233] [97] <> Some [233].
Proof.
  split; [reflexivity|]. split; [reflexivity|].
  vm_compute. discriminate.
Qed.

End CodecFacts.

(* ===================================================================== *)
(** ** Running computations step by step *)
(* ===================================================================== *)

Module MonadFacts.

Section Steps.
Context {S A B : Type}.

Lemma bind_run (c : M S A) (k : A -> M S B) s r s1 :
  c s = (r, s1) ->
  bind c k s = match r with
               | Ret a => k a s1
               | Raise e => (Raise e, s1)
               end.
Proof. intros H. unfold bind. now rewrite H. Qed.

Lemma bind_ret_inv (c : M S A) (k : A -> M S B) s b s' :
  bind c k s = (Ret b, s') ->
  exists a s1, c s = (Ret a, s1) /\ k a s1 = (Ret b, s').
Proof.
  unfold bind. destruct (c s) as [[a|e] s1]; intros H.
  - now exists a, s1.
  - discriminate.
Qed.

Lemma try_run (body handler : M S A) classes s r s1 :
  body s = (r, s1) ->
  try_except body classes handler s
  = match r with
    | Ret a => (Ret a, s1)
    | Raise e => if handles classes e then handler s1 else (Raise e, s1)
    end.
Proof. intros H. unfold try_except. now rewrite H. Qed.
End Steps.

Section Keeps.
Context {S : Type} (R : S -> S -> Prop).
Hypothesis R_refl : forall s, R s s.
Hypothesis R_trans : forall s t u, R s t -> R t u -> R s u.

Lemma keeps_ret {A} (a : A) : keeps R (ret a).
Proof. intros s. apply R_refl. Qed.

Lemma keeps_raise {A} e : keeps R (@raise S A e).
Proof. intros s. apply R_refl. Qed.

Lemma keeps_gets {A} (f : S -> A) : keeps R (gets f).
Proof. intros s. apply R_refl. Qed.

Lemma keeps_bind {A B} (c : M S A) (k : A -> M S B) :
  keeps R c -> (forall a, keeps R (k a)) -> keeps R (bind c k).
Proof.
  intros Hc Hk s. unfold bind. specialize (Hc s).
  destruct (c s) as [[a|e] s1]; cbn [snd] in *.
  - eapply R_trans; [exact Hc | apply Hk].
  - exact Hc.
Qed.

Lemma keeps_try {A} (body handler : M S A) classes :
  keeps R body -> keeps R handler ->
  keeps R (try_except body classes handler).
Proof.
  intros Hb Hh s. unfold try_except. specialize (Hb s).
  destruct (body s) as [[a|e] s1]; cbn [snd] in *; [exact Hb|].
  destruct (handles classes e); [|exact Hb].
  eapply R_trans; [exact Hb | apply Hh].
Qed.

Lemma keeps_if {A} (b : bool) (c1 c2 : M S A) :
  keeps R c1 -> keeps R c2 -> keeps R (if b then c1 else c2).
Proof. now destruct b. Qed.
End Keeps.

End MonadFacts.

(* ===================================================================== *)
(** ** The transport *)
(* ===================================================================== *)

Module TransportFacts.

Import Capture MonadFacts.

(** One drain loop in closed form. *)
Lemma drain_queue_eq {A} (step : A -> string -> A) acc q :
  drain_queue step acc q
  = (drain_stop q, fold_left step (drain_chunks q) acc, after_drain q).
Proof.
  revert acc.
  induction q as [|[t| |e|] q IH]; intros acc; cbn; try reflexivity.
  apply IH.
Qed.

Lemma drain_run {A} (step : A -> string -> A) acc sh :
  drain step acc sh
  = (match drain_stop (rxq sh) with
     | Ret _ => Ret (fold_left step (drain_chunks (rxq sh)) acc)
     | Raise e => Raise e
     end,
     set_rxq (after_drain (rxq sh)) sh).
Proof.
  unfold drain. rewrite drain_queue_eq.
  destruct (drain_stop (rxq sh)) as [[]|e]; reflexivity.
Qed.

Lemma send_run text sh :
  send text sh = (send_outcome text (txq sh), after_send text sh).
Proof.
  unfold send, send_outcome, after_send.
  destruct (txq sh) as [|[n|e] q]; reflexivity.
Qed.

(** The queue consumed by a drain is a prefix of the queue. *)
Lemma after_drain_suffix q :
  exists consumed, q = (consumed ++ after_drain q)%list
                   /\ texts consumed = drain_chunks q
                   /\ (existsb bad_poll consumed = true
                       <-> exists e, drain_stop q = Raise e).
Proof.
  induction q as [|[t| |e|] q IH].
  - exists []. cbn. repeat split; try discriminate.
    intros [e He]; discriminate.
  - destruct IH as [c [H1 [H2 H3]]]. exists (Chunk t :: c). cbn.
    split; [now rewrite <- H1|]. split; [now rewrite H2 | exact H3].
  - exists [Garbled]. cbn. repeat split; eauto.
  - exists [RecvFails e]. cbn. repeat split; eauto.
  - exists [Idle]. cbn. repeat split; try discriminate.
    intros [e He]; discriminate.
Qed.

(** The local [data] after a loop is one chunk; the prompt it holds is
    in the text drained as a whole. *)
Lemma last_chunk_in_text (sub init : string) (chunks : list string) :
  Text.Substring sub (fold_left (fun _ t => id t) chunks init) ->
  Text.Substring sub (init ++ Text.join chunks).
Proof.
  revert init. induction chunks as [|t chunks IH]; intros init; cbn.
  - now rewrite TextFacts.append_empty_r.
  - intros H. apply TextFacts.substring_prepend. now apply IH.
Qed.

End TransportFacts.

(* ===================================================================== *)
(** ** The vendor dialogues *)
(* ===================================================================== *)

Module DeviceFacts.

Import Text TextFacts Capture MonadFacts TransportFacts Devices Scenarios.

(** Symbolic execution of a dialogue: put the next transport primitive
    in closed form, normalise the session, and dismiss the branches in
    which an exception ended the dialogue. *)
Ltac prim :=
  match goal with
  | |- context [drain ?f ?a ?sh] => rewrite (drain_run f a sh)
  | |- context [send ?t ?sh] => rewrite (send_run t sh)
  end.

Ltac norm :=
  unfold set_shell, set_rxq, after_send;
  cbn -[handles find String.append send_outcome].

Ltac escape :=
  match goal with
  | |- context [handles ?l ?e] => destruct (handles l e); discriminate
  end.

Ltac dialogue :=
  unfold try_except, bind, on_shell, zoom, drain_discard, drain_last,
    sleep, ret, raise, gets;
  cbn [RemoteShell username password].

Lemma send_outcome_ret text q n :
  send_outcome text q = Ret n -> send_raises q = false.
Proof. destruct q as [|[m|e] q]; cbn; congruence. Qed.

Lemma send_raises_false text q :
  send_raises q = false -> exists n, send_outcome text q = Ret n.
Proof. destruct q as [|[m|e] q]; cbn; eauto; discriminate. Qed.

(** C6.  On a Cisco IOS session, [superuser] returns true only if the
    text drained after "enable" was sent holds "Password:" and the text
    drained after the password was then sent holds "#"; and when
    "Password:" is absent from the first of these texts, it returns
    false and "enable" is all that was sent: the password is not. *)
Theorem ios_superuser_prompts (d : Device) (pass : string) :
  variant d = CiscoIOS ->
  (forall d', superuser pass d = (Ret true, d') ->
     exists t1 t2,
       command_reply (RemoteShell d) = Some t1
       /\ Substring "Password:" t1
       /\ password_reply (RemoteShell d) = Some t2
       /\ Substring "#" t2
       /\ sent (RemoteShell d')
          = app (sent (RemoteShell d)) ["enable " ++ nl; pass ++ nl])
  /\ (forall t1,
        command_reply (RemoteShell d) = Some t1 ->
        ~ Substring "Password:" t1 ->
        exists d', superuser pass d = (Ret false, d')
          /\ sent (RemoteShell d')
             = app (sent (RemoteShell d)) ["enable " ++ nl]).
Proof.
  destruct d as [v h u p [q t cf ccf sn cc ccc]]. cbn [variant RemoteShell].
  intros ->. unfold superuser. cbn [variant].
  unfold DeviceCiscoIOS_superuser. split.
  - intros d'. dialogue.
    prim. norm.
    destruct (drain_stop q) as [[]|e0] eqn:E0; [|escape].
    prim. norm.
    destruct (send_outcome _ t) as [n1|e1] eqn:E1; [|escape].
    prim. norm.
    destruct (drain_stop (after_drain q)) as [[]|e2] eqn:E2; [|escape].
    destruct (Z.eqb_spec
                (find (fold_left (fun _ t0 : string => id t0)
                         (drain_chunks (after_drain q)) "") "Password:")
                (-1)) as [F1|F1]; norm; [discriminate|].
    prim. norm.
    destruct (send_outcome _ (tl t)) as [n3|e3] eqn:E3; [|escape].
    prim. norm.
    destruct (drain_stop (after_drain (after_drain q))) as [[]|e4] eqn:E4;
      [|escape].
    destruct (Z.eqb_spec
                (find (fold_left (fun _ t0 : string => id t0)
                         (drain_chunks (after_drain (after_drain q))) "")
                      "#")
                (-1)) as [F2|F2]; norm; [discriminate|].
    intros H. injection H as <-.
    apply find_found_iff, (last_chunk_in_text _ "") in F1.
    apply find_found_iff, (last_chunk_in_text _ "") in F2.
    exists (join (drain_chunks (after_drain q))),
           (join (drain_chunks (after_drain (after_drain q)))).
    unfold password_reply, command_reply, drained_text.
    cbn [rxq txq sent RemoteShell].
    rewrite E0, E2, E4, (send_outcome_ret _ _ _ E1),
      (send_outcome_ret _ _ _ E3).
    repeat split; try assumption.
    now rewrite <- app_assoc.
  - intros t1. unfold command_reply, drained_text.
    cbn [rxq txq sent RemoteShell].
    destruct (drain_stop q) as [[]|e0] eqn:E0; [|discriminate].
    destruct (send_raises t) eqn:E1; [discriminate|].
    destruct (drain_stop (after_drain q)) as [[]|e2] eqn:E2; [|discriminate].
    intros H Habs. injection H as <-.
    destruct (send_raises_false ("enable " ++ nl) t E1) as [n1 E1'].
    dialogue.
    prim. norm. rewrite E0.
    prim. norm. rewrite E1'.
    prim. norm. rewrite E2.
    destruct (Z.eqb_spec
                (find (fold_left (fun _ t0 : string => id t0)
                         (drain_chunks (after_drain q)) "") "Password:")
                (-1)) as [F1|F1]; norm.
    + eexists. split; reflexivity.
    + exfalso. apply Habs.
      now apply find_found_iff, (last_chunk_in_text _ "") in F1.
Qed.

Lemma ios_superuser_prompts_witness :
  variant ios_session = CiscoIOS
  /\ exists t1 t2,
       command_reply (RemoteShell ios_session) = Some t1
       /\ Substring "Password:" t1
       /\ password_reply (RemoteShell ios_session) = Some t2
       /\ Substring "#" t2.
Proof.
  split; [reflexivity|].
  destruct (proj1 (ios_superuser_prompts ios_session "secret" eq_refl)
              _ eq_refl) as [t1 [t2 [H1 [H2 [H3 [H4 _]]]]]].
  exists t1, t2. repeat split; assumption.
Defined.

(** *** The second login of the wireless controller *)

Lemma last_chunk_some (chunks : list string) (c : string) :
  fold_left (fun (_ : option string) t => Some t) chunks (Some c)
  = Some (fold_left (fun _ t => id t) chunks c).
Proof.
  revert c. induction chunks as [|t chunks IH]; intros c; cbn;
    [reflexivity | apply IH].
Qed.

(** When at least one chunk arrives after the password and the drained
    text lacks ">", the login returns False. *)
Lemma wlc_login_without_prompt (d : Device) (t : string) :
  variant d = CiscoWLC ->
  credentials_reply (RemoteShell d) = Some t ->
  ~ Substring ">" t ->
  drain_chunks (after_drain (rxq (RemoteShell d))) <> [] ->
  exists d', login d = (Ret false, d').
Proof.
  destruct d as [v h u p [q tq cf ccf sn cc ccc]]. cbn [variant RemoteShell].
  intros ->. unfold credentials_reply, drained_text. cbn [rxq txq].
  destruct (send_raises tq) eqn:E1; [discriminate|].
  destruct (drain_stop q) as [[]|e0] eqn:E0; [|discriminate].
  destruct (send_raises (tl tq)) eqn:E2; [discriminate|].
  destruct (drain_stop (after_drain q)) as [[]|e2] eqn:E3; [|discriminate].
  intros H Habs Hne. injection H as <-.
  destruct (send_raises_false (u ++ nl) tq E1) as [n1 E1'].
  destruct (send_raises_false (p ++ nl) (tl tq) E2) as [n2 E2'].
  unfold login. cbn [variant]. unfold DeviceCiscoWLC_login. dialogue.
  prim. norm. rewrite E1'.
  prim. norm. rewrite E0.
  prim. norm. rewrite E2'.
  prim. norm. rewrite E3.
  destruct (drain_chunks (after_drain q)) as [|c chunks] eqn:Ec;
    [congruence|].
  cbn [fold_left]. rewrite last_chunk_some.
  destruct (Z.eqb_spec (find (fold_left (fun _ t0 : string => id t0) chunks c)
                             ">") (-1)) as [F|F]; norm.
  - eexists. reflexivity.
  - exfalso. apply Habs. apply find_found_iff in F.
    apply (last_chunk_in_text _ c chunks) in F. exact F.
Qed.

(** *** Logout *)

Lemma no_close_refl d : no_close_between d d.
Proof. split; reflexivity. Qed.

Lemma no_close_trans d1 d2 d3 :
  no_close_between d1 d2 -> no_close_between d2 d3 ->
  no_close_between d1 d3.
Proof. unfold no_close_between. intros [A B] [C D]. split; congruence. Qed.

Lemma no_close_send text : keeps no_close_between (on_shell (send text)).
Proof.
  intros d. unfold on_shell, zoom. rewrite send_run. split; reflexivity.
Qed.

Lemma no_close_drain {A} (step : A -> string -> A) acc :
  keeps no_close_between (on_shell (drain step acc)).
Proof.
  intros d. unfold on_shell, zoom. rewrite drain_run. split; reflexivity.
Qed.

Lemma no_close_sleep n : keeps no_close_between (on_shell (sleep n)).
Proof. intros d. split; reflexivity. Qed.

Ltac frame refl trans :=
  repeat first
    [ apply (keeps_bind _ trans); [|intros ?]
    | apply (keeps_ret _ refl)
    | apply (keeps_if _)
    | apply no_close_send | apply no_close_drain | apply no_close_sleep ].

(** The dialogue before closing only sends and drains. *)
Lemma farewell_no_close : keeps no_close_between farewell.
Proof.
  intros d. unfold farewell. destruct (variant d).
  - apply no_close_refl.
  - revert d. change (keeps no_close_between DeviceCiscoIOS_farewell).
    unfold DeviceCiscoIOS_farewell, drain_discard.
    frame no_close_refl no_close_trans.
  - revert d. change (keeps no_close_between DeviceCiscoWLC_farewell).
    unfold DeviceCiscoWLC_farewell, drain_last.
    frame no_close_refl no_close_trans.
  - revert d. change (keeps no_close_between DeviceLinux_farewell).
    unfold DeviceLinux_farewell.
    frame no_close_refl no_close_trans.
Qed.

(** [logout] is the dialogue, then the closes, under one handler. *)
Lemma logout_after_farewell (d : Device) :
  variant d <> Generic ->
  logout d
  = try_except (farewell;;; Device_logout;;; ret (Some true))%py
      [SSHException; OSError] (ret (Some false)) d.
Proof.
  unfold logout, farewell, try_except, bind.
  destruct (variant d); [congruence | reflexivity..].
Qed.

(** C4, as the code has it.  For every device variant, if an
    SSHException or a socket error is raised during the dialogue that
    precedes the closing, [logout] catches it and returns False, in the
    very state in which the exception was raised: neither close
    operation is invoked on the session. *)
Theorem logout_fault_skips_close (d : Device) (e : exn) (d1 : Device) :
  farewell d = (Raise e, d1) ->
  handles [SSHException; OSError] e = true ->
  logout d = (Ret (Some false), d1) /\ no_close_between d d1.
Proof.
  intros Hf He.
  assert (variant d <> Generic) as Hv.
  { intros Hg. unfold farewell in Hf. rewrite Hg in Hf. discriminate. }
  split.
  - rewrite (logout_after_farewell d Hv).
    erewrite try_run by (erewrite bind_run by exact Hf; reflexivity).
    cbv beta iota. now rewrite He.
  - pose proof (farewell_no_close d) as H. now rewrite Hf in H.
Qed.

Lemma logout_fault_skips_close_witness :
  farewell ios_hung_up = (Raise OSError, snd (farewell ios_hung_up))
  /\ handles [SSHException; OSError] OSError = true
  /\ logout ios_hung_up
     = (Ret (Some false), snd (farewell ios_hung_up))
  /\ no_close_between ios_hung_up (snd (farewell ios_hung_up)).
Proof.
  split; [reflexivity|]. split; [reflexivity|].
  apply (logout_fault_skips_close ios_hung_up OSError); reflexivity.
Defined.

(** C4, as claimed, fails on a router that has hung up: the dialogue
    raises at its first send, [logout] returns False, and the close of
    the channel was never invoked. *)
Lemma logout_fault_no_close_counterexample :
  ~ closes_despite_fault ios_hung_up.
Proof.
  intros H.
  destruct (H OSError (snd (farewell ios_hung_up)) eq_refl)
    as [d' [Hl Hc]].
  vm_compute in Hl. injection Hl as <-. vm_compute in Hc. lia.
Qed.

End DeviceFacts.

(* ===================================================================== *)
(** ** The command runner *)
(* ===================================================================== *)

Module RunFacts.

Import Text TextFacts Capture MonadFacts TransportFacts Devices.

Lemma texts_app (a b : list poll) :
  texts (a ++ b) = (texts a ++ texts b)%list.
Proof.
  induction a as [|[t| |e|] a IH]; cbn; try assumption; [reflexivity|].
  now rewrite IH.
Qed.

Lemma failure_met_app cp1 cs1 cp2 cs2 :
  failure_met cp1 cs1 = false ->
  failure_met (cp1 ++ cp2) (cs1 ++ cs2) = failure_met cp2 cs2.
Proof.
  unfold failure_met. rewrite !existsb_app. intros H.
  apply orb_false_iff in H. destruct H as [-> ->]. reflexivity.
Qed.

Lemma consumed_trans sh1 sh2 sh3 cp1 cs1 cp2 cs2 :
  consumed sh1 sh2 cp1 cs1 -> consumed sh2 sh3 cp2 cs2 ->
  consumed sh1 sh3 (cp1 ++ cp2) (cs1 ++ cs2).
Proof.
  intros [A B] [C D]. split.
  - rewrite A, C. apply app_assoc.
  - rewrite B, D. apply app_assoc.
Qed.

(** What is typed is never empty: it ends with a line feed. *)
Lemma typed_length (cmd : string) : String.length (cmd ++ nl) <> 0.
Proof. induction cmd as [|c cmd IH]; cbn; [discriminate | lia]. Qed.

(** The exceptions of the transport are among those [run] handles. *)
Lemma run_handles_transport (e : neterr) :
  handles [SSHException; OSError; UnicodeDecodeError] (exn_of e) = true.
Proof. destruct e; reflexivity. Qed.

(** *** Writes that land and writes that raise *)

Lemma refusal_nil (ts : list string) : refusal ts [] = None.
Proof. now destruct ts. Qed.

Lemma refusal_in (ts : list string) (q : list wres) f :
  refusal ts q = Some f -> In (WriteFails f) q.
Proof.
  revert q. induction ts as [|t ts IH]; intros q H; [discriminate H|].
  cbn [refusal] in H. destruct q as [|[|g] q]; [discriminate H| |].
  - right. now apply IH.
  - left. now injection H as ->.
Qed.

Lemma landed_app (ts1 ts2 : list string) (q : list wres) :
  refusal ts1 q = None ->
  landed (ts1 ++ ts2) q = (ts1 ++ landed ts2 (skipn (length ts1) q))%list
  /\ refusal (ts1 ++ ts2) q = refusal ts2 (skipn (length ts1) q).
Proof.
  revert q. induction ts1 as [|t ts1 IH]; intros q H.
  - split; reflexivity.
  - cbn [app landed refusal length] in *. destruct q as [|[|f] q].
    + destruct (IH [] (refusal_nil ts1)) as [L _].
      rewrite skipn_nil in L. cbn [skipn]. rewrite L.
      split; [reflexivity | now rewrite refusal_nil].
    + destruct (IH q H) as [L R]. cbn [skipn]. now rewrite L, R.
    + discriminate H.
Qed.

Lemma landed_all (ts : list string) (q : list wres) :
  refusal ts q = None -> landed ts q = ts.
Proof.
  intros H. destruct (landed_app ts [] q H) as [L _].
  rewrite app_nil_r in L. rewrite L. cbn. now rewrite app_nil_r.
Qed.

Lemma landed_refused (ts1 ts2 : list string) (q : list wres) f :
  refusal ts1 q = Some f ->
  landed (ts1 ++ ts2) q = landed ts1 q
  /\ refusal (ts1 ++ ts2) q = Some f.
Proof.
  revert q. induction ts1 as [|t ts1 IH]; intros q H; [discriminate H|].
  cbn [app landed refusal] in *. destruct q as [|[|g] q].
  - discriminate H.
  - destruct (IH q H) as [L R]. now rewrite L, R.
  - split; [reflexivity | exact H].
Qed.

Lemma accepting_skipn (n : nat) (q : list wres) :
  accepting q = true -> accepting (skipn n q) = true.
Proof.
  revert q. induction n as [|n IH]; intros q H; [exact H|].
  destruct q as [|r q]; [reflexivity|]. cbn [skipn].
  apply IH. cbn in H. now apply andb_true_iff in H.
Qed.

(** A sink that accepts whatever is written refuses nothing. *)
Lemma accepting_refusal (ts : list string) (q : list wres) :
  accepting q = true -> refusal ts q = None /\ landed ts q = ts.
Proof.
  intros H. assert (refusal ts q = None) as R.
  { revert q H. induction ts as [|t ts IH]; intros q H; [reflexivity|].
    cbn [refusal]. destruct q as [|[|f] q]; [reflexivity| |discriminate H].
    apply IH. exact H. }
  split; [exact R | now apply landed_all].
Qed.

(** One write in closed form. *)
Lemma write_run (t : string) (f : File) :
  write t f
  = (match refusal [t] (wq f) with
     | Some e => Raise (exn_of_sink e)
     | None => Ret tt
     end,
     mkFile (skipn 1 (wq f)) (written f ++ landed [t] (wq f))%list).
Proof.
  unfold write. destruct (wq f) as [|[|e] q]; cbn;
    rewrite ?app_nil_r; reflexivity.
Qed.

(** *** The drain loop of [run] *)

Lemma drain_write_trace (q : list poll) :
  forall out, exists cp rest,
    q = (cp ++ snd (drain_write q out))%list
    /\ drain_chunks q = (texts cp ++ rest)%list
    /\ (refusal (texts cp) (wq out) = None -> rest = [])
    /\ wq (snd (fst (drain_write q out)))
       = skipn (length (texts cp)) (wq out)
    /\ written (snd (fst (drain_write q out)))
       = (written out ++ landed (texts cp) (wq out))%list
    /\ ends cp [] (wq out) (fst (fst (drain_write q out))).
Proof.
  induction q as [|[t| |e|] q IH]; intros out.
  - exists [], []. cbn. rewrite app_nil_r. repeat split.
  - cbn [drain_write]. rewrite write_run.
    destruct (refusal [t] (wq out)) as [f|] eqn:R.
    + exists [Chunk t], (drain_chunks q). cbn [fst snd texts length app].
      split; [reflexivity|]. split; [reflexivity|].
      split; [intros H; rewrite H in R; discriminate R|].
      split; [reflexivity|]. split; [reflexivity|].
      unfold ends. cbn [texts]. rewrite R. split; reflexivity.
    + destruct (IH (mkFile (skipn 1 (wq out))
                      (written out ++ landed [t] (wq out))%list))
        as [cp [rest [Hq [Hc [Hr [Hw [Hl He]]]]]]].
      cbn [wq written] in *.
      exists (Chunk t :: cp), rest. cbn [texts length app drain_chunks].
      destruct (landed_app [t] (texts cp) (wq out) R) as [L1 R1].
      cbn [app length] in L1, R1.
      split; [now rewrite <- Hq|]. split; [now rewrite Hc|].
      split; [rewrite R1; exact Hr|].
      split; [rewrite Hw, skipn_skipn; f_equal; lia|].
      split.
      * rewrite Hl, L1. rewrite (landed_all [t] _ R).
        now rewrite <- app_assoc.
      * unfold ends in *. cbn [texts]. rewrite R1. exact He.
  - exists [Garbled], []. cbn. rewrite app_nil_r.
    repeat split; reflexivity.
  - exists [RecvFails e], []. cbn. rewrite app_nil_r.
    repeat split; try reflexivity. apply run_handles_transport.
  - exists [Idle], []. cbn. rewrite app_nil_r. repeat split.
Qed.

(** One drain loop of [run]: only the queue of polls of the session and
    the file change. *)
Lemma drain_to_outfile_run (d : Device) (out : File) :
  drain_to_outfile (d, out)
  = (fst (fst (drain_write (rxq (RemoteShell d)) out)),
     (set_shell (set_rxq (snd (drain_write (rxq (RemoteShell d)) out))
                         (RemoteShell d)) d,
      snd (fst (drain_write (rxq (RemoteShell d)) out)))).
Proof.
  unfold drain_to_outfile.
  destruct (drain_write (rxq (RemoteShell d)) out) as [[r o] q].
  reflexivity.
Qed.

Lemma trace_drain (d : Device) (out : File) :
  exists r d' out' cp rest,
    drain_to_outfile (d, out) = (r, (d', out'))
    /\ consumed (RemoteShell d) (RemoteShell d') cp []
    /\ wq out' = skipn (length (texts cp)) (wq out)
    /\ written out' = (written out ++ landed (texts cp) (wq out))%list
    /\ same_object d d'
    /\ ends cp [] (wq out) r
    /\ drain_chunks (rxq (RemoteShell d)) = (texts cp ++ rest)%list
    /\ (refusal (texts cp) (wq out) = None -> rest = [])
    /\ sent (RemoteShell d') = sent (RemoteShell d).
Proof.
  rewrite drain_to_outfile_run.
  destruct (drain_write_trace (rxq (RemoteShell d)) out)
    as [cp [rest [Hq [Hc [Hr [Hw [Hl He]]]]]]].
  eexists. eexists. eexists. exists cp, rest. split; [reflexivity|].
  destruct d as [v h u p [q t cf ccf sn cc ccc]];
    cbn [RemoteShell rxq txq sent set_shell set_rxq] in *.
  split; [split; [exact Hq | reflexivity]|].
  split; [exact Hw|]. split; [exact Hl|].
  split; [split; reflexivity|]. split; [exact He|].
  split; [exact Hc|]. split; [exact Hr | reflexivity].
Qed.

Lemma ends_accepted cp cs q :
  ends cp cs q (Ret tt) -> refusal (texts cp) q = None.
Proof.
  unfold ends. destruct (refusal _ _); [|reflexivity].
  intros [H _]. discriminate H.
Qed.

Lemma ends_trans cp1 cs1 cp2 cs2 q r :
  ends cp1 cs1 q (Ret tt) ->
  ends cp2 cs2 (skipn (length (texts cp1)) q) r ->
  ends (cp1 ++ cp2) (cs1 ++ cs2) q r.
Proof.
  unfold ends. intros E1 E2.
  destruct (refusal (texts cp1) q) as [f|] eqn:R1;
    [destruct E1 as [E1 _]; discriminate E1|].
  rewrite texts_app.
  destruct (landed_app (texts cp1) (texts cp2) q R1) as [_ R].
  rewrite R, (failure_met_app _ _ _ _ E1). exact E2.
Qed.

Lemma trace_trans d1 out1 d2 out2 r d3 out3 :
  trace d1 out1 (Ret tt) d2 out2 -> trace d2 out2 r d3 out3 ->
  trace d1 out1 r d3 out3.
Proof.
  intros [cp1 [cs1 [C1 [W1 [O1 [[H1 V1] F1]]]]]]
         [cp2 [cs2 [C2 [W2 [O2 [[H2 V2] F2]]]]]].
  exists (cp1 ++ cp2)%list, (cs1 ++ cs2)%list.
  assert (refusal (texts cp1) (wq out1) = None) as R1.
  { unfold ends in F1. destruct (refusal _ _); [|reflexivity].
    destruct F1 as [F1 _]. discriminate F1. }
  destruct (landed_app (texts cp1) (texts cp2) (wq out1) R1) as [L _].
  split; [exact (consumed_trans _ _ _ _ _ _ _ C1 C2)|].
  split; [rewrite W2, W1, skipn_skipn, texts_app, length_app;
          f_equal; lia|].
  split; [rewrite O2, O1, W1, texts_app, L, (landed_all _ _ R1);
          now rewrite <- app_assoc|].
  split; [split; congruence|].
  rewrite W1 in F2. exact (ends_trans _ _ _ _ _ _ F1 F2).
Qed.

Lemma trace_send (d : Device) (out : File) (text : string) :
  String.length text <> 0 ->
  let r := send_outcome text (txq (RemoteShell d)) in
  let d1 := set_shell (after_send text (RemoteShell d)) d in
  trace d out
    (match r with
     | Ret 0 => Raise OSError
     | Ret (S _) => Ret tt
     | Raise e => Raise e
     end) d1 out.
Proof.
  intros Hl r d1. subst r d1.
  destruct d as [v h u p [q t cf ccf sn cc ccc]].
  cbn [RemoteShell set_shell after_send txq].
  assert (forall cs1 r,
            t = (cs1 ++ tl t)%list ->
            match r with
            | Ret _ => existsb bad_send cs1 = false
            | Raise e =>
                existsb bad_send cs1 = true
                /\ handles [SSHException; OSError; UnicodeDecodeError] e
                   = true
            end ->
            trace (mkDevice v h u p (mkShell q t cf ccf sn cc ccc)) out r
              (mkDevice v h u p
                 (mkShell q (tl t) cf ccf (sn ++ [text]) cc ccc)) out)
    as Hsend.
  { intros cs1 r Hcs Hr. exists [], cs1. cbn.
    split; [split; [reflexivity | exact Hcs]|].
    split; [reflexivity|]. split; [now rewrite app_nil_r|].
    split; [split; reflexivity|]. unfold ends. cbn. exact Hr. }
  destruct t as [|[[|n]|e] tq]; cbn [send_outcome tl].
  - destruct (String.length text) eqn:E; [contradiction|].
    apply (Hsend []); reflexivity.
  - apply (Hsend [Accepts 0]); [reflexivity | split; reflexivity].
  - apply (Hsend [Accepts (S n)]); reflexivity.
  - apply (Hsend [SendFails e]); [reflexivity|].
    split; [reflexivity | apply run_handles_transport].
Qed.

(** [for cmd in commands] always ends, and ends as its trace says. *)
Lemma run_commands_trace (cmds : list string) :
  forall d out, exists r d' out',
    run_commands cmds (d, out) = (r, (d', out'))
    /\ trace d out r d' out'.
Proof.
  induction cmds as [|cmd rest IH]; intros d out.
  - exists (Ret tt), d, out. split; [reflexivity|].
    exists [], []. cbn. rewrite app_nil_r. repeat split.
  - cbn [run_commands]. unfold bind at 1.
    unfold on_self, on_shell, zoom. cbn [fst snd]. rewrite send_run.
    pose proof (trace_send d out (cmd ++ nl) (typed_length cmd)) as T1.
    cbv zeta in T1.
    set (d1 := set_shell (after_send (cmd ++ nl) (RemoteShell d)) d) in *.
    destruct (send_outcome (cmd ++ nl) (txq (RemoteShell d)))
      as [[|n]|e].
    + cbn. exists (Raise OSError), d1, out. split; [reflexivity | exact T1].
    + cbn [Nat.eqb]. unfold bind at 1. cbn [ret]. unfold bind at 1.
      unfold sleep, ret. cbn [fst snd].
      change (set_shell (RemoteShell d1) d1) with d1.
      unfold bind at 1.
      destruct (trace_drain d1 out)
        as [r2 [d2 [out2 [cp2 [rs [E2 [C2 [W2 [O2 [S2 [F2 _]]]]]]]]]]].
      assert (trace d1 out r2 d2 out2) as T2.
      { exists cp2, []. repeat split; try assumption; apply C2 || apply S2. }
      rewrite E2. destruct r2 as [[]|e2].
      * destruct (IH d2 out2) as [r [d3 [out3 [E3 T3]]]].
        exists r, d3, out3. split; [exact E3|].
        eapply trace_trans; [eapply trace_trans; eassumption | exact T3].
      * exists (Raise e2), d2, out2. split; [reflexivity|].
        eapply trace_trans; eassumption.
    + exists (Raise e), d1, out. split; [reflexivity | exact T1].
Qed.

(** How [run] turns the end of its body into what it returns. *)
Lemma run_result_of cp cs q (r : result unit) (st : Device * File) :
  ends cp cs q r ->
  match r with
  | Ret _ => (Ret true, st)
  | Raise e =>
      if handles [SSHException; OSError; UnicodeDecodeError] e
      then ret false st else (Raise e, st)
  end = (run_result cp cs q, st).
Proof.
  unfold ends, run_result. intros En.
  destruct (refusal (texts cp) q) as [[]|].
  - destruct En as [-> _]. reflexivity.
  - destruct En as [-> _]. reflexivity.
  - destruct r as [[]|e].
    + now rewrite En.
    + destruct En as [-> ->]. reflexivity.
Qed.

(** [run] in closed form.  It ends as [run_result] says: with the
    UnicodeEncodeError of a write, with False when a write raised
    OSError or when, among what it consumed, a send accepted no byte or
    raised, a chunk did not decode or a [recv] raised, and with True
    otherwise.  Every chunk it decoded was handed to [write], in order,
    the text pending before the first command first; what landed in the
    file stays there. *)
Lemma run_shape (cmds : list string) (d : Device) (out : File) :
  exists d' out' cp cs later,
    Devices.run cmds (d, out) = (run_result cp cs (wq out), (d', out'))
    /\ consumed (RemoteShell d) (RemoteShell d') cp cs
    /\ wq out' = skipn (length (texts cp)) (wq out)
    /\ written out' = (written out ++ landed (texts cp) (wq out))%list
    /\ landed (texts cp) (wq out)
       = landed (drain_chunks (rxq (RemoteShell d)) ++ later) (wq out)
    /\ (refusal (texts cp) (wq out) = None ->
        texts cp = (drain_chunks (rxq (RemoteShell d)) ++ later)%list)
    /\ same_object d d'.
Proof.
  unfold Devices.run, try_except. unfold bind at 1.
  destruct (trace_drain d out)
    as [r1 [d1 [out1 [cp1 [rs [E1 [C1 [W1 [O1 [S1 [F1 [Hc [Hrs _]]]]]]]]]]]]].
  rewrite E1. destruct r1 as [[]|e1].
  - pose proof (ends_accepted _ _ _ F1) as R1.
    rewrite (Hrs R1), app_nil_r in Hc.
    unfold bind at 1.
    destruct (run_commands_trace cmds d1 out1)
      as [r [d2 [out2 [E2 [cp2 [cs2 [C2 [W2 [O2 [S2 F2]]]]]]]]]].
    rewrite E2.
    destruct (landed_app (texts cp1) (texts cp2) (wq out) R1) as [L _].
    assert (ends (cp1 ++ cp2) ([] ++ cs2) (wq out) r) as F.
    { rewrite W1 in F2. exact (ends_trans _ _ _ _ _ _ F1 F2). }
    cbn [app] in F.
    exists d2, out2, (cp1 ++ cp2)%list, cs2, (texts cp2).
    split.
    { rewrite <- (run_result_of _ _ _ r (d2, out2) F).
      destruct r as [[]|e2]; reflexivity. }
    split; [exact (consumed_trans _ _ _ _ _ _ _ C1 C2)|].
    split; [rewrite W2, W1, skipn_skipn, texts_app, length_app;
            f_equal; lia|].
    split; [rewrite O2, O1, W1, texts_app, L, (landed_all _ _ R1);
            now rewrite <- app_assoc|].
    rewrite texts_app, Hc.
    split; [reflexivity|]. split; [reflexivity|].
    destruct S1, S2. split; congruence.
  - exists d1, out1, cp1, [], [].
    split; [exact (run_result_of _ _ _ (Raise e1) (d1, out1) F1)|].
    split; [exact C1|]. split; [exact W1|]. split; [exact O1|].
    rewrite app_nil_r, Hc. split; [|split; [|exact S1]].
    + destruct (refusal (texts cp1) (wq out)) as [f|] eqn:R.
      * symmetry. exact (proj1 (landed_refused _ rs _ _ R)).
      * now rewrite (Hrs eq_refl), app_nil_r.
    + intros R. now rewrite (Hrs R), app_nil_r.
Qed.

(** On a file that accepts whatever is written, [run] returns a
    boolean, False exactly when a send or a poll failed, and the file
    holds what it held followed by every chunk decoded. *)
Lemma run_shape_accepting (cmds : list string) (d : Device) (out : File) :
  accepting (wq out) = true ->
  exists b d' out' cp cs later,
    Devices.run cmds (d, out) = (Ret b, (d', out'))
    /\ consumed (RemoteShell d) (RemoteShell d') cp cs
    /\ (b = false <-> failure_met cp cs = true)
    /\ written out' = (written out ++ texts cp)%list
    /\ texts cp = (drain_chunks (rxq (RemoteShell d)) ++ later)%list
    /\ same_object d d'
    /\ accepting (wq out') = true.
Proof.
  intros A.
  destruct (run_shape cmds d out)
    as [d' [out' [cp [cs [later [E [C [W [O [_ [L S]]]]]]]]]]].
  destruct (accepting_refusal (texts cp) _ A) as [R La].
  unfold run_result in E. rewrite R in E. rewrite La in O.
  exists (negb (failure_met cp cs)), d', out', cp, cs, later.
  split; [exact E|]. split; [exact C|].
  split; [destruct (failure_met cp cs); cbn; split; congruence|].
  split; [exact O|]. split; [exact (L R)|]. split; [exact S|].
  rewrite W. now apply accepting_skipn.
Qed.

(** The only exception that leaves [run] is the UnicodeEncodeError of a
    write of the file. *)
Lemma run_raises_encode (cmds : list string) (d : Device) (out : File)
    e st' :
  Devices.run cmds (d, out) = (Raise e, st') ->
  e = UnicodeEncodeError /\ In (WriteFails EncodeFault) (wq out).
Proof.
  intros H.
  destruct (run_shape cmds d out) as [d1 [o1 [cp [cs [l [E _]]]]]].
  rewrite E in H. unfold run_result in H.
  destruct (refusal (texts cp) (wq out)) as [[|]|] eqn:R;
    [|discriminate H|discriminate H].
  split; [now injection H as <- | exact (refusal_in _ _ _ R)].
Qed.

End RunFacts.

Module EngineFacts.

Import Text TextFacts Capture MonadFacts TransportFacts Devices RunFacts.
Import Activity Scenarios.

(** *** The device object stays the same object through its methods *)

Lemma same_object_refl d : same_object d d.
Proof. split; reflexivity. Qed.

Lemma same_object_trans d1 d2 d3 :
  same_object d1 d2 -> same_object d2 d3 -> same_object d1 d3.
Proof. unfold same_object. intros [A B] [C D]. split; congruence. Qed.

Lemma same_object_on_shell {A} (c : M Shell A) :
  keeps same_object (on_shell c).
Proof.
  intros d. unfold on_shell, zoom. destruct (c (RemoteShell d)).
  split; reflexivity.
Qed.

Ltac same_object_tac :=
  repeat match goal with
    | |- keeps _ (on_shell _) => apply same_object_on_shell
    | |- keeps _ (ret _) => apply (keeps_ret _ same_object_refl)
    | |- keeps _ (raise _) => apply (keeps_raise _ same_object_refl)
    | |- keeps _ (gets _) => apply (keeps_gets _ same_object_refl)
    | |- keeps _ (try_except _ _ _) => apply (keeps_try _ same_object_trans)
    | |- keeps _ (bind _ _) =>
        apply (keeps_bind _ same_object_trans); [|intros ?]
    | |- keeps _ (if _ then _ else _) => apply (keeps_if _)
    | |- keeps _ (match ?x with _ => _ end) => destruct x
    end.

Lemma connect_same_object peer u p : keeps same_object (connect peer u p).
Proof.
  unfold connect. same_object_tac; intros d; split; reflexivity.
Qed.

Lemma login_same_object : keeps same_object login.
Proof.
  intros d. unfold login. destruct (variant d); revert d;
    [ change (keeps same_object Device_login)
    | change (keeps same_object DeviceCiscoIOS_login)
    | change (keeps same_object DeviceCiscoWLC_login)
    | change (keeps same_object Device_login) ];
    unfold Device_login, DeviceCiscoIOS_login, DeviceCiscoWLC_login;
    same_object_tac.
Qed.



(** *** The engine's own statements in closed form *)

Lemma writeLogFile_run m w : _writeLogFile m w = (Ret tt, logged m w).
Proof. reflexivity. Qed.

(** One write of output: the next outcome of the sink is consumed, and
    the text is on the handle unless the write raised. *)
Lemma writeOutputFile_run text w :
  _writeOutputFile text w
  = (match next_write (writeq w) with
     | Some f => Raise (exn_of_sink f)
     | None => Ret tt
     end,
     set_writeq (tl (writeq w))
       (set_disk (disk w
                  ++ match next_write (writeq w) with
                     | Some _ => []
                     | None => [Wrote (outputFile w) text]
                     end)%list w)).
Proof.
  unfold _writeOutputFile, zoom, sink, flush, write. cbn [wq written].
  destruct (writeq w) as [|[|f] q]; reflexivity.
Qed.

(** The call of [run] by the engine: what [run] wrote is on the handle,
    and the outcomes of the writes it made are consumed. *)
Lemma call_run_run cmds w r d' out' :
  Devices.run cmds (aDevice w, sink w) = (r, (d', out')) ->
  call_run cmds w
  = (r, flush out'
          (set_aDevice d'
             (set_calls (calls w ++ [(hostname (aDevice w), m_run)])%list
                        w))).
Proof.
  intros H. unfold call_run, bind, modify, zoom.
  cbn -[Devices.run flush].
  change (sink (set_calls _ w)) with (sink w). now rewrite H.
Qed.

(** The block of a target whose opening delimiter is written and whose
    commands return. *)
Lemma target_block_shape (a : Activity) (h : string) (w : World)
    b d1 out1 r d2 :
  next_write (writeq w) = None ->
  Devices.run (commands a) (aDevice w, mkFile (tl (writeq w)) [])
  = (Ret b, (d1, out1)) ->
  logout d1 = (r, d2) ->
  let res := target_block a h w in
  let f := outputFile w in
  let closing :=
    match r with Ret _ => next_write (wq out1) | Raise _ => None end in
  fst res
  = match r with
    | Ret _ => match closing with
               | Some e => Raise (exn_of_sink e)
               | None => Ret tt
               end
    | Raise e => Raise e
    end
  /\ aDevice (snd res) = d2
  /\ calls (snd res)
     = (calls w ++ [(hostname (aDevice w), m_run); (hostname d1, m_logout)])%list
  /\ messages (snd res)
     = (messages w
        ++ (if b then [] else ["ERROR while running the commmands"])
        ++ match r with
           | Ret v => (if truthy v then [] else ["ERROR while logging out"])
                      ++ match closing with
                         | Some _ => []
                         | None => [("Finished commands at " ++ h)%string]
                         end
           | Raise _ => []
           end)%list
  /\ disk (snd res)
     = (disk w ++ [Wrote f (opening_delimiter h)]
        ++ map (Wrote f) (written out1)
        ++ match r, closing with
           | Ret _, None =>
               Wrote f closing_delimiter
               :: (if singleFile a then []
                   else match directory (outputDir a) with
                        | Some _ => [Closed f]
                        | None => []
                        end)
           | _, _ => []
           end)%list.
Proof.
  intros Hop Hrun Hout res f closing. subst res f closing.
  unfold target_block.
  rewrite (bind_run _ _ _ _ _ (writeOutputFile_run _ w)), Hop.
  cbv beta iota.
  set (w0 := set_writeq _ _).
  assert (Devices.run (commands a) (aDevice w0, sink w0)
          = (Ret b, (d1, out1))) as Hrun0 by exact Hrun.
  rewrite (bind_run _ _ _ _ _ (call_run_run _ _ _ _ _ Hrun0)).
  cbv beta iota. subst w0.
  unfold call, _closeOutputFile, emit, _writeLogFile, Activity.now, flush.
  unfold bind, gets, modify, zoom, ret.
  destruct b; cbn -[logout String.append _writeOutputFile];
    rewrite Hout; destruct r as [v|e];
    cbn -[String.append _writeOutputFile];
    try (destruct (truthy v); cbn -[String.append _writeOutputFile];
         rewrite writeOutputFile_run; cbn -[String.append];
         destruct (next_write (wq out1)); cbn -[String.append];
         destruct (singleFile a); destruct (directory (outputDir a));
         cbn -[String.append]);
    unfold messages; cbn -[String.append];
    rewrite ?map_app, <- ?app_assoc, ?app_nil_r; cbn -[String.append];
    repeat split; reflexivity.
Qed.

(** The block of a target whose opening delimiter the sink refuses:
    the exception of the write leaves the block at once. *)
Lemma target_block_refused (a : Activity) (h : string) (w : World) f :
  next_write (writeq w) = Some f ->
  fst (target_block a h w) = Raise (exn_of_sink f)
  /\ aDevice (snd (target_block a h w)) = aDevice w
  /\ calls (snd (target_block a h w)) = calls w
  /\ messages (snd (target_block a h w)) = messages w
  /\ disk (snd (target_block a h w)) = disk w.
Proof.
  intros Hop. unfold target_block.
  rewrite (bind_run _ _ _ _ _ (writeOutputFile_run _ w)), Hop.
  cbn. rewrite app_nil_r. repeat split.
Qed.

(** The block of a target whose commands raise: the exception leaves the
    block after the call of [run], and what [run] wrote is on the
    handle. *)
Lemma target_block_run_raises (a : Activity) (h : string) (w : World)
    e d1 out1 :
  next_write (writeq w) = None ->
  Devices.run (commands a) (aDevice w, mkFile (tl (writeq w)) [])
  = (Raise e, (d1, out1)) ->
  fst (target_block a h w) = Raise e
  /\ aDevice (snd (target_block a h w)) = d1
  /\ calls (snd (target_block a h w))
     = (calls w ++ [(hostname (aDevice w), m_run)])%list
  /\ messages (snd (target_block a h w)) = messages w
  /\ disk (snd (target_block a h w))
     = (disk w ++ [Wrote (outputFile w) (opening_delimiter h)]
        ++ map (Wrote (outputFile w)) (written out1))%list.
Proof.
  intros Hop Hrun. unfold target_block.
  rewrite (bind_run _ _ _ _ _ (writeOutputFile_run _ w)), Hop.
  cbv beta iota.
  set (w0 := set_writeq _ _).
  assert (Devices.run (commands a) (aDevice w0, sink w0)
          = (Raise e, (d1, out1))) as Hrun0 by exact Hrun.
  rewrite (bind_run _ _ _ _ _ (call_run_run _ _ _ _ _ Hrun0)).
  subst w0. unfold flush. cbn -[String.append].
  rewrite <- app_assoc. repeat split.
Qed.

(** *** Statements of the engine that leave the log alone *)

Lemma quiet_refl w : quiet w w.
Proof. reflexivity. Qed.

Lemma quiet_trans w1 w2 w3 : quiet w1 w2 -> quiet w2 w3 -> quiet w1 w3.
Proof. unfold quiet. congruence. Qed.

Ltac quiet_tac :=
  repeat match goal with
    | |- keeps _ (ret _) => apply (keeps_ret _ quiet_refl)
    | |- keeps _ (raise _) => apply (keeps_raise _ quiet_refl)
    | |- keeps _ (gets _) => apply (keeps_gets _ quiet_refl)
    | |- keeps _ (try_except _ _ _) => apply (keeps_try _ quiet_trans)
    | |- keeps _ (bind _ _) => apply (keeps_bind _ quiet_trans); [|intros ?]
    | |- keeps _ (if _ then _ else _) => apply (keeps_if _)
    | |- keeps _ (match ?x with _ => _ end) => destruct x
    | |- keeps _ (emit _) => intros ?; reflexivity
    | |- keeps _ (modify (set_outputFile _)) => intros ?; reflexivity
    | |- keeps _ (modify (set_logFile _)) => intros ?; reflexivity
    | |- keeps _ (modify (set_aDevice _)) => intros ?; reflexivity
    | |- keeps _ now => intros ?; reflexivity
    | |- keeps _ next_peer => intros ?; reflexivity
    end.

Lemma open_w_quiet path : keeps quiet (open_w path).
Proof.
  intros w. unfold open_w. destruct (openq w) as [|[] q]; reflexivity.
Qed.

Lemma timestampedFilename_quiet base : keeps quiet (timestampedFilename base).
Proof. unfold timestampedFilename. quiet_tac. Qed.

Lemma openOutputFile_quiet a f : keeps quiet (_openOutputFile a f).
Proof. unfold _openOutputFile. quiet_tac; apply open_w_quiet. Qed.

Lemma openLogFile_quiet a f : keeps quiet (_openLogFile a f).
Proof. unfold _openLogFile. quiet_tac; apply open_w_quiet. Qed.

Lemma closeOutputFile_quiet a : keeps quiet (_closeOutputFile a).
Proof. unfold _closeOutputFile. quiet_tac. Qed.

Lemma closeLogFile_quiet a : keeps quiet (_closeLogFile a).
Proof. unfold _closeLogFile. quiet_tac. Qed.

Lemma call_quiet {A} m (body : M Device A) : keeps quiet (call m body).
Proof.
  intros w. unfold call, bind, modify, zoom. cbn.
  destruct (body (aDevice w)). reflexivity.
Qed.

(** *** Counting the closing lines of the targets *)

Lemma count_app p (l1 l2 : list string) :
  count p (l1 ++ l2) = count p l1 + count p l2.
Proof. unfold count. now rewrite filter_app, length_app. Qed.

Lemma closing_app l1 l2 : closing (l1 ++ l2) = closing l1 + closing l2.
Proof. unfold closing. rewrite !count_app. lia. Qed.

Lemma adds_quiet {A} (c : M World A) w : keeps quiet c -> adds c w [].
Proof.
  intros H. unfold adds, messages. rewrite (H w). now rewrite app_nil_r.
Qed.

Lemma adds_log m w : adds (_writeLogFile m) w [m].
Proof. unfold adds, messages. cbn. now rewrite map_app. Qed.

Lemma closes_ext {A} (c c' : M World A) w :
  c w = c' w -> closes_target c w -> closes_target c' w.
Proof. unfold closes_target, adds. intros <-. exact (fun H => H). Qed.

Lemma bind_silent {A B} (c : M World A) (k : A -> M World B) w l1 :
  adds c w l1 -> closing l1 = 0 ->
  (forall a, fst (c w) = Ret a -> closes_target (k a) (snd (c w))) ->
  closes_target (bind c k) w.
Proof.
  unfold closes_target, adds, bind. intros H1 H0 Hk.
  destruct (c w) as [[a|e] w1]; cbn [fst snd] in *.
  - destruct (Hk a eq_refl) as [l2 [H2 [V1 V2]]].
    exists (l1 ++ l2)%list. split; [|split].
    + rewrite H2, H1. now rewrite app_assoc.
    + rewrite closing_app. lia.
    + rewrite count_app. unfold closing in H0. lia.
  - exists l1. split; [exact H1|]. split; [exact H0|].
    unfold closing in H0. lia.
Qed.

Lemma bind_quiet {A B} (c : M World A) (k : A -> M World B) w :
  keeps quiet c ->
  (forall a, fst (c w) = Ret a -> closes_target (k a) (snd (c w))) ->
  closes_target (bind c k) w.
Proof.
  intros H. apply (bind_silent c k w []); [now apply adds_quiet | reflexivity].
Qed.

Lemma last_line m w :
  closing [m] = 1 -> closes_target (_writeLogFile m) w.
Proof.
  intros H1. exists [m]. split; [apply adds_log|]. split; [exact H1|].
  unfold closing in H1. lia.
Qed.

Lemma bind_assoc {S A B C} (c : M S A) (k1 : A -> M S B) (k2 : B -> M S C) s :
  bind (bind c k1) k2 s = bind c (fun a => bind (k1 a) k2) s.
Proof. unfold bind. destruct (c s) as [[a|e] s1]; reflexivity. Qed.

Lemma writeOutputFile_quiet text : keeps quiet (_writeOutputFile text).
Proof. intros w. now rewrite writeOutputFile_run. Qed.

Lemma call_run_quiet cmds : keeps quiet (call_run cmds).
Proof.
  intros w.
  destruct (Devices.run cmds (aDevice w, sink w)) as [r [d' out']] eqn:E.
  now rewrite (call_run_run _ _ _ _ _ E).
Qed.

Lemma target_block_closes a h w : closes_target (target_block a h) w.
Proof.
  unfold target_block.
  apply bind_quiet; [apply writeOutputFile_quiet | intros _ _].
  apply bind_quiet; [apply call_run_quiet | intros ok _].
  match goal with |- closes_target _ ?w0 => generalize w0 as w1 end.
  intros w1.
  apply (bind_silent _ _ _
           (if negb ok then ["ERROR while running the commmands"] else []));
    [destruct ok; cbn [negb]; [apply adds_quiet; quiet_tac | apply adds_log]
    | now destruct ok | intros _ _].
  apply bind_quiet; [apply call_quiet | intros v _].
  match goal with |- closes_target _ ?w0 => generalize w0 as w2 end.
  intros w2.
  apply (bind_silent _ _ _
           (if negb (truthy v) then ["ERROR while logging out"] else []));
    [destruct (truthy v); cbn [negb];
     [apply adds_quiet; quiet_tac | apply adds_log]
    | now destruct (truthy v) | intros _ _].
  apply bind_quiet; [apply writeOutputFile_quiet | intros _ _].
  apply bind_quiet;
    [quiet_tac; apply closeOutputFile_quiet | intros _ _].
  apply last_line. reflexivity.
Qed.

Lemma command_phase_closes a h w : closes_target (command_phase a h) w.
Proof.
  unfold command_phase. apply bind_quiet.
  - quiet_tac;
      [apply timestampedFilename_quiet | apply openOutputFile_quiet].
  - intros _ _. apply target_block_closes.
Qed.

(** Every turn of the loop closes its target. *)
Lemma visit_closes a h w : closes_target (visit a h) w.
Proof.
  unfold visit.
  apply bind_quiet; [quiet_tac | intros _ _].
  apply bind_quiet; [quiet_tac | intros peer _].
  apply bind_quiet; [apply call_quiet | intros [|] _]; cbn [negb].
  2:{ apply last_line. reflexivity. }
  eapply bind_silent; [apply adds_log | reflexivity | intros _ _].
  apply bind_quiet; [apply call_quiet | intros [|] _]; cbn [negb].
  2:{ apply last_line. reflexivity. }
  match goal with |- closes_target _ ?w0 => generalize w0 as w1 end.
  intros w1. unfold escalation. destruct (superuserNeeded a).
  - eapply closes_ext; [symmetry; apply bind_assoc|].
    apply bind_quiet; [apply call_quiet | intros [|] _]; cbn [negb].
    + eapply closes_ext; [symmetry; apply bind_assoc|].
      eapply bind_silent; [apply adds_log | reflexivity | intros _ _].
      apply command_phase_closes.
    + match goal with |- closes_target _ ?w0 => generalize w0 as w2 end.
      intros w2.
      apply (closes_ext (_writeLogFile ("Unable to superuser at " ++ h)));
        [reflexivity|].
      apply last_line. reflexivity.
  - apply command_phase_closes.
Qed.

(** The closing lines of a list of targets: one for each when the loop
    runs to its end. *)
Lemma for_each_closes a (hosts : list string) :
  forall w, exists l,
    adds (for_each hosts (visit a)) w l
    /\ count is_finished l + count is_unable l <= List.length hosts
    /\ (fst (for_each hosts (visit a) w) = Ret tt ->
        count is_finished l + count is_unable l = List.length hosts).
Proof.
  induction hosts as [|h rest IH]; intros w.
  - exists []. split; [|split; reflexivity].
    unfold adds. cbn. now rewrite app_nil_r.
  - cbn [for_each]. unfold adds, bind.
    destruct (visit_closes a h w) as [l1 [H1 [V1 V2]]].
    unfold adds in H1.
    destruct (visit a h w) as [[[]|e] w1]; cbn [fst snd] in *.
    + destruct (IH w1) as [l2 [H2 [B2 E2]]]. unfold adds in H2.
      exists (l1 ++ l2)%list. split; [|split].
      * rewrite H2, H1. now rewrite app_assoc.
      * rewrite !count_app. unfold closing in V1. cbn [List.length]. lia.
      * intros Hr. rewrite !count_app. unfold closing in V1.
        specialize (E2 Hr). cbn [List.length]. lia.
    + exists l1. split; [exact H1|]. split; [|discriminate].
      unfold closing in V1. cbn [List.length]. lia.
Qed.

(** *** The count of closing lines *)

Lemma quiet_step {A} (c : M World A) w r w1 :
  keeps quiet c -> c w = (r, w1) -> messages w1 = messages w.
Proof.
  intros H E. specialize (H w). rewrite E in H. unfold quiet in H.
  cbn [snd] in H. unfold messages. now rewrite H.
Qed.

(** When the run completes, every target has got exactly one closing
    line in the log, so the "Finished commands at" lines number the
    targets less the "Unable to ..." lines. *)
Lemma closing_lines_count (a : Activity) (w w' : World) :
  Activity.run a w = (Ret tt, w') ->
  finished_lines w' + unable_lines w'
  = finished_lines w + unable_lines w + List.length (targets a).
Proof.
  unfold Activity.run. intros H.
  apply bind_ret_inv in H. destruct H as [f1 [w1 [E1 H]]].
  apply bind_ret_inv in H. destruct H as [f2 [w2 [E2 H]]].
  apply bind_ret_inv in H. destruct H as [[] [w3 [E3 H]]].
  apply bind_ret_inv in H. destruct H as [[] [w4 [E4 H]]].
  apply bind_ret_inv in H. destruct H as [[] [w5 [E5 H]]].
  apply bind_ret_inv in H. destruct H as [[] [w6 [E6 H]]].
  apply bind_ret_inv in H. destruct H as [[] [w7 [E7 H]]].
  apply bind_ret_inv in H. destruct H as [[] [w8 [E8 H]]].
  apply (quiet_step _ _ _ _ (timestampedFilename_quiet _)) in E1.
  apply (quiet_step _ _ _ _ (timestampedFilename_quiet _)) in E2.
  apply (quiet_step _ _ _ _ (openLogFile_quiet _ _)) in E3.
  assert (messages w4 = messages w3) as E4'.
  { destruct (singleFile a).
    - now apply (quiet_step _ _ _ _ (openOutputFile_quiet _ _)) in E4.
    - now injection E4 as <-. }
  destruct (for_each_closes a (targets a) w4) as [l [Hl [_ Hn]]].
  unfold adds in Hl. rewrite E5 in Hl, Hn. cbn [fst snd] in Hl, Hn.
  specialize (Hn eq_refl).
  pose proof (adds_log "Finished activity" w5) as E6'.
  unfold adds in E6'. rewrite E6 in E6'. cbn [snd] in E6'.
  assert (messages w7 = messages w6) as E7'.
  { destruct (singleFile a).
    - now apply (quiet_step _ _ _ _ (closeOutputFile_quiet _)) in E7.
    - now injection E7 as <-. }
  pose proof (adds_log "END" w7) as E8'.
  unfold adds in E8'. rewrite E8 in E8'. cbn [snd] in E8'.
  apply (quiet_step _ _ _ _ (closeLogFile_quiet _)) in H.
  unfold finished_lines, unable_lines.
  rewrite H, E8', E7', E6', Hl, E4', E3, E2, E1.
  rewrite !count_app. cbn. lia.
Qed.

(** C1, as claimed, fails on a single target that cannot be reached: the
    run completes, and the log has no "Finished commands at" line. *)
Lemma finished_lines_counterexample :
  ~ one_finished_line_per_target (audit ["10.0.0.1"] "" false)
                                 (start [unreachable] [] []).
Proof.
  intros H. specialize (H ltac:(discriminate)).
  assert (finished_lines
            (snd (Activity.run (audit ["10.0.0.1"] "" false)
                               (start [unreachable] [] []))) = 0) as E
    by (vm_compute; reflexivity).
  rewrite E in H. discriminate.
Qed.

(** *** A target whose escalation fails *)

Lemma createDevice_hostname h ty : hostname (createDevice h ty) = h.
Proof.
  unfold createDevice.
  repeat match goal with |- context [String.eqb ?x ?y] =>
    destruct (String.eqb x y) end; reflexivity.
Qed.

Lemma same_object_step {A} (c : M Device A) d r d' :
  keeps same_object c -> c d = (r, d') -> hostname d' = hostname d.
Proof. intros H E. specialize (H d). rewrite E in H. apply H. Qed.

(** C2, as the code has it.  For a target whose connect and login
    succeed and whose requested escalation fails, the turn ends right
    after the line "Unable to superuser at <hostname>" is logged: nothing
    is written to the output sink, the only methods called on the device
    are connect, login and superuser (no command is run and [logout] is
    not called), and the device is left as [superuser] left it. *)
Theorem failed_escalation_ends_turn (a : Activity) (h : string) (w : World)
    (d1 d2 d3 : Device) :
  superuserNeeded a = true ->
  connect (hd unreachable (net w)) (user a) (Activity.password a)
          (createDevice h (deviceType a)) = (Ret true, d1) ->
  login d1 = (Ret true, d2) ->
  superuser (superuserPassword a) d2 = (Ret false, d3) ->
  fst (visit a h w) = Ret tt
  /\ disk (snd (visit a h w)) = disk w
  /\ calls (snd (visit a h w))
     = (calls w ++ [(h, m_connect); (h, m_login); (h, m_superuser)])%list
  /\ messages (snd (visit a h w))
     = (messages w ++ [("Connected to " ++ h)%string;
                       ("Unable to superuser at " ++ h)%string])%list
  /\ aDevice (snd (visit a h w)) = d3.
Proof.
  intros Hsu Hc Hl Hs.
  pose proof (same_object_step _ _ _ _ (connect_same_object _ _ _) Hc) as N1.
  pose proof (same_object_step _ _ _ _ login_same_object Hl) as N2.
  rewrite createDevice_hostname in N1. rewrite N1 in N2.
  unfold visit, escalation, call, next_peer, _writeLogFile, now.
  rewrite Hsu.
  unfold bind, modify, zoom, ret.
  cbn -[connect login superuser createDevice String.append].
  rewrite Hc. cbn -[connect login superuser createDevice String.append].
  rewrite Hl. cbn -[connect login superuser createDevice String.append].
  rewrite Hs. cbn -[connect login superuser createDevice String.append].
  rewrite createDevice_hostname, N1, N2.
  unfold messages. cbn -[String.append].
  rewrite !map_app, <- !app_assoc. repeat split.
Qed.

Lemma failed_escalation_ends_turn_witness :
  superuserNeeded mute_audit = true
  /\ connect (hd unreachable (net mute_world)) (user mute_audit)
       (Activity.password mute_audit)
       (createDevice "r1" (deviceType mute_audit))
     = (Ret true, mute_connected)
  /\ login mute_connected = (Ret true, mute_logged_in)
  /\ fst (superuser (superuserPassword mute_audit) mute_logged_in)
     = Ret false
  /\ calls (snd (visit mute_audit "r1" mute_world))
     = (calls mute_world
        ++ [("r1", m_connect); ("r1", m_login); ("r1", m_superuser)])%list
  /\ disk (snd (visit mute_audit "r1" mute_world)) = disk mute_world.
Proof.
  assert (connect (hd unreachable (net mute_world)) (user mute_audit)
            (Activity.password mute_audit)
            (createDevice "r1" (deviceType mute_audit))
          = (Ret true, mute_connected)) as Hc by (vm_compute; reflexivity).
  assert (login mute_connected = (Ret true, mute_logged_in)) as Hl
    by (vm_compute; reflexivity).
  assert (superuser (superuserPassword mute_audit) mute_logged_in
          = (Ret false, snd (superuser (superuserPassword mute_audit)
                                       mute_logged_in))) as Hs
    by (vm_compute; reflexivity).
  destruct (failed_escalation_ends_turn mute_audit "r1" mute_world
              _ _ _ eq_refl Hc Hl Hs) as [_ [Hd [Hk _]]].
  split; [reflexivity|]. split; [exact Hc|]. split; [exact Hl|].
  split; [now rewrite Hs|]. split; [exact Hk | exact Hd].
Defined.

(** C2, as claimed, fails on a router that does not ask for the enable
    password: the escalation fails, the line is logged, and [logout] is
    never called on the device. *)
Lemma failed_escalation_counterexample :
  ~ logout_after_failed_escalation mute_audit mute_world.
Proof.
  intros H. specialize (H "r1" (or_introl eq_refl)).
  assert (messages (snd (Activity.run mute_audit mute_world))
          = ["Connected to r1"; "Unable to superuser at r1";
             "Finished activity"; "END"]) as Em
    by (vm_compute; reflexivity).
  assert (calls (snd (Activity.run mute_audit mute_world))
          = [("r1", m_connect); ("r1", m_login); ("r1", m_superuser)]) as Ec
    by (vm_compute; reflexivity).
  rewrite Em, Ec in H.
  specialize (H (or_intror (or_introl eq_refl))).
  destruct H as [H|[H|[H|[]]]]; inversion H.
Qed.

(** *** The command phase of a target *)

(** When the sink accepts the two delimiters and [logout] returns, the
    block of the target is delimited: the opening delimiter, what the
    commands wrote, the closing delimiter, and the close of a sink of its
    own. *)
Lemma target_block_delimited (a : Activity) (h : string) (w : World)
    b d1 out1 v d2 :
  next_write (writeq w) = None ->
  Devices.run (commands a) (aDevice w, mkFile (tl (writeq w)) [])
  = (Ret b, (d1, out1)) ->
  logout d1 = (Ret v, d2) ->
  next_write (wq out1) = None ->
  fst (target_block a h w) = Ret tt
  /\ disk (snd (target_block a h w))
     = (disk w
        ++ [Wrote (outputFile w) (opening_delimiter h)]
        ++ map (Wrote (outputFile w)) (written out1)
        ++ Wrote (outputFile w) closing_delimiter
           :: (if singleFile a then []
               else match directory (outputDir a) with
                    | Some _ => [Closed (outputFile w)]
                    | None => []
                    end))%list.
Proof.
  intros Hop Hrun Hout Hcl.
  destruct (target_block_shape a h w b d1 out1 (Ret v) d2 Hop Hrun Hout)
    as [Hr [_ [_ [_ Hd]]]].
  cbv zeta in Hr, Hd. rewrite Hcl in Hr, Hd.
  split; assumption.
Qed.

Lemma landed_first_accepted (t : string) (ts : list string)
    (q : list wres) :
  next_write q = None -> landed (t :: ts) q = t :: landed ts (tl q).
Proof.
  destruct q as [|[|f] q]; [reflexivity | reflexivity | discriminate].
Qed.

Lemma landed_first_refused (t : string) (ts : list string)
    (q : list wres) f :
  next_write q = Some f -> landed (t :: ts) q = [].
Proof.
  destruct q as [|[|g] q]; [discriminate | discriminate | reflexivity].
Qed.

Lemma accepting_next (q : list wres) :
  accepting q = true -> next_write q = None /\ accepting (tl q) = true.
Proof.
  destruct q as [|[|f] q]; [now split | now split | discriminate].
Qed.

(** What the block of a target leaves on the handle, whatever the sink
    does: the texts that landed among the opening delimiter, the text
    pending on the channel and what the commands then produced; and the
    closing delimiter after them, if it is written. *)
Lemma target_block_writes (a : Activity) (h : string) (w : World) :
  exists later tail,
    disk (snd (target_block a h w))
    = (disk w
       ++ map (Wrote (outputFile w))
              (landed (opening_delimiter h
                       :: drain_chunks (rxq (RemoteShell (aDevice w)))
                       ++ later)
                      (writeq w))
       ++ tail)%list
    /\ (tail = []
        \/ exists closes,
             tail = Wrote (outputFile w) closing_delimiter :: closes).
Proof.
  destruct (next_write (writeq w)) as [f|] eqn:Hop.
  - destruct (target_block_refused a h w f Hop) as [_ [_ [_ [_ Hd]]]].
    exists [], []. rewrite (landed_first_refused _ _ _ _ Hop).
    cbn [map app]. rewrite app_nil_r. split; [exact Hd | now left].
  - destruct (run_shape (commands a) (aDevice w) (mkFile (tl (writeq w)) []))
      as [d1 [out1 [cp [cs [later [E [_ [_ [O [L _]]]]]]]]]].
    cbn [wq written app] in E, O, L.
    exists later. rewrite (landed_first_accepted _ _ _ Hop), <- L, <- O.
    destruct (run_result cp cs (tl (writeq w))) as [b|e] eqn:R.
    + destruct (logout d1) as [r d2] eqn:Hout.
      destruct (target_block_shape a h w b d1 out1 r d2 Hop E Hout)
        as [_ [_ [_ [_ Hd]]]].
      cbv zeta in Hd. eexists. split.
      * rewrite Hd. cbn [map app]. reflexivity.
      * destruct r as [v|e]; [|now left].
        destruct (next_write (wq out1)); [now left|].
        right. eexists. reflexivity.
    + destruct (target_block_run_raises a h w e d1 out1 Hop E)
        as [_ [_ [_ [_ Hd]]]].
      exists []. split; [|now left].
      rewrite Hd. cbn [map app]. now rewrite app_nil_r.
Qed.

(** C7.  What the command runner does with a failure, and what follows
    in the engine.  [run] returns False when, among the sends and the
    polls it consumed, a send accepted no byte or raised, a chunk of
    received bytes did not decode, or a [recv] raised; what it wrote
    before stays written; and in the engine the failure is logged and
    [logout] is the next method called on the device.  But the run does
    not always continue: on a router that sends a chunk that is not
    UTF-8 in the output of the command and another in the logout
    dialogue, [run] returns False, the failure is logged, [logout] is
    called and raises UnicodeDecodeError, which its handler does not
    catch, and the exception leaves the run: the second target is never
    visited. *)
Theorem failed_run_ends_the_run :
  (forall (cmds : list string) (d : Device) (out : File),
     exists d' out' cp cs,
       Devices.run cmds (d, out) = (run_result cp cs (wq out), (d', out'))
       /\ consumed (RemoteShell d) (RemoteShell d') cp cs
       /\ written out'
          = (written out ++ landed (texts cp) (wq out))%list)
  /\ (forall (cmds : list string) (d : Device) (out : File),
        accepting (wq out) = true ->
        exists b d' out' cp cs,
          Devices.run cmds (d, out) = (Ret b, (d', out'))
          /\ consumed (RemoteShell d) (RemoteShell d') cp cs
          /\ (b = false <-> failure_met cp cs = true)
          /\ written out' = (written out ++ texts cp)%list)
  /\ (forall (a : Activity) (h : string) (w : World) d1 out1,
        next_write (writeq w) = None ->
        Devices.run (commands a) (aDevice w, mkFile (tl (writeq w)) [])
        = (Ret false, (d1, out1)) ->
        exists rest tail,
          calls (snd (target_block a h w))
          = (calls w ++ [(hostname (aDevice w), m_run);
                         (hostname (aDevice w), m_logout)])%list
          /\ messages (snd (target_block a h w))
             = (messages w
                ++ "ERROR while running the commmands" :: rest)%list
          /\ disk (snd (target_block a h w))
             = (disk w ++ [Wrote (outputFile w) (opening_delimiter h)]
                ++ map (Wrote (outputFile w)) (written out1) ++ tail)%list)
  /\ snd (login (snd (connect garbling_router "admin" "pw"
                        (createDevice "r1" "ciscoios"))))
     = garbling_session
  /\ fst (Devices.run ["show version"] (garbling_session, mkFile [] []))
     = Ret false
  /\ written (snd (snd (Devices.run ["show version"]
                          (garbling_session, mkFile [] []))))
     = ["IOS 15.2"]
  /\ fst (logout (fst (snd (Devices.run ["show version"]
                              (garbling_session, mkFile [] [])))))
     = Raise UnicodeDecodeError
  /\ fst (Activity.run garbling_audit garbling_world)
     = Raise UnicodeDecodeError
  /\ calls (snd (Activity.run garbling_audit garbling_world))
     = [("r1", m_connect); ("r1", m_login); ("r1", m_run); ("r1", m_logout)]
  /\ messages (snd (Activity.run garbling_audit garbling_world))
     = ["Connected to r1"; "ERROR while running the commmands"]
  /\ disk (snd (Activity.run garbling_audit garbling_world))
     = [Wrote Stdout (opening_delimiter "r1"); Wrote Stdout "IOS 15.2"].
Proof.
  split; [|split; [|split]].
  - intros cmds d out.
    destruct (run_shape cmds d out)
      as [d' [out' [cp [cs [later [E [C [_ [O _]]]]]]]]].
    exists d', out', cp, cs. repeat split; assumption || apply C.
  - intros cmds d out Hacc.
    destruct (run_shape_accepting cmds d out Hacc)
      as [b [d' [out' [cp [cs [later [E [C [F [O _]]]]]]]]]].
    exists b, d', out', cp, cs. repeat split; assumption || apply C || apply F.
  - intros a h w d1 out1 Hop E.
    destruct (run_shape (commands a) (aDevice w) (mkFile (tl (writeq w)) []))
      as [d1' [out1' [cp [cs [later [E' [_ [_ [_ [_ [_ Hh]]]]]]]]]]].
    rewrite E in E'. injection E' as _ <- <-.
    destruct (logout d1) as [r d2] eqn:Hout.
    destruct (target_block_shape a h w false d1 out1 r d2 Hop E Hout)
      as [_ [_ [Hc [Hm Hd]]]].
    cbv zeta in Hm, Hd. destruct Hh as [Hh _].
    eexists _, _. split; [now rewrite Hc, Hh|]. split.
    + rewrite Hm. cbn [app]. reflexivity.
    + rewrite Hd. reflexivity.
  - repeat split; vm_compute; reflexivity.
Qed.

(** C10.  The text pending on the channel when the command runner starts
    is handed to [write] before anything else the runner writes, hence
    ahead of the output of the first command: the file holds what it
    held, then what landed of the pending text followed by the later
    output, which is all of it when the file accepts every write.  In
    the engine these are the writes that follow the opening delimiter of
    the target, and the closing delimiter, when it is written, comes
    after them. *)
Theorem residual_output_kept :
  (forall (cmds : list string) (d : Device) (out : File),
     exists later,
       written (snd (snd (Devices.run cmds (d, out))))
       = (written out
          ++ landed (drain_chunks (rxq (RemoteShell d)) ++ later)
                    (wq out))%list)
  /\ (forall (cmds : list string) (d : Device) (out : File),
        accepting (wq out) = true ->
        exists later,
          written (snd (snd (Devices.run cmds (d, out))))
          = (written out ++ drain_chunks (rxq (RemoteShell d))
             ++ later)%list)
  /\ (forall (a : Activity) (h : string) (w : World),
        exists later tail,
          disk (snd (target_block a h w))
          = (disk w
             ++ map (Wrote (outputFile w))
                    (landed (opening_delimiter h
                             :: drain_chunks (rxq (RemoteShell (aDevice w)))
                             ++ later)
                            (writeq w))
             ++ tail)%list
          /\ (tail = []
              \/ exists closes,
                   tail = Wrote (outputFile w) closing_delimiter :: closes))
  /\ (forall (a : Activity) (h : string) (w : World),
        accepting (writeq w) = true ->
        exists later tail,
          disk (snd (target_block a h w))
          = (disk w
             ++ [Wrote (outputFile w) (opening_delimiter h)]
             ++ map (Wrote (outputFile w))
                    (drain_chunks (rxq (RemoteShell (aDevice w))))
             ++ map (Wrote (outputFile w)) later
             ++ tail)%list
          /\ (tail = []
              \/ exists closes,
                   tail = Wrote (outputFile w) closing_delimiter :: closes)).
Proof.
  split; [|split; [|split]].
  - intros cmds d out.
    destruct (run_shape cmds d out)
      as [d' [out' [cp [cs [later [E [_ [_ [O [L _]]]]]]]]]].
    exists later. rewrite E. cbn [snd]. now rewrite O, L.
  - intros cmds d out Hacc.
    destruct (run_shape_accepting cmds d out Hacc)
      as [b [d' [out' [cp [cs [later [E [_ [_ [O [L _]]]]]]]]]]].
    exists later. rewrite E. cbn [snd]. now rewrite O, L.
  - apply target_block_writes.
  - intros a h w Hacc.
    destruct (target_block_writes a h w) as [later [tail [Hd Ht]]].
    exists later, tail. split; [|exact Ht].
    rewrite Hd.
    destruct (accepting_refusal
                (opening_delimiter h
                 :: drain_chunks (rxq (RemoteShell (aDevice w))) ++ later)
                (writeq w) Hacc) as [_ ->].
    cbn [map app]. rewrite map_app, <- !app_assoc. reflexivity.
Qed.

(** *** A target whose login fails *)

(** For a target whose connect succeeds and whose login returns False,
    the turn ends right after the line "Unable to login to ..." is
    logged: no escalation, no command, no logout. *)
Lemma failed_login_ends_turn (a : Activity) (h : string) (w : World)
    (d1 d2 : Device) :
  connect (hd unreachable (net w)) (user a) (Activity.password a)
          (createDevice h (deviceType a)) = (Ret true, d1) ->
  login d1 = (Ret false, d2) ->
  fst (visit a h w) = Ret tt
  /\ disk (snd (visit a h w)) = disk w
  /\ calls (snd (visit a h w))
     = (calls w ++ [(h, m_connect); (h, m_login)])%list
  /\ aDevice (snd (visit a h w)) = d2.
Proof.
  intros Hc Hl.
  pose proof (same_object_step _ _ _ _ (connect_same_object _ _ _) Hc) as N1.
  rewrite createDevice_hostname in N1.
  unfold visit, call, next_peer, _writeLogFile, now.
  unfold bind, modify, zoom, ret.
  cbn -[connect login superuser createDevice String.append].
  rewrite Hc. cbn -[connect login superuser createDevice String.append].
  rewrite Hl. cbn -[connect login superuser createDevice String.append].
  rewrite createDevice_hostname, N1.
  rewrite <- !app_assoc. repeat split.
Qed.

(** C3.  The login of the wireless controller evaluated on a session in
    which nothing has arrived one second after the password was typed:
    the drained text is empty, so it lacks ">", the local [data] was never
    assigned, and reading it raises UnboundLocalError, which the handler
    of [login] does not catch.  The exception leaves the run: the second
    target is never visited. *)
Theorem wlc_login_unbound_data :
  snd (connect slow_wlc "admin" "pw" (createDevice "wlc1" "ciscowlc"))
    = slow_wlc_session
  /\ credentials_reply (RemoteShell slow_wlc_session) = Some ""
  /\ find "" ">" = (-1)%Z
  /\ fst (login slow_wlc_session) = Raise UnboundLocalError
  /\ fst (Activity.run wlc_audit wlc_world) = Raise UnboundLocalError
  /\ calls (snd (Activity.run wlc_audit wlc_world))
     = [("wlc1", m_connect); ("wlc1", m_login)]
  /\ messages (snd (Activity.run wlc_audit wlc_world))
     = ["Connected to wlc1"].
Proof. repeat split; vm_compute; reflexivity. Qed.

(** C8.  The run evaluated on a router whose logout dialogue meets a
    chunk of bytes that are not UTF-8: the command phase was reached, the
    opening delimiter and the output of the command are in the sink,
    [logout] raises UnicodeDecodeError, which its handler does not catch,
    and the exception leaves the run before the closing delimiter is
    written; the second target is never visited. *)
Theorem closing_delimiter_lost :
  fst (Activity.run latin1_audit latin1_world) = Raise UnicodeDecodeError
  /\ disk (snd (Activity.run latin1_audit latin1_world))
     = [Wrote Stdout (opening_delimiter "r1"); Wrote Stdout "IOS 15.2"]
  /\ calls (snd (Activity.run latin1_audit latin1_world))
     = [("r1", m_connect); ("r1", m_login); ("r1", m_run); ("r1", m_logout)]
  /\ messages (snd (Activity.run latin1_audit latin1_world))
     = ["Connected to r1"].
Proof. repeat split; vm_compute; reflexivity. Qed.

End EngineFacts.

(* ===================================================================== *)
(** ** More on the vendor dialogues *)
(* ===================================================================== *)

Module DeviceExtras.

Import Text TextFacts Capture Observations MonadFacts TransportFacts.
Import Devices DeviceFacts MoreScenarios.

(** X1.  On a Linux session, [superuser] returns true only if the text
    drained after "su" was sent holds "Password:" and the text drained
    after the password was then sent holds "root"; and when "Password:"
    is absent from the first of these texts, it returns false and "su" is
    all that was sent. *)
Theorem linux_superuser_prompts (d : Device) (pass : string) :
  variant d = Linux ->
  (forall d', superuser pass d = (Ret true, d') ->
     exists t1 t2,
       command_reply (RemoteShell d) = Some t1
       /\ Substring "Password:" t1
       /\ password_reply (RemoteShell d) = Some t2
       /\ Substring "root" t2
       /\ sent (RemoteShell d')
          = app (sent (RemoteShell d)) ["su " ++ nl; pass ++ nl])
  /\ (forall t1,
        command_reply (RemoteShell d) = Some t1 ->
        ~ Substring "Password:" t1 ->
        exists d', superuser pass d = (Ret false, d')
          /\ sent (RemoteShell d')
             = app (sent (RemoteShell d)) ["su " ++ nl]).
Proof.
  destruct d as [v h u p [q t cf ccf sn cc ccc]]. cbn [variant RemoteShell].
  intros ->. unfold superuser. cbn [variant].
  unfold DeviceLinux_superuser. split.
  - intros d'. dialogue.
    prim. norm.
    destruct (drain_stop q) as [[]|e0] eqn:E0; [|escape].
    prim. norm.
    destruct (send_outcome _ t) as [n1|e1] eqn:E1; [|escape].
    prim. norm.
    destruct (drain_stop (after_drain q)) as [[]|e2] eqn:E2; [|escape].
    destruct (Z.eqb_spec
                (find (fold_left (fun _ t0 : string => id t0)
                         (drain_chunks (after_drain q)) "") "Password:")
                (-1)) as [F1|F1]; norm; [discriminate|].
    prim. norm.
    destruct (send_outcome _ (tl t)) as [n3|e3] eqn:E3; [|escape].
    prim. norm.
    destruct (drain_stop (after_drain (after_drain q))) as [[]|e4] eqn:E4;
      [|escape].
    destruct (Z.eqb_spec
                (find (fold_left (fun _ t0 : string => id t0)
                         (drain_chunks (after_drain (after_drain q))) "")
                      "root")
                (-1)) as [F2|F2]; norm; [discriminate|].
    intros H. injection H as <-.
    apply find_found_iff, (last_chunk_in_text _ "") in F1.
    apply find_found_iff, (last_chunk_in_text _ "") in F2.
    exists (join (drain_chunks (after_drain q))),
           (join (drain_chunks (after_drain (after_drain q)))).
    unfold password_reply, command_reply, drained_text.
    cbn [rxq txq sent RemoteShell].
    rewrite E0, E2, E4, (send_outcome_ret _ _ _ E1),
      (send_outcome_ret _ _ _ E3).
    repeat split; try assumption.
    now rewrite <- app_assoc.
  - intros t1. unfold command_reply, drained_text.
    cbn [rxq txq sent RemoteShell].
    destruct (drain_stop q) as [[]|e0] eqn:E0; [|discriminate].
    destruct (send_raises t) eqn:E1; [discriminate|].
    destruct (drain_stop (after_drain q)) as [[]|e2] eqn:E2; [|discriminate].
    intros H Habs. injection H as <-.
    destruct (send_raises_false ("su " ++ nl) t E1) as [n1 E1'].
    dialogue.
    prim. norm. rewrite E0.
    prim. norm. rewrite E1'.
    prim. norm. rewrite E2.
    destruct (Z.eqb_spec
                (find (fold_left (fun _ t0 : string => id t0)
                         (drain_chunks (after_drain q)) "") "Password:")
                (-1)) as [F1|F1]; norm.
    + eexists. split; reflexivity.
    + exfalso. apply Habs.
      now apply find_found_iff, (last_chunk_in_text _ "") in F1.
Qed.

Lemma linux_superuser_prompts_witness :
  variant linux_session = Linux
  /\ exists t1 t2,
       command_reply (RemoteShell linux_session) = Some t1
       /\ Substring "Password:" t1
       /\ password_reply (RemoteShell linux_session) = Some t2
       /\ Substring "root" t2.
Proof.
  split; [reflexivity|].
  assert (superuser "secret" linux_session
          = (Ret true, snd (superuser "secret" linux_session))) as E
    by (vm_compute; reflexivity).
  destruct (proj1 (linux_superuser_prompts linux_session "secret" eq_refl)
              _ E) as [t1 [t2 [H1 [H2 [H3 [H4 _]]]]]].
  exists t1, t2. repeat split; assumption.
Defined.

(** X2.  On a Cisco WLC session, [login] returns true only if the text
    drained after the user name and the password were typed again holds
    ">", and then "config paging disable" is what it types next; when
    that text arrived (at least one chunk) and lacks ">", [login] returns
    false and types nothing more. *)
Theorem wlc_login_prompt (d : Device) :
  variant d = CiscoWLC ->
  (forall d', login d = (Ret true, d') ->
     exists t,
       credentials_reply (RemoteShell d) = Some t
       /\ Substring ">" t
       /\ sent (RemoteShell d')
          = app (sent (RemoteShell d))
                [username d ++ nl; password d ++ nl;
                 "config paging disable " ++ nl])
  /\ (forall t,
        credentials_reply (RemoteShell d) = Some t ->
        ~ Substring ">" t ->
        drain_chunks (after_drain (rxq (RemoteShell d))) <> [] ->
        exists d', login d = (Ret false, d')
          /\ sent (RemoteShell d')
             = app (sent (RemoteShell d))
                   [username d ++ nl; password d ++ nl]).
Proof.
  destruct d as [v h u p [q tq cf ccf sn cc ccc]].
  cbn [variant RemoteShell username password].
  intros ->. unfold login. cbn [variant]. unfold DeviceCiscoWLC_login. split.
  - intros d'. dialogue.
    prim. norm.
    destruct (send_outcome _ tq) as [n1|e1] eqn:E1; [|escape].
    prim. norm.
    destruct (drain_stop q) as [[]|e0] eqn:E0; [|escape].
    prim. norm.
    destruct (send_outcome _ (tl tq)) as [n2|e2] eqn:E2; [|escape].
    prim. norm.
    destruct (drain_stop (after_drain q)) as [[]|e3] eqn:E3; [|escape].
    destruct (drain_chunks (after_drain q)) as [|c chunks] eqn:Ec;
      cbn [fold_left]; [discriminate|].
    rewrite last_chunk_some.
    destruct (Z.eqb_spec
                (find (fold_left (fun _ t0 : string => id t0) chunks c) ">")
                (-1)) as [F|F]; norm; [discriminate|].
    prim. norm.
    destruct (send_outcome _ (tl (tl tq))) as [n4|e4] eqn:E4; [|escape].
    intros H. injection H as <-.
    apply find_found_iff, (last_chunk_in_text _ c chunks) in F.
    exists (join (c :: chunks)).
    unfold credentials_reply, drained_text. cbn [rxq txq sent RemoteShell].
    rewrite E0, E3, Ec, (send_outcome_ret _ _ _ E1),
      (send_outcome_ret _ _ _ E2).
    repeat split; try assumption.
    now rewrite <- !app_assoc.
  - intros t. unfold credentials_reply, drained_text. cbn [rxq txq].
    destruct (send_raises tq) eqn:E1; [discriminate|].
    destruct (drain_stop q) as [[]|e0] eqn:E0; [|discriminate].
    destruct (send_raises (tl tq)) eqn:E2; [discriminate|].
    destruct (drain_stop (after_drain q)) as [[]|e2] eqn:E3; [|discriminate].
    intros H Habs Hne. injection H as <-.
    destruct (send_raises_false (u ++ nl) tq E1) as [n1 E1'].
    destruct (send_raises_false (p ++ nl) (tl tq) E2) as [n2 E2'].
    dialogue.
    prim. norm. rewrite E1'.
    prim. norm. rewrite E0.
    prim. norm. rewrite E2'.
    prim. norm. rewrite E3.
    destruct (drain_chunks (after_drain q)) as [|c chunks] eqn:Ec;
      [congruence|].
    cbn [fold_left]. rewrite last_chunk_some.
    destruct (Z.eqb_spec
                (find (fold_left (fun _ t0 : string => id t0) chunks c) ">")
                (-1)) as [F|F]; norm.
    + eexists. split; [reflexivity|]. now rewrite <- app_assoc.
    + exfalso. apply Habs. apply find_found_iff in F.
      apply (last_chunk_in_text _ c chunks) in F. exact F.
Qed.

Lemma wlc_login_prompt_witness :
  variant wlc_session = CiscoWLC
  /\ exists t,
       credentials_reply (RemoteShell wlc_session) = Some t
       /\ Substring ">" t.
Proof.
  split; [reflexivity|].
  assert (login wlc_session = (Ret true, snd (login wlc_session))) as E
    by (vm_compute; reflexivity).
  destruct (proj1 (wlc_login_prompt wlc_session eq_refl) _ E)
    as [t [H1 [H2 _]]].
  exists t. split; assumption.
Defined.

(** *** Which exceptions leave a method *)

Section RaisesOnly.
Context {S : Type} (P : exn -> Prop).

Lemma ro_ret {A} (a : A) : raises_only P (@ret S A a).
Proof. intros s e s' H. discriminate. Qed.

Lemma ro_gets {A} (f : S -> A) : raises_only P (gets f).
Proof. intros s e s' H. discriminate. Qed.

Lemma ro_raise {A} e : P e -> raises_only P (@raise S A e).
Proof. intros He s e' s' H. injection H as <- _. exact He. Qed.

Lemma ro_bind {A B} (c : M S A) (k : A -> M S B) :
  raises_only P c -> (forall a, raises_only P (k a)) ->
  raises_only P (bind c k).
Proof.
  intros Hc Hk s e s'. unfold bind.
  destruct (c s) as [[a|e0] s1] eqn:E; intros H.
  - exact (Hk a _ _ _ H).
  - injection H as <- _. exact (Hc _ _ _ E).
Qed.

Lemma ro_try {A} (Q : exn -> Prop) (body handler : M S A) classes :
  raises_only Q body -> raises_only P handler ->
  (forall e, Q e -> handles classes e = false -> P e) ->
  raises_only P (try_except body classes handler).
Proof.
  intros Hb Hh HQ s e s'. unfold try_except.
  destruct (body s) as [[a|e0] s1] eqn:E; intros H; [discriminate|].
  destruct (handles classes e0) eqn:Hc.
  - exact (Hh _ _ _ H).
  - injection H as <- _. exact (HQ _ (Hb _ _ _ E) Hc).
Qed.

Lemma ro_if {A} (b : bool) (c1 c2 : M S A) :
  raises_only P c1 -> raises_only P c2 ->
  raises_only P (if b then c1 else c2).
Proof. now destruct b. Qed.
End RaisesOnly.

Lemma ro_send (P : exn -> Prop) text :
  (forall e, transport_fault e -> P e) ->
  raises_only P (on_shell (send text)).
Proof.
  intros HP d e d'. unfold on_shell, zoom. rewrite send_run.
  destruct (txq (RemoteShell d)) as [|[n|f] q]; cbn; intros H;
    try discriminate.
  injection H as <- _. apply HP. destruct f; [left | right]; reflexivity.
Qed.

Lemma drain_stop_fault q e :
  drain_stop q = Raise e -> stream_fault e.
Proof.
  unfold stream_fault.
  induction q as [|[t| |f|] q IH]; cbn; intros H; try discriminate; auto.
  - injection H as <-. now right.
  - injection H as <-. left. destruct f; [left | right]; reflexivity.
Qed.

Lemma ro_drain (P : exn -> Prop) {A} (step : A -> string -> A) acc :
  (forall e, stream_fault e -> P e) ->
  raises_only P (on_shell (drain step acc)).
Proof.
  intros HP d e d'. unfold on_shell, zoom. rewrite drain_run.
  destruct (drain_stop (rxq (RemoteShell d))) as [[]|e0] eqn:E;
    intros H; [discriminate|].
  injection H as <- _. apply HP. exact (drain_stop_fault _ _ E).
Qed.

Lemma ro_sleep (P : exn -> Prop) n : raises_only P (on_shell (sleep n)).
Proof. intros d e d' H. discriminate. Qed.

Lemma ro_Device_logout (P : exn -> Prop) : raises_only P Device_logout.
Proof.
  intros d e d'. unfold Device_logout, try_except, bind, on_shell, zoom,
    shell_close, client_close, ret.
  destruct d as [v h u p [q t cf ccf sn cc ccc]]; cbn.
  destruct cf as [[]|]; cbn; try discriminate.
  destruct ccf as [[]|]; cbn; discriminate.
Qed.

Ltac ro_tac :=
  repeat match goal with
    | |- raises_only _ (on_shell (send _)) =>
        apply ro_send; unfold dialogue_fault, stream_fault; tauto
    | |- raises_only _ (on_shell (drain _ _)) =>
        apply ro_drain; unfold dialogue_fault, stream_fault; tauto
    | |- raises_only _ (on_shell drain_discard) =>
        apply ro_drain; unfold dialogue_fault, stream_fault; tauto
    | |- raises_only _ (on_shell (drain_last _ _)) =>
        apply ro_drain; unfold dialogue_fault, stream_fault; tauto
    | |- raises_only _ (on_shell (sleep _)) => apply ro_sleep
    | |- raises_only _ Device_logout => apply ro_Device_logout
    | |- raises_only _ (ret _) => apply ro_ret
    | |- raises_only _ (gets _) => apply ro_gets
    | |- raises_only _ (raise _) =>
        apply ro_raise; unfold dialogue_fault, stream_fault; tauto
    | |- raises_only _ (bind _ _) => apply ro_bind; [|intros ?]
    | |- raises_only _ (if _ then _ else _) => apply ro_if
    | |- raises_only _ (match ?x with _ => _ end) => destruct x
    end.

Ltac unhandled :=
  let e := fresh "e" in
  let H := fresh "H" in
  unfold dialogue_fault, stream_fault, transport_fault;
  intros e H; intros;
  repeat match goal with
    | H : _ \/ _ |- _ => destruct H as [H|H]
    end;
  subst; try discriminate; auto.

Lemma connect_returns peer u p d :
  exists b d', connect peer u p d = (Ret b, d').
Proof.
  unfold connect, bind, modify, try_except.
  cbn. destruct (handshake peer) as [[]|]; cbn; eexists; eexists; reflexivity.
Qed.

Lemma login_escapes d e d' :
  login d = (Raise e, d') ->
  (variant d = CiscoIOS /\ e = UnicodeDecodeError)
  \/ (variant d = CiscoWLC
      /\ (e = UnicodeDecodeError \/ e = UnboundLocalError)).
Proof.
  unfold login. destruct (variant d) eqn:V.
  + discriminate.
  + intros H. left. split; [reflexivity|].
    assert (raises_only (fun x => x = UnicodeDecodeError)
              DeviceCiscoIOS_login) as R.
    { unfold DeviceCiscoIOS_login.
      apply (ro_try _ stream_fault); [ro_tac | apply ro_ret | unhandled]. }
    exact (R _ _ _ H).
  + intros H. right. split; [reflexivity|].
    assert (raises_only
              (fun x => x = UnicodeDecodeError \/ x = UnboundLocalError)
              DeviceCiscoWLC_login) as R.
    { unfold DeviceCiscoWLC_login.
      apply (ro_try _ dialogue_fault); [ro_tac | apply ro_ret | unhandled]. }
    exact (R _ _ _ H).
  + discriminate.
Qed.

Lemma superuser_escapes pass d e d' :
  superuser pass d = (Raise e, d') ->
  (variant d = CiscoIOS /\ (e = OSError \/ e = UnicodeDecodeError))
  \/ (variant d = Linux /\ e = OSError).
Proof.
  unfold superuser. destruct (variant d) eqn:V.
  + discriminate.
  + intros H. left. split; [reflexivity|].
    assert (raises_only (fun x => x = OSError \/ x = UnicodeDecodeError)
              (DeviceCiscoIOS_superuser pass)) as R.
    { unfold DeviceCiscoIOS_superuser.
      apply (ro_try _ stream_fault); [ro_tac | apply ro_ret | unhandled]. }
    exact (R _ _ _ H).
  + discriminate.
  + intros H. right. split; [reflexivity|].
    assert (raises_only (fun x => x = OSError)
              (DeviceLinux_superuser pass)) as R.
    { unfold DeviceLinux_superuser.
      apply (ro_try _ stream_fault);
        [ | apply ro_ret
          | unfold stream_fault, transport_fault; intros x [[->| ->]| ->];
            (discriminate || reflexivity) ].
      repeat match goal with
        | |- raises_only _ (bind _ _) => apply ro_bind; [|intros ?]
        | |- raises_only _ (on_shell (send _)) =>
            apply ro_send; unfold stream_fault; tauto
        | |- raises_only _ (on_shell drain_discard) =>
            apply ro_drain; unfold stream_fault; tauto
        | |- raises_only _ (on_shell (drain_last _ _)) =>
            apply ro_drain; unfold stream_fault; tauto
        | |- raises_only _ (on_shell (sleep _)) => apply ro_sleep
        | |- raises_only _ (ret _) => apply ro_ret
        | |- raises_only _ (if _ then _ else _) => apply ro_if
        end. }
    exact (R _ _ _ H).
Qed.

Lemma logout_escapes d e d' :
  logout d = (Raise e, d') ->
  (variant d = CiscoIOS \/ variant d = CiscoWLC)
  /\ e = UnicodeDecodeError.
Proof.
  unfold logout. destruct (variant d) eqn:V.
  + intros H. exfalso. exact (ro_Device_logout (fun _ => False) _ _ _ H).
  + intros H. split; [now left|].
    assert (raises_only (fun x => x = UnicodeDecodeError)
              DeviceCiscoIOS_logout) as R.
    { unfold DeviceCiscoIOS_logout, DeviceCiscoIOS_farewell.
      apply (ro_try _ stream_fault); [ro_tac | apply ro_ret | unhandled]. }
    exact (R _ _ _ H).
  + intros H. split; [now right|].
    assert (raises_only (fun x => x = UnicodeDecodeError)
              DeviceCiscoWLC_logout) as R.
    { unfold DeviceCiscoWLC_logout, DeviceCiscoWLC_farewell.
      apply (ro_try _ stream_fault); [ro_tac | apply ro_ret | unhandled]. }
    exact (R _ _ _ H).
  + intros H. exfalso.
    assert (raises_only (fun _ => False) DeviceLinux_logout) as R.
    { unfold DeviceLinux_logout, DeviceLinux_farewell.
      apply (ro_try _ transport_fault);
        [ | apply ro_ret
          | unfold transport_fault; intros x [->| ->]; discriminate ].
      repeat match goal with
        | |- raises_only _ (bind _ _) => apply ro_bind; [|intros ?]
        | |- raises_only _ (on_shell (send _)) => apply ro_send; tauto
        | |- raises_only _ (on_shell (sleep _)) => apply ro_sleep
        | |- raises_only _ Device_logout => apply ro_Device_logout
        | |- raises_only _ (ret _) => apply ro_ret
        end. }
    exact (R _ _ _ H).
Qed.

(** X3.  The exceptions that can leave each method of a device.
    [connect] never raises.  [run] raises only the UnicodeEncodeError of
    a write of the file it is handed, so it returns whenever that file
    accepts every write.  No method lets an SSHException leave.  [login]
    raises only on Cisco IOS (a decode error) and on Cisco WLC (a decode
    error, or the unassigned [data]); [superuser] raises only on Cisco
    IOS (a socket error or a decode error) and on Linux (a socket error);
    [logout] raises only on Cisco IOS and Cisco WLC, and only a decode
    error. *)
Theorem escaping_exceptions :
  (forall peer u p d e d', connect peer u p d <> (Raise e, d'))
  /\ (forall cmds d out e st',
        Devices.run cmds (d, out) = (Raise e, st') ->
        e = UnicodeEncodeError /\ In (WriteFails EncodeFault) (wq out))
  /\ (forall cmds d out,
        accepting (wq out) = true ->
        exists b st', Devices.run cmds (d, out) = (Ret b, st'))
  /\ (forall d e d',
        login d = (Raise e, d') ->
        (variant d = CiscoIOS /\ e = UnicodeDecodeError)
        \/ (variant d = CiscoWLC
            /\ (e = UnicodeDecodeError \/ e = UnboundLocalError)))
  /\ (forall pass d e d',
        superuser pass d = (Raise e, d') ->
        (variant d = CiscoIOS /\ (e = OSError \/ e = UnicodeDecodeError))
        \/ (variant d = Linux /\ e = OSError))
  /\ (forall d e d',
        logout d = (Raise e, d') ->
        (variant d = CiscoIOS \/ variant d = CiscoWLC)
        /\ e = UnicodeDecodeError).
Proof.
  split; [|split; [|split; [|split; [|split]]]].
  - intros peer u p d e d' H.
    destruct (connect_returns peer u p d) as [b [d1 E]].
    rewrite E in H. discriminate.
  - intros cmds d out e st'. apply RunFacts.run_raises_encode.
  - intros cmds d out Hacc.
    destruct (RunFacts.run_shape_accepting cmds d out Hacc)
      as [b [d1 [o1 [cp [cs [l [E _]]]]]]].
    now exists b, (d1, o1).
  - exact login_escapes.
  - exact superuser_escapes.
  - exact logout_escapes.
Qed.

(** *** What touches the closing of a session *)

Lemma cu_refl d : closing_untouched d d.
Proof. repeat split. Qed.

Lemma cu_trans d1 d2 d3 :
  closing_untouched d1 d2 -> closing_untouched d2 d3 ->
  closing_untouched d1 d3.
Proof.
  unfold closing_untouched, no_close_between.
  intros [[A B] [C D]] [[E F] [G H]]. repeat split; congruence.
Qed.

Lemma cu_send text : keeps closing_untouched (on_shell (send text)).
Proof.
  intros d. unfold on_shell, zoom. rewrite send_run. repeat split.
Qed.

Lemma cu_drain {A} (step : A -> string -> A) acc :
  keeps closing_untouched (on_shell (drain step acc)).
Proof.
  intros d. unfold on_shell, zoom. rewrite drain_run. repeat split.
Qed.

Lemma cu_sleep n : keeps closing_untouched (on_shell (sleep n)).
Proof. intros d. repeat split. Qed.

Ltac cu_tac :=
  repeat match goal with
    | |- keeps _ (on_shell (send _)) => apply cu_send
    | |- keeps _ (on_shell (drain _ _)) => apply cu_drain
    | |- keeps _ (on_shell drain_discard) => apply cu_drain
    | |- keeps _ (on_shell (drain_last _ _)) => apply cu_drain
    | |- keeps _ (on_shell (sleep _)) => apply cu_sleep
    | |- keeps _ (ret _) => apply (keeps_ret _ cu_refl)
    | |- keeps _ (raise _) => apply (keeps_raise _ cu_refl)
    | |- keeps _ (gets _) => apply (keeps_gets _ cu_refl)
    | |- keeps _ (try_except _ _ _) => apply (keeps_try _ cu_trans)
    | |- keeps _ (bind _ _) => apply (keeps_bind _ cu_trans); [|intros ?]
    | |- keeps _ (if _ then _ else _) => apply (keeps_if _)
    | |- keeps _ (match ?x with _ => _ end) => destruct x
    end.

Lemma login_cu : keeps closing_untouched login.
Proof.
  intros d. unfold login. destruct (variant d); revert d;
    [ change (keeps closing_untouched Device_login)
    | change (keeps closing_untouched DeviceCiscoIOS_login)
    | change (keeps closing_untouched DeviceCiscoWLC_login)
    | change (keeps closing_untouched Device_login) ];
    unfold Device_login, DeviceCiscoIOS_login, DeviceCiscoWLC_login; cu_tac.
Qed.

Lemma superuser_cu pass : keeps closing_untouched (superuser pass).
Proof.
  intros d. unfold superuser. destruct (variant d); revert d;
    [ change (keeps closing_untouched (Device_superuser pass))
    | change (keeps closing_untouched (DeviceCiscoIOS_superuser pass))
    | change (keeps closing_untouched (Device_superuser pass))
    | change (keeps closing_untouched (DeviceLinux_superuser pass)) ];
    unfold Device_superuser, DeviceCiscoIOS_superuser, DeviceLinux_superuser;
    cu_tac.
Qed.

Lemma farewell_cu : keeps closing_untouched farewell.
Proof.
  intros d. unfold farewell. destruct (variant d); revert d;
    [ change (keeps closing_untouched (ret tt))
    | change (keeps closing_untouched DeviceCiscoIOS_farewell)
    | change (keeps closing_untouched DeviceCiscoWLC_farewell)
    | change (keeps closing_untouched DeviceLinux_farewell) ];
    unfold DeviceCiscoIOS_farewell, DeviceCiscoWLC_farewell,
      DeviceLinux_farewell; cu_tac.
Qed.

(** The same relation on the state of [run], which carries the file. *)
Lemma cu_drain_to_outfile :
  keeps (fun st st' : Device * File => closing_untouched (fst st) (fst st'))
        drain_to_outfile.
Proof.
  intros [d out]. rewrite RunFacts.drain_to_outfile_run. repeat split.
Qed.

Lemma cu_on_self {A} (c : M Device A) :
  keeps closing_untouched c ->
  keeps (fun st st' : Device * File => closing_untouched (fst st) (fst st'))
        (on_self c).
Proof.
  intros H [d out]. unfold on_self, zoom. cbn [fst snd].
  specialize (H d). destruct (c d) as [r d']. exact H.
Qed.

Ltac cu_file_tac :=
  repeat match goal with
    | |- keeps _ (on_self _) => apply cu_on_self
    | |- keeps _ drain_to_outfile => apply cu_drain_to_outfile
    | |- keeps _ (ret _) => apply keeps_ret; intros ?; apply cu_refl
    | |- keeps _ (raise _) => apply keeps_raise; intros ?; apply cu_refl
    | |- keeps _ (try_except _ _ _) =>
        apply keeps_try; [intros ? ? ?; apply cu_trans | |]
    | |- keeps _ (bind _ _) =>
        apply keeps_bind; [intros ? ? ?; apply cu_trans | | intros ?]
    | |- keeps _ (if _ then _ else _) => apply (keeps_if _)
    end.

Lemma run_commands_keeps_cu (cmds : list string) :
  keeps (fun st st' : Device * File => closing_untouched (fst st) (fst st'))
        (run_commands cmds).
Proof.
  induction cmds as [|cmd rest IH]; cbn [run_commands]; cu_file_tac;
    try exact IH; cu_tac.
Qed.

Lemma run_commands_cu (cmds : list string) :
  forall d out,
    closing_untouched d (fst (snd (run_commands cmds (d, out)))).
Proof. intros d out. exact (run_commands_keeps_cu cmds (d, out)). Qed.

Lemma run_cu (cmds : list string) (d : Device) (out : File) :
  closing_untouched d (fst (snd (Devices.run cmds (d, out)))).
Proof.
  assert (keeps (fun st st' : Device * File =>
                   closing_untouched (fst st) (fst st'))
                (Devices.run cmds)) as H.
  { unfold Devices.run. cu_file_tac. apply run_commands_keeps_cu. }
  exact (H (d, out)).
Qed.

(** X4.  Only [logout] closes a session: whatever [login], [superuser]
    and [run] do and however they end, neither [RemoteShell.close()] nor
    [SSHClient.close()] has been invoked when they are done. *)
Theorem only_logout_closes :
  (forall d, no_close_between d (snd (login d)))
  /\ (forall pass d, no_close_between d (snd (superuser pass d)))
  /\ (forall cmds d out,
        no_close_between d (fst (snd (Devices.run cmds (d, out))))).
Proof.
  split; [|split].
  - intros d. apply login_cu.
  - intros pass d. apply superuser_cu.
  - intros cmds d out. apply run_cu.
Qed.

(** *** A logout whose dialogue completes *)

Lemma Device_logout_run (d : Device) :
  exists d',
    Device_logout d = (Ret (generic_logout_value (RemoteShell d)), d')
    /\ close_calls (RemoteShell d') = S (close_calls (RemoteShell d))
    /\ client_close_calls (RemoteShell d')
       = client_close_calls (RemoteShell d) + client_closes (RemoteShell d).
Proof.
  destruct d as [v h u p [q t cf ccf sn cc ccc]].
  unfold Device_logout, try_except, bind, on_shell, zoom, shell_close,
    client_close, ret, generic_logout_value, client_closes.
  cbn. destruct cf as [[]|]; cbn;
    try (eexists; split; [reflexivity|]; split; [reflexivity | cbn; lia]).
  destruct ccf as [[]|]; cbn;
    eexists; (split; [reflexivity|]; split; [reflexivity | cbn; lia]).
Qed.

(** X5.  When the dialogue before closing completes, [logout] invokes the
    close of the channel exactly once, and the close of the client once
    unless the close of the channel raised.  The generic device then
    returns True when both closes passed and None when one raised; the
    three vendor devices return True whatever the closes did. *)
Theorem logout_closes_once (d d1 : Device) :
  farewell d = (Ret tt, d1) ->
  exists d2,
    logout d
    = (Ret (match variant d with
            | Generic => generic_logout_value (RemoteShell d)
            | _ => Some true
            end), d2)
    /\ close_calls (RemoteShell d2) = S (close_calls (RemoteShell d))
    /\ client_close_calls (RemoteShell d2)
       = client_close_calls (RemoteShell d) + client_closes (RemoteShell d).
Proof.
  intros Hf.
  pose proof (farewell_cu d) as Hcu. rewrite Hf in Hcu. cbn [snd] in Hcu.
  destruct Hcu as [[C1 C2] [F1 F2]].
  destruct (Device_logout_run d1) as [d2 [E [K1 K2]]].
  assert (client_closes (RemoteShell d1) = client_closes (RemoteShell d))
    as Hcc by (unfold client_closes; now rewrite F1).
  assert (generic_logout_value (RemoteShell d1)
          = generic_logout_value (RemoteShell d))
    as Hgv by (unfold generic_logout_value; now rewrite F1, F2).
  exists d2. rewrite K1, K2, C1, C2, Hcc. split; [|split; reflexivity].
  revert Hf. unfold farewell, logout.
  destruct (variant d); intros Hf.
  - injection Hf as Hd. subst d1. now rewrite E.
  - unfold DeviceCiscoIOS_logout.
    erewrite try_run;
      [| erewrite bind_run by exact Hf; cbv beta iota;
         erewrite bind_run by exact E; reflexivity].
    reflexivity.
  - unfold DeviceCiscoWLC_logout.
    erewrite try_run;
      [| erewrite bind_run by exact Hf; cbv beta iota;
         erewrite bind_run by exact E; reflexivity].
    reflexivity.
  - unfold DeviceLinux_logout.
    erewrite try_run;
      [| erewrite bind_run by exact Hf; cbv beta iota;
         erewrite bind_run by exact E; reflexivity].
    reflexivity.
Qed.

Lemma logout_closes_once_witness :
  farewell ios_bad_close = (Ret tt, snd (farewell ios_bad_close))
  /\ fst (logout ios_bad_close) = Ret (Some true)
  /\ close_calls (RemoteShell (snd (logout ios_bad_close))) = 1
  /\ client_close_calls (RemoteShell (snd (logout ios_bad_close))) = 0.
Proof.
  assert (farewell ios_bad_close = (Ret tt, snd (farewell ios_bad_close)))
    as Hf by (vm_compute; reflexivity).
  split; [exact Hf|].
  destruct (logout_closes_once ios_bad_close _ Hf) as [d2 [E [K1 K2]]].
  rewrite E. cbn [fst snd]. rewrite K1, K2. repeat split.
Defined.

(** X6.  When the logout of a Cisco WLC returns True, it has typed "end"
    and "exit", and after them "No" only if the text drained after "exit"
    holds "save?"; when that text lacks "save?", "end" and "exit" are all
    it typed.  It never types anything else: the changes are not saved. *)
Theorem wlc_logout_declines_save (d d' : Device) :
  variant d = CiscoWLC ->
  logout d = (Ret (Some true), d') ->
  exists t,
    drained_text (rxq (RemoteShell d)) = Some t
    /\ (sent (RemoteShell d')
        = app (sent (RemoteShell d)) ["end " ++ nl; "exit " ++ nl]
        \/ (Substring "save?" t
            /\ sent (RemoteShell d')
               = app (sent (RemoteShell d))
                     ["end " ++ nl; "exit " ++ nl; "No " ++ nl]))
    /\ (~ Substring "save?" t ->
        sent (RemoteShell d')
        = app (sent (RemoteShell d)) ["end " ++ nl; "exit " ++ nl]).
Proof.
  destruct d as [v h u p [q tq cf ccf sn cc ccc]].
  cbn [variant RemoteShell]. intros ->.
  unfold logout. cbn [variant].
  unfold DeviceCiscoWLC_logout, DeviceCiscoWLC_farewell. dialogue.
  prim. norm.
  destruct (send_outcome _ tq) as [n1|e1] eqn:E1; [|escape].
  prim. norm.
  destruct (send_outcome _ (tl tq)) as [n2|e2] eqn:E2; [|escape].
  prim. norm.
  destruct (drain_stop q) as [[]|e0] eqn:E0; [|escape].
  unfold drained_text. cbn [rxq]. rewrite E0.
  destruct (Z.eqb_spec
              (find (fold_left (fun _ t0 : string => id t0)
                       (drain_chunks q) "") "save?")
              (-1)) as [F|F]; norm.
  - destruct cf as [[]|]; cbn; try (destruct ccf as [[]|]; cbn);
      intros H; injection H as <-;
      (eexists; split; [reflexivity|]; split;
       [left; cbn; now rewrite <- app_assoc
       | intros _; cbn; now rewrite <- app_assoc]).
  - apply find_found_iff, (last_chunk_in_text _ "") in F.
    prim. norm.
    destruct (send_outcome _ (tl (tl tq))) as [n3|e3] eqn:E3; [|escape].
    destruct cf as [[]|]; cbn; try (destruct ccf as [[]|]; cbn);
      intros H; injection H as <-;
      (eexists; split; [reflexivity|]; split;
       [right; split; [exact F | cbn; now rewrite <- !app_assoc]
       | intros Habs; now elim Habs]).
Qed.

Lemma wlc_logout_declines_save_witness :
  variant wlc_unsaved = CiscoWLC
  /\ fst (logout wlc_unsaved) = Ret (Some true)
  /\ exists t, drained_text (rxq (RemoteShell wlc_unsaved)) = Some t.
Proof.
  split; [reflexivity|].
  assert (logout wlc_unsaved = (Ret (Some true), snd (logout wlc_unsaved)))
    as E by (vm_compute; reflexivity).
  split; [now rewrite E|].
  destruct (wlc_logout_declines_save wlc_unsaved _ eq_refl E)
    as [t [Ht _]].
  exists t. exact Ht.
Defined.

(** *** What the command runner types *)

Lemma ends_fault cp cs q e :
  ends cp cs q (Raise e) -> stream_fault e \/ e = UnicodeEncodeError.
Proof.
  unfold ends, stream_fault, transport_fault.
  destruct (refusal (texts cp) q) as [[|]|].
  - intros [H _]. injection H as ->. now right.
  - intros [H _]. injection H as ->. left. left. now right.
  - intros [_ H]. left. destruct e; cbn in H; try discriminate H; tauto.
Qed.

Lemma run_commands_typed (cmds : list string) :
  forall d out, exists r d' out' n,
    run_commands cmds (d, out) = (r, (d', out'))
    /\ n <= length cmds
    /\ sent (RemoteShell d')
       = app (sent (RemoteShell d)) (typed (firstn n cmds))
    /\ (r = Ret tt -> n = length cmds)
    /\ (forall e, r = Raise e -> stream_fault e \/ e = UnicodeEncodeError).
Proof.
  induction cmds as [|cmd rest IH]; intros d out.
  - exists (Ret tt), d, out, 0. cbn. rewrite app_nil_r.
    split; [reflexivity|]. split; [lia|]. split; [reflexivity|].
    split; [reflexivity | discriminate].
  - cbn [run_commands]. unfold bind at 1.
    unfold on_self, on_shell, zoom. cbn [fst snd]. rewrite send_run.
    pose (d1 := set_shell (after_send (cmd ++ nl) (RemoteShell d)) d).
    fold d1.
    assert (sent (RemoteShell d1)
            = app (sent (RemoteShell d)) (typed (firstn 1 (cmd :: rest))))
      as S1 by reflexivity.
    assert (1 <= length (cmd :: rest)) as L1 by (cbn; lia).
    destruct (RunFacts.trace_drain d1 out)
      as [r2 [d2 [out2 [cp [rest2 [E2 [_ [_ [_ [_ [He2 [_ [_ S2]]]]]]]]]]]]].
    destruct (txq (RemoteShell d)) as [|[[|n]|f] tq]; cbn [send_outcome].
    1, 3:
      (try (destruct (Nat.eqb_spec (String.length (cmd ++ nl)) 0) as [Hz|Hz];
            [now apply RunFacts.typed_length in Hz|]);
       cbn [Nat.eqb];
       unfold bind at 1; cbn [ret]; unfold bind at 1;
       unfold sleep, ret; cbn [fst snd];
       change (set_shell (RemoteShell d1) d1) with d1;
       unfold bind at 1;
       match goal with
       | |- context [drain_to_outfile ?st] =>
           assert (drain_to_outfile st = (r2, (d2, out2))) as E2'
             by exact E2;
           rewrite E2'
       end;
       destruct r2 as [[]|e2];
       [ destruct (IH d2 out2) as [r [d3 [out3 [k [E [L [Sn [Hr He]]]]]]]];
         exists r, d3, out3, (S k); split; [exact E|];
         split; [cbn; lia|]; split;
         [ rewrite Sn, S2, S1; cbn; now rewrite <- app_assoc
         | split; [intros H; cbn; f_equal; exact (Hr H) | exact He] ]
       | exists (Raise e2), d2, out2, 1; split; [reflexivity|];
         split; [exact L1|]; split; [now rewrite S2|];
         split; [discriminate|];
         intros e H; injection H as <-; exact (ends_fault _ _ _ _ He2) ]).
    + cbn. exists (Raise OSError), d1, out, 1.
      split; [reflexivity|]. split; [exact L1|]. split; [exact S1|].
      split; [discriminate|]. intros e H. injection H as <-.
      left. left. now right.
    + exists (Raise (exn_of f)), d1, out, 1.
      split; [reflexivity|]. split; [exact L1|]. split; [exact S1|].
      split; [discriminate|]. intros e H. injection H as <-.
      left. left. destruct f; [left | right]; reflexivity.
Qed.

Lemma run_handles_stream (e : exn) :
  stream_fault e ->
  handles [SSHException; OSError; UnicodeDecodeError] e = true.
Proof. intros [[-> | ->] | ->]; reflexivity. Qed.

Lemma run_typed (cmds : list string) (d : Device) (out : File) :
  exists r d' out' n,
    Devices.run cmds (d, out) = (r, (d', out'))
    /\ n <= length cmds
    /\ sent (RemoteShell d')
       = app (sent (RemoteShell d)) (typed (firstn n cmds))
    /\ (r = Ret true -> n = length cmds)
    /\ (forall e, r = Raise e -> e = UnicodeEncodeError).
Proof.
  unfold Devices.run, try_except. unfold bind at 1.
  destruct (RunFacts.trace_drain d out)
    as [r1 [d1 [out1 [cp [rest1 [E1 [_ [_ [_ [_ [He1 [_ [_ S1]]]]]]]]]]]]].
  rewrite E1. destruct r1 as [[]|e1].
  - unfold bind at 1.
    destruct (run_commands_typed cmds d1 out1)
      as [r [d2 [out2 [n [E [L [Sn [Hr He]]]]]]]].
    rewrite E.
    destruct r as [[]|e2].
    + exists (Ret true), d2, out2, n. split; [reflexivity|].
      split; [exact L|]. split; [now rewrite Sn, S1|].
      split; [intros _; now apply Hr | discriminate].
    + destruct (He _ eq_refl) as [F| ->].
      * rewrite (run_handles_stream e2 F).
        exists (Ret false), d2, out2, n. split; [reflexivity|].
        split; [exact L|]. split; [now rewrite Sn, S1|].
        split; discriminate.
      * cbn [handles existsb exn_eqb orb].
        exists (Raise UnicodeEncodeError), d2, out2, n.
        split; [reflexivity|].
        split; [exact L|]. split; [now rewrite Sn, S1|].
        split; [discriminate|]. intros e H. now injection H as <-.
  - destruct (ends_fault _ _ _ _ He1) as [F| ->].
    + rewrite (run_handles_stream e1 F).
      exists (Ret false), d1, out1, 0. split; [reflexivity|].
      split; [lia|].
      split; [cbn [firstn typed map]; now rewrite app_nil_r, S1|].
      split; discriminate.
    + cbn [handles existsb exn_eqb orb].
      exists (Raise UnicodeEncodeError), d1, out1, 0.
      split; [reflexivity|].
      split; [lia|].
      split; [cbn [firstn typed map]; now rewrite app_nil_r, S1|].
      split; [discriminate|]. intros e H. now injection H as <-.
Qed.

(** X7.  [run] types the commands in the order of the list, each one
    once and followed by a line feed, and nothing else.  When it returns
    True every command was typed; otherwise a prefix of the list was
    typed, up to the command at which the failure occurred.  It returns
    a boolean whenever the file accepts every write, and the only
    exception that leaves it is the UnicodeEncodeError of a write. *)
Theorem run_types_in_order (cmds : list string) (d : Device) (out : File) :
  exists r d' out' n,
    Devices.run cmds (d, out) = (r, (d', out'))
    /\ n <= length cmds
    /\ sent (RemoteShell d')
       = app (sent (RemoteShell d)) (typed (firstn n cmds))
    /\ (r = Ret true -> n = length cmds)
    /\ (accepting (wq out) = true -> exists b, r = Ret b)
    /\ (forall e, r = Raise e -> e = UnicodeEncodeError).
Proof.
  destruct (run_typed cmds d out)
    as [r [d' [out' [n [E [L [Sn [Hr He]]]]]]]].
  exists r, d', out', n. split; [exact E|]. split; [exact L|].
  split; [exact Sn|]. split; [exact Hr|]. split; [|exact He].
  intros Hacc.
  destruct (RunFacts.run_shape_accepting cmds d out Hacc)
    as [b [d1 [o1 [cp [cs [l [E' _]]]]]]].
  rewrite E in E'. exists b. congruence.
Qed.

(** *** What the dialogues do not check *)

(** The drain loop of [run] on a queue whose chunks all decode ends as
    the writes of its chunks do. *)
Lemma drain_write_stop (q : list poll) :
  forall out,
    drain_stop q = Ret tt ->
    fst (fst (drain_write q out))
    = match refusal (drain_chunks q) (wq out) with
      | Some f => Raise (exn_of_sink f)
      | None => Ret tt
      end.
Proof.
  induction q as [|[t| |e|] q IH]; intros out H;
    cbn [drain_write drain_stop drain_chunks] in *;
    try discriminate H; try reflexivity.
  unfold write. destruct (wq out) as [|[|f] w'] eqn:W;
    cbn [refusal]; [| |reflexivity].
  - rewrite (IH _ H). cbn [wq]. now rewrite RunFacts.refusal_nil.
  - rewrite (IH _ H). reflexivity.
Qed.

(** X26.  The login of Cisco IOS does not look at what [send] returns:
    when the pending text decodes and the send does not raise, it
    returns True and counts "terminal length 0" as typed, also when the
    channel accepted no byte of it.  The command runner on the same
    session does not return True in that case: it returns False, unless
    a write of the pending text raised UnicodeEncodeError, which leaves
    it; so it returns False whenever the file accepts every write. *)
Theorem ios_login_ignores_short_send (d : Device) (n : nat)
    (q : list sendres) :
  variant d = CiscoIOS ->
  drain_stop (rxq (RemoteShell d)) = Ret tt ->
  txq (RemoteShell d) = Accepts n :: q ->
  (exists d',
     login d = (Ret true, d')
     /\ sent (RemoteShell d')
        = app (sent (RemoteShell d)) ["terminal length 0 " ++ nl]
     /\ txq (RemoteShell d') = q)
  /\ (n = 0 ->
      forall cmd rest out,
        fst (Devices.run (cmd :: rest) (d, out))
        = match refusal (drain_chunks (rxq (RemoteShell d))) (wq out) with
          | Some EncodeFault => Raise UnicodeEncodeError
          | _ => Ret false
          end)
  /\ (n = 0 ->
      forall cmd rest out,
        accepting (wq out) = true ->
        fst (Devices.run (cmd :: rest) (d, out)) = Ret false).
Proof.
  destruct d as [v h u p [rq tq cf ccf sn cc ccc]].
  cbn [variant RemoteShell rxq txq]. intros -> Hd ->.
  assert (forall cmd rest out,
            fst (Devices.run (cmd :: rest)
                   (mkDevice CiscoIOS h u p
                      (mkShell rq (Accepts 0 :: q) cf ccf sn cc ccc), out))
            = match refusal (drain_chunks rq) (wq out) with
              | Some EncodeFault => Raise UnicodeEncodeError
              | _ => Ret false
              end) as R.
  { intros cmd rest out. unfold Devices.run, try_except.
    unfold bind at 1. rewrite RunFacts.drain_to_outfile_run.
    cbn [RemoteShell rxq]. rewrite (drain_write_stop rq out Hd).
    destruct (refusal (drain_chunks rq) (wq out)) as [[|]|];
      [reflexivity | reflexivity |].
    cbn [run_commands]. unfold bind, on_self, on_shell, zoom.
    cbn [fst snd RemoteShell]. rewrite send_run. reflexivity. }
  split; [|split].
  - unfold login. cbn [variant]. unfold DeviceCiscoIOS_login. dialogue.
    prim. norm. rewrite Hd.
    eexists. split; [reflexivity|]. cbn. split; reflexivity.
  - intros -> cmd rest out. apply R.
  - intros -> cmd rest out Hacc. rewrite R.
    now destruct (RunFacts.accepting_refusal (drain_chunks rq) (wq out) Hacc)
      as [-> _].
Qed.

Lemma ios_login_ignores_short_send_witness :
  fst (login ios_deaf) = Ret true
  /\ fst (Devices.run ["show version"] (ios_deaf, mkFile [] [])) = Ret false.
Proof.
  destruct (ios_login_ignores_short_send ios_deaf 0 []
              eq_refl eq_refl eq_refl) as [[d' [E _]] [_ R]].
  split; [now rewrite E | exact (R eq_refl _ _ (mkFile [] []) eq_refl)].
Defined.

(** X27.  What a logout that returns True has typed: nothing on the
    generic device, "end" and "exit" on Cisco IOS, "logout" on Linux,
    each followed by a line feed; and the close of the channel has
    then been invoked once. *)
Theorem logout_last_words (d d' : Device) :
  variant d <> CiscoWLC ->
  logout d = (Ret (Some true), d') ->
  sent (RemoteShell d')
  = app (sent (RemoteShell d))
        match variant d with
        | CiscoIOS => ["end " ++ nl; "exit " ++ nl]
        | Linux => ["logout " ++ nl]
        | _ => []
        end
  /\ close_calls (RemoteShell d') = S (close_calls (RemoteShell d)).
Proof.
  destruct d as [v h u p [rq tq cf ccf sn cc ccc]].
  cbn [variant RemoteShell sent close_calls]. intros Hv.
  unfold logout. cbn [variant]. destruct v; [| | contradiction |].
  - unfold Device_logout, shell_close, client_close. dialogue.
    destruct cf as [[]|]; cbn; try discriminate;
      destruct ccf as [[]|]; cbn; try discriminate;
      intros H; injection H as <-; cbn; now rewrite app_nil_r.
  - unfold DeviceCiscoIOS_logout, DeviceCiscoIOS_farewell, Device_logout,
      shell_close, client_close. dialogue.
    prim. norm.
    destruct (drain_stop rq) as [[]|e0]; [|escape].
    prim. norm.
    destruct (send_outcome _ tq) as [n1|e1]; [|escape].
    prim. norm.
    destruct (send_outcome _ (tl tq)) as [n2|e2]; [|escape].
    destruct cf as [[]|]; cbn; try (destruct ccf as [[]|]; cbn);
      intros H; injection H as <-; cbn; now rewrite <- app_assoc.
  - unfold DeviceLinux_logout, DeviceLinux_farewell, Device_logout,
      shell_close, client_close. dialogue.
    prim. norm.
    destruct (send_outcome _ tq) as [n1|e1]; [|escape].
    destruct cf as [[]|]; cbn; try (destruct ccf as [[]|]; cbn);
      intros H; injection H as <-; cbn; split; reflexivity.
Qed.

Lemma logout_last_words_witness :
  sent (RemoteShell (snd (logout linux_idle))) = ["logout " ++ nl]
  /\ close_calls (RemoteShell (snd (logout linux_idle))) = 1.
Proof.
  assert (variant linux_idle <> CiscoWLC) as Hv by discriminate.
  assert (logout linux_idle = (Ret (Some true), snd (logout linux_idle)))
    as E by (vm_compute; reflexivity).
  exact (logout_last_words linux_idle _ Hv E).
Defined.

End DeviceExtras.

(* ===================================================================== *)
(** ** More on the codec of passwords *)
(* ===================================================================== *)

Module CodecExtras.

Import Codec CodecObs CodecFacts.
Local Open Scope N_scope.

Lemma below_pow2 (n k : N) : n < 2 ^ k -> n = 0 \/ N.log2 n < k.
Proof.
  intros H. destruct (N.eq_dec n 0) as [->|Hz]; [now left | right].
  apply N.log2_lt_pow2; [lia | exact H].
Qed.

Lemma lor_below_256 (a b : N) : a < 256 -> b < 256 -> N.lor a b < 256.
Proof.
  change 256 with (2 ^ 8). intros Ha Hb.
  destruct (N.eq_dec (N.lor a b) 0) as [->|Hz]; [reflexivity|].
  apply N.log2_lt_pow2; [lia|]. rewrite N.log2_lor.
  destruct (below_pow2 a 8 Ha) as [->|La], (below_pow2 b 8 Hb) as [->|Lb];
    cbn [N.log2]; lia.
Qed.

Lemma land_63_below (x : N) : N.land x 63 < 256.
Proof.
  change 63 with (N.ones 6). rewrite N.land_ones.
  pose proof (N.mod_lt x (2 ^ 6)). cbn in *. lia.
Qed.

Lemma continuation_byte (x : N) : N.lor 128 (N.land x 63) < 256.
Proof. apply lor_below_256; [reflexivity | apply land_63_below]. Qed.

Lemma shiftr_below (c k bound : N) :
  c < bound * 2 ^ k -> N.shiftr c k < bound.
Proof.
  intros H. rewrite N.shiftr_div_pow2.
  apply N.Div0.div_lt_upper_bound. lia.
Qed.

Lemma some_eq {A} (x y : A) : Some x = Some y -> x = y.
Proof. congruence. Qed.

Ltac each_byte :=
  repeat match goal with
         | |- Forall _ (_ :: _) => apply Forall_cons
         | |- Forall _ [] => apply Forall_nil
         end.

(** What [encode("utf-8")] writes for one code point: bytes, one for a
    code point below 128 and two to four otherwise. *)
Lemma utf8_char_shape (c : N) (b : bytes) :
  c < 1114112 -> utf8_char c = Some b ->
  Forall (fun x => x < 256) b
  /\ (c < 128 -> b = [c])
  /\ (128 <= c -> (2 <= length b)%nat).
Proof.
  intros Hc. unfold utf8_char.
  destruct (N.ltb_spec c 128) as [H1|H1].
  { intros E. apply some_eq in E. subst b. split; [constructor; [lia | constructor]|].
    split; [reflexivity | lia]. }
  destruct (N.ltb_spec c 2048) as [H2|H2].
  { intros E. apply some_eq in E. subst b. split.
    - each_byte; [|apply continuation_byte].
      apply lor_below_256; [reflexivity|].
      pose proof (shiftr_below c 6 32). lia.
    - split; [lia | cbn; lia]. }
  destruct (N.ltb_spec c 65536) as [H3|H3].
  { destruct ((55296 <=? c) && (c <=? 57343)); [discriminate|].
    intros E. apply some_eq in E. subst b. split.
    - each_byte; try apply continuation_byte.
      apply lor_below_256; [reflexivity|].
      pose proof (shiftr_below c 12 16). lia.
    - split; [lia | cbn; lia]. }
  intros E. apply some_eq in E. subst b. split.
  - each_byte; try apply continuation_byte.
    apply lor_below_256; [reflexivity|].
    pose proof (shiftr_below c 18 5). lia.
  - split; [lia | cbn; lia].
Qed.

Lemma encode_utf8_shape (s : str) :
  valid_str s -> forall b, encode_utf8 s = Some b ->
  Forall (fun x => x < 256) b
  /\ (length s <= length b)%nat
  /\ (length b = length s -> ascii_only s).
Proof.
  induction 1 as [|c s Hc Hs IH]; intros b.
  - intros E. injection E as <-. repeat split; constructor.
  - cbn [encode_utf8].
    destruct (utf8_char c) as [bc|] eqn:Ec; [|discriminate].
    destruct (encode_utf8 s) as [bs|]; [|discriminate].
    intros E. injection E as <-.
    destruct (utf8_char_shape c bc Hc Ec) as [Fc [One Many]].
    destruct (IH bs eq_refl) as [Fs [Ls As]].
    split; [apply Forall_app; now split|].
    rewrite length_app. cbn [length]. split.
    + destruct (N.ltb_spec c 128) as [H|H].
      * rewrite (One H). cbn. lia.
      * specialize (Many H). lia.
    + intros L. destruct (N.ltb_spec c 128) as [H|H].
      * rewrite (One H) in L. cbn in L.
        constructor; [exact H | apply As; lia].
      * specialize (Many H). lia.
Qed.

Lemma join_chr_some (s s' : list N) :
  join_chr s = Some s' -> s' = s /\ valid_str s.
Proof.
  revert s'. induction s as [|c s IH]; intros s'; cbn [join_chr].
  - intros E. injection E as <-. split; [reflexivity | constructor].
  - unfold chr. destruct (N.ltb_spec c 1114112) as [H|H]; [|discriminate].
    destruct (join_chr s) as [t|]; [|discriminate].
    intros E. injection E as <-. destruct (IH t eq_refl) as [-> V].
    split; [reflexivity | now constructor].
Qed.

Lemma join_chr_valid (s : list N) : valid_str s -> join_chr s = Some s.
Proof.
  induction 1 as [|c s Hc _ IH]; [reflexivity|].
  cbn [join_chr]. rewrite IH. unfold chr.
  destruct (N.ltb_spec c 1114112); [reflexivity | lia].
Qed.

Lemma zip_cycle_length {A B} (xs : list A) (key cur : list B) :
  key <> [] -> length (zip_cycle xs key cur) = length xs.
Proof.
  intros Hk. revert cur. induction xs as [|x xs IH]; intros cur;
    [reflexivity|].
  cbn [zip_cycle]. destruct cur as [|y cur].
  - destruct key as [|y key'] eqn:E; [congruence|].
    cbn [length]. now rewrite IH.
  - cbn [length]. now rewrite IH.
Qed.

Lemma zip_cycle_empty_key {A B} (xs : list A) :
  zip_cycle xs (@nil B) [] = [].
Proof. destruct xs; reflexivity. Qed.

(** X8.  Exactly when the codec gives a password back.  For a key that
    is not empty, decrypting what [xor_crypt_string] returned gives the
    plaintext back if and only if every code point [ord(x) ^ ord(y)] is
    below 128: otherwise its UTF-8 form takes more than one byte and the
    decoder reads each byte as a character. *)
Theorem roundtrip_iff_scrambled_ascii (plaintext key : str) :
  key <> [] -> valid_str plaintext ->
  (roundtrip plaintext key = Some plaintext
   <-> ascii_only (scrambled plaintext key)).
Proof.
  intros Hk Hp. unfold scrambled, roundtrip. split.
  - unfold xor_crypt_string.
    destruct (join_chr _) as [s|] eqn:J; [|discriminate].
    apply join_chr_some in J. destruct J as [-> V].
    destruct (encode_utf8 _) as [b|] eqn:E; [|discriminate].
    destruct (encode_utf8_shape _ V b E) as [Fb [_ Ab]].
    unfold xor_decrypt_string. rewrite (unhexlify_hexlify b Fb).
    intros D. apply join_chr_some in D. destruct D as [D _].
    apply Ab. rewrite length_map, zip_cycle_length by exact Hk.
    apply (f_equal (@length N)) in D.
    rewrite length_map, zip_cycle_length in D by exact Hk. congruence.
  - intros As. unfold xor_crypt_string.
    rewrite (join_chr_ascii _ As), (encode_utf8_ascii _ As).
    unfold xor_decrypt_string.
    rewrite (unhexlify_hexlify _ (ascii_only_bytes _ As)).
    rewrite (xor_stream_involutive plaintext key key Hk).
    now apply join_chr_valid.
Qed.

Lemma roundtrip_iff_scrambled_ascii_witness :
  roundtrip [233; 112] [233; 2] = Some [233; 112]
  /\ roundtrip [233] [97] <> Some [233].
Proof.
  assert ([233; 2] <> (@nil N)) as K1 by discriminate.
  assert ([97] <> (@nil N)) as K2 by discriminate.
  assert (valid_str [233; 112]) as V1 by (repeat constructor).
  assert (valid_str [233]) as V2 by (repeat constructor).
  split.
  - apply (roundtrip_iff_scrambled_ascii [233; 112] [233; 2] K1 V1).
    repeat constructor.
  - intros R.
    apply (roundtrip_iff_scrambled_ascii [233] [97] K2 V2) in R.
    inversion R as [|x l H]. vm_compute in H. discriminate.
Defined.

(** X9.  With an empty key nothing is paired: the ciphertext of every
    plaintext is the empty text, and decrypting it gives the empty text.
    A password stored under an empty user name is lost. *)
Theorem empty_key_erases (plaintext : str) :
  xor_crypt_string plaintext [] = Some []
  /\ roundtrip plaintext [] = Some []
  /\ (plaintext <> [] -> roundtrip plaintext [] <> Some plaintext).
Proof.
  assert (xor_crypt_string plaintext [] = Some []) as E.
  { unfold xor_crypt_string. now rewrite zip_cycle_empty_key. }
  split; [exact E|]. unfold roundtrip. rewrite E.
  split; [reflexivity|]. cbn. congruence.
Qed.

Lemma unhexlify_rejects (s : str) :
  (Nat.odd (length s) = true -> unhexlify s = None)
  /\ (has_non_hex s -> unhexlify s = None).
Proof.
  assert (forall n (s : str), (length s <= n)%nat ->
            (Nat.odd (length s) = true -> unhexlify s = None)
            /\ (has_non_hex s -> unhexlify s = None)) as G.
  { clear s. induction n as [|n IH]; intros s L.
    - destruct s; [|cbn in L; lia]. split; [discriminate|].
      intros [x [[] _]].
    - destruct s as [|hi [|lo rest]].
      + split; [discriminate | intros [x [[] _]]].
      + split; reflexivity.
      + cbn [length] in L.
        destruct (IH rest ltac:(lia)) as [Ho Hn].
        cbn [unhexlify]. split.
        * intros O. change (Nat.odd (length rest) = true) in O.
          rewrite (Ho O).
          destruct (unhexdigit hi), (unhexdigit lo); reflexivity.
        * intros [x [[<-|[<-|I]] U]].
          -- now rewrite U.
          -- rewrite U. now destruct (unhexdigit hi).
          -- rewrite Hn by (exists x; now split).
             destruct (unhexdigit hi), (unhexdigit lo); reflexivity. }
  exact (G (length s) s (le_n _)).
Qed.

(** X10.  [xor_decrypt_string] raises on a ciphertext of odd length and
    on a ciphertext that holds a character other than a hex digit,
    whatever the key is: the hex decoding comes before the key is
    looked at. *)
Theorem decrypt_rejects_malformed (ciphertext key : str) :
  Nat.odd (length ciphertext) = true \/ has_non_hex ciphertext ->
  xor_decrypt_string ciphertext key = None.
Proof.
  intros H. unfold xor_decrypt_string.
  destruct (unhexlify_rejects ciphertext) as [Ho Hn].
  destruct H as [H|H]; [rewrite (Ho H) | rewrite (Hn H)]; reflexivity.
Qed.

Lemma decrypt_rejects_malformed_witness :
  xor_decrypt_string [52; 49; 52] [97] = None
  /\ xor_decrypt_string [52; 103] [] = None.
Proof.
  split.
  - apply decrypt_rejects_malformed. left. reflexivity.
  - apply decrypt_rejects_malformed. right. exists 103.
    split; [right; left; reflexivity | reflexivity].
Defined.

Lemma hexdigit_lower (n : N) : n < 16 -> is_lower_hex (hexdigit n) = true.
Proof.
  intros H. destruct n as [|p]; [reflexivity|].
  do 4 (destruct p as [p|p|]; try reflexivity); lia.
Qed.

Lemma hexlify_shape (b : bytes) :
  Forall (fun x => x < 256) b ->
  Forall (fun c => is_lower_hex c = true) (hexlify b)
  /\ length (hexlify b) = (2 * length b)%nat.
Proof.
  induction 1 as [|x b Hx _ [IH1 IH2]]; [split; [constructor | reflexivity]|].
  cbn [hexlify length]. split.
  - constructor; [|constructor; [|exact IH1]].
    + apply hexdigit_lower. apply N.Div0.div_lt_upper_bound. lia.
    + apply hexdigit_lower. apply N.mod_lt. lia.
  - rewrite IH2. lia.
Qed.

(** X11.  What [xor_crypt_string] returns is written with the characters
    0-9 and a-f only, two for each byte of the UTF-8 form of the
    scrambled text, and the hex decoding of [xor_decrypt_string] gives
    these bytes back: decrypting a stored password never fails on its
    format. *)
Theorem ciphertext_is_lower_hex (plaintext key ciphertext : str) :
  xor_crypt_string plaintext key = Some ciphertext ->
  exists b,
    encode_utf8 (scrambled plaintext key) = Some b
    /\ Forall (fun c => is_lower_hex c = true) ciphertext
    /\ length ciphertext = (2 * length b)%nat
    /\ (length plaintext <= length b \/ key = [])%nat
    /\ unhexlify ciphertext = Some b.
Proof.
  unfold xor_crypt_string, scrambled.
  destruct (join_chr _) as [s|] eqn:J; [|discriminate].
  apply join_chr_some in J. destruct J as [-> V].
  destruct (encode_utf8 _) as [b|] eqn:E; [|discriminate].
  intros H. injection H as <-. exists b.
  destruct (encode_utf8_shape _ V b E) as [Fb [Lb _]].
  destruct (hexlify_shape b Fb) as [H1 H2].
  split; [reflexivity|]. split; [exact H1|]. split; [exact H2|].
  split; [|now apply unhexlify_hexlify].
  destruct key as [|k key]; [now right | left].
  rewrite length_map, zip_cycle_length in Lb by discriminate. exact Lb.
Qed.

Lemma ciphertext_is_lower_hex_witness :
  xor_crypt_string [233] [97] = Some [99; 50; 56; 56]
  /\ exists b, unhexlify [99; 50; 56; 56] = Some b /\ length b = 2%nat.
Proof.
  assert (xor_crypt_string [233] [97] = Some [99; 50; 56; 56]) as E
    by reflexivity.
  split; [exact E|].
  destruct (ciphertext_is_lower_hex _ _ _ E) as [b [_ [_ [L [_ U]]]]].
  exists b. split; [exact U|]. cbn in L. lia.
Defined.

End CodecExtras.

(* ===================================================================== *)
(** ** More on the turns of a run *)
(* ===================================================================== *)

Module EngineExtras.

Import Text TextFacts Capture Observations EngineObs.
Import MonadFacts TransportFacts.
Import Devices Activity DeviceFacts EngineFacts DeviceExtras.

(** *** Statements that neither call the device nor replace it *)

Lemma steady_refl w : steady w w.
Proof. repeat split. Qed.

Lemma steady_trans w1 w2 w3 : steady w1 w2 -> steady w2 w3 -> steady w1 w3.
Proof.
  unfold steady. intros [A [B [C Q]]] [D [E [F R]]].
  repeat split; congruence.
Qed.

Ltac steady_tac :=
  repeat match goal with
    | |- keeps _ (ret _) => apply (keeps_ret _ steady_refl)
    | |- keeps _ (raise _) => apply (keeps_raise _ steady_refl)
    | |- keeps _ (gets _) => apply (keeps_gets _ steady_refl)
    | |- keeps _ (try_except _ _ _) => apply (keeps_try _ steady_trans)
    | |- keeps _ (bind _ _) => apply (keeps_bind _ steady_trans); [|intros ?]
    | |- keeps _ (if _ then _ else _) => apply (keeps_if _)
    | |- keeps _ (match ?x with _ => _ end) => destruct x
    | |- keeps _ (emit _) => intros ?; repeat split
    | |- keeps _ (modify (set_outputFile _)) => intros ?; repeat split
    | |- keeps _ (modify (set_logFile _)) => intros ?; repeat split
    | |- keeps _ (_writeLogFile _) => intros ?; repeat split
    | |- keeps _ now => intros ?; repeat split
    end.

Lemma open_w_steady path : keeps steady (open_w path).
Proof.
  intros w. unfold open_w. destruct (openq w) as [|[] q]; repeat split.
Qed.

Lemma timestampedFilename_steady base :
  keeps steady (timestampedFilename base).
Proof. unfold timestampedFilename. steady_tac. Qed.

Lemma openOutputFile_steady a f : keeps steady (_openOutputFile a f).
Proof. unfold _openOutputFile. steady_tac; apply open_w_steady. Qed.

Lemma openLogFile_steady a f : keeps steady (_openLogFile a f).
Proof. unfold _openLogFile. steady_tac; apply open_w_steady. Qed.

Lemma closeOutputFile_steady a : keeps steady (_closeOutputFile a).
Proof. unfold _closeOutputFile. steady_tac. Qed.


Lemma steady_step {A} (c : M World A) w r w1 :
  keeps steady c -> c w = (r, w1) -> steady w w1.
Proof. intros H E. specialize (H w). now rewrite E in H. Qed.

(** *** The calls of one turn *)

Lemma call_eq {A} m (body : M Device A) w r d' :
  body (aDevice w) = (r, d') ->
  call m body w
  = (r, set_aDevice d'
          (set_calls (calls w ++ [(hostname (aDevice w), m)])%list w)).
Proof.
  intros H. unfold call, bind, modify, zoom. cbn [aDevice set_calls].
  rewrite H. reflexivity.
Qed.










(** *** Why a run raises *)



















Section RaisesIn.
Context (k : kind) (P : exn -> Prop).










End RaisesIn.







(** *** Turns that end early *)

(** X14.  A target whose handshake raises (or for which no remote end
    answers) gets one call, [connect], and one line in the log, "Unable
    to connect to ..."; nothing is written to the output and the turn
    ends normally. *)
Theorem failed_connect_ends_turn (a : Activity) (h : string) (w : World) :
  handshake (hd unreachable (net w)) <> None ->
  fst (visit a h w) = Ret tt
  /\ calls (snd (visit a h w)) = (calls w ++ [(h, m_connect)])%list
  /\ disk (snd (visit a h w)) = disk w
  /\ messages (snd (visit a h w))
     = (messages w
        ++ [("Unable to connect to " ++ h
             ++ ". Test with a local SSH session.")%string])%list
  /\ net (snd (visit a h w)) = tl (net w).
Proof.
  intros Hs.
  unfold visit, call, next_peer, _writeLogFile, now, connect.
  unfold bind, modify, zoom, ret, try_except, raise.
  cbn -[createDevice String.append].
  destruct (handshake (hd unreachable (net w))) as [f|]; [|congruence].
  destruct f; cbn -[createDevice String.append];
    rewrite createDevice_hostname; unfold messages;
    cbn -[createDevice String.append]; rewrite map_app;
    repeat split.
Qed.

Lemma failed_connect_ends_turn_witness :
  messages (snd (visit (Scenarios.audit ["r1"] "" false) "r1"
                   (start [] [] [])))
  = ["Unable to connect to r1. Test with a local SSH session."].
Proof.
  assert (handshake (hd unreachable (net (start [] [] []))) <> None) as H
    by discriminate.
  destruct (failed_connect_ends_turn (Scenarios.audit ["r1"] "" false)
              "r1" (start [] [] []) H) as [_ [_ [_ [M _]]]].
  exact M.
Defined.

(** X15.  A target whose connect succeeds and whose login returns False
    is left connected: the turn logs "Connected to ..." and "Unable to
    login to ...", calls nothing after [login], and neither close of the
    session has been invoked when it ends. *)
Theorem failed_login_leaves_open (a : Activity) (h : string) (w : World)
    (d1 d2 : Device) :
  connect (hd unreachable (net w)) (user a) (Activity.password a)
          (createDevice h (deviceType a)) = (Ret true, d1) ->
  login d1 = (Ret false, d2) ->
  fst (visit a h w) = Ret tt
  /\ calls (snd (visit a h w))
     = (calls w ++ [(h, m_connect); (h, m_login)])%list
  /\ messages (snd (visit a h w))
     = (messages w
        ++ [("Connected to " ++ h)%string;
            ("Unable to login to " ++ h ++ ". " ++ String "009" ""
             ++ " Test with the default Device type.")%string])%list
  /\ no_close_between d1 (aDevice (snd (visit a h w))).
Proof.
  intros Hc Hl.
  pose proof (connect_same_object (hd unreachable (net w)) (user a)
                (Activity.password a) (createDevice h (deviceType a)))
    as N1.
  rewrite Hc in N1. destruct N1 as [N1 _]. cbn [snd] in N1.
  rewrite createDevice_hostname in N1.
  pose proof (login_cu d1) as Cu. rewrite Hl in Cu. cbn [snd] in Cu.
  unfold visit, call, next_peer, _writeLogFile, now.
  unfold bind, modify, zoom, ret.
  cbn -[connect login superuser createDevice String.append].
  rewrite Hc. cbn -[connect login superuser createDevice String.append].
  rewrite Hl. cbn -[connect login superuser createDevice String.append].
  rewrite createDevice_hostname, N1. unfold messages.
  cbn -[String.append]. rewrite !map_app, <- !app_assoc.
  repeat split; apply Cu.
Qed.

Lemma failed_login_leaves_open_witness :
  messages (snd (visit (Scenarios.audit ["r1"] "ciscoios" false) "r1"
                   (start [MoreScenarios.dead_router] [] [])))
  = ["Connected to r1";
     ("Unable to login to r1. " ++ String "009" ""
      ++ " Test with the default Device type.")%string].
Proof.
  pose (a := Scenarios.audit ["r1"] "ciscoios" false).
  pose (w := start [MoreScenarios.dead_router] [] []).
  assert (connect (hd unreachable (net w)) (user a) (Activity.password a)
            (createDevice "r1" (deviceType a))
          = (Ret true,
             snd (connect (hd unreachable (net w)) (user a)
                    (Activity.password a)
                    (createDevice "r1" (deviceType a))))) as Hc
    by (vm_compute; reflexivity).
  assert (login (snd (connect (hd unreachable (net w)) (user a)
                        (Activity.password a)
                        (createDevice "r1" (deviceType a))))
          = (Ret false,
             snd (login (snd (connect (hd unreachable (net w)) (user a)
                                (Activity.password a)
                                (createDevice "r1" (deviceType a)))))))
    as Hl by (vm_compute; reflexivity).
  destruct (failed_login_leaves_open a "r1" w _ _ Hc Hl) as [_ [_ [M _]]].
  exact M.
Defined.

(** *** Files that cannot be created *)

(** X16.  When a log directory is set (a text that is not empty) and
    the log file cannot be created, [run] writes "Activity: Unable to
    create log file ..." to the error stream and raises: no target is
    visited, nothing is logged, and the file name in the message is
    built from the second reading of the clock. *)
Theorem log_open_failure_aborts (a : Activity) (w : World) (dir : string)
    (later : list bool) :
  logDir a = Some dir -> dir <> ""%string -> openq w = false :: later ->
  fst (Activity.run a w) = Raise OSError
  /\ calls (snd (Activity.run a w)) = calls w
  /\ net (snd (Activity.run a w)) = net w
  /\ log (snd (Activity.run a w)) = log w
  /\ disk (snd (Activity.run a w))
     = (disk w
        ++ [Wrote Stderr
              ("Activity: Unable to create log file '"
               ++ (cleanse (name a ++ "_LOG") ++ "_"
                   ++ ymd_hms (hd epoch (tl (clock w))) ++ ".txt")
               ++ " " ++ nl)])%list.
Proof.
  intros L Hne O.
  destruct dir as [|c dir]; [now elim Hne|].
  unfold Activity.run, timestampedFilename, _openLogFile. rewrite L.
  cbn [directory].
  unfold bind, now, try_except, open_w, emit, modify, raise, ret.
  cbn -[String.append cleanse path_join]. rewrite O.
  cbn -[String.append cleanse path_join]. repeat split.
Qed.

Lemma log_open_failure_aborts_witness :
  fst (Activity.run MoreScenarios.logged_audit
         (start [Scenarios.plain_host] [] [false]))
  = Raise OSError.
Proof.
  apply (log_open_failure_aborts MoreScenarios.logged_audit
           (start [Scenarios.plain_host] [] [false]) "log" []);
    (reflexivity || discriminate).
Defined.

(** X17.  The output file of a target, when every target has its own
    file in an output directory and the file accepts every write.  If
    the file is created, it is named after the cleansed host name and
    the clock, it gets the opening delimiter and then what [run] wrote
    on the session of the target, and it gets the closing delimiter and
    is closed if [logout] returns; if [logout] raises, the exception
    leaves the turn and the file is left open without the closing
    delimiter.  If the file cannot be created the turn raises before
    [run] and [logout] are called: the session stays open and nothing is
    logged. *)
Theorem per_target_file (a : Activity) (h : string) (w : World)
    (dir : string) :
  singleFile a = false -> outputDir a = Some dir -> dir <> ""%string ->
  let f := (cleanse h ++ "_" ++ ymd_hms (hd epoch (clock w)) ++ ".txt")%string
  in
  let file := FileAt (path_join dir f) in
  (hd true (openq w) = true -> accepting (writeq w) = true ->
   exists b d1 out1,
     Devices.run (commands a) (aDevice w, mkFile (tl (writeq w)) [])
     = (Ret b, (d1, out1))
     /\ fst (command_phase a h w)
        = match fst (logout d1) with
          | Ret _ => Ret tt
          | Raise e => Raise e
          end
     /\ disk (snd (command_phase a h w))
        = (disk w
           ++ Opened (path_join dir f)
              :: Wrote file (opening_delimiter h)
              :: map (Wrote file) (written out1)
           ++ match fst (logout d1) with
              | Ret _ => [Wrote file closing_delimiter; Closed file]
              | Raise _ => []
              end)%list)
  /\ (hd true (openq w) = false ->
      fst (command_phase a h w) = Raise OSError
      /\ calls (snd (command_phase a h w)) = calls w
      /\ log (snd (command_phase a h w)) = log w
      /\ disk (snd (command_phase a h w))
         = (disk w
            ++ [Wrote Stderr ("Activity: Unable to create output file '"
                              ++ f ++ "'" ++ nl)])%list).
Proof.
  intros SF OD Hne f file. subst file.
  destruct dir as [|c0 dir0] eqn:Hdir; [now elim Hne|]. rewrite <- Hdir in *.
  assert (directory (outputDir a) = Some dir) as Dir
    by (rewrite OD, Hdir; reflexivity).
  unfold command_phase. rewrite SF. cbn [negb].
  assert (forall q,
            openq w = q ->
            (if hd true q then True else
             (f0 <- timestampedFilename h;; _openOutputFile a f0)%py w
             = (Raise OSError,
                set_disk
                  (disk w
                   ++ [Wrote Stderr ("Activity: Unable to create output file '"
                                     ++ f ++ "'" ++ nl)])%list
                  (set_openq (tl q) (set_clock (tl (clock w)) w))))
            /\ (if hd true q then
                  (f0 <- timestampedFilename h;; _openOutputFile a f0)%py w
                  = (Ret tt,
                     set_outputFile (FileAt (path_join dir f))
                       (set_disk (disk w ++ [Opened (path_join dir f)])%list
                          (set_openq (tl q) (set_clock (tl (clock w)) w))))
                else True)) as Pre.
  { intros q Hq. unfold timestampedFilename, _openOutputFile. rewrite Dir.
    unfold bind, now, try_except, open_w, emit, modify, raise, ret.
    cbn -[String.append cleanse path_join]. rewrite Hq.
    destruct q as [|[] q]; cbn -[String.append cleanse path_join];
      split; try exact I; try reflexivity.
    destruct w; cbn in Hq; subst; reflexivity. }
  destruct (Pre _ eq_refl) as [Bad Good]. clear Pre.
  split; intros Hq; rewrite Hq in *.
  - intros Hacc.
    rewrite (bind_run _ _ _ _ _ Good). cbv beta iota.
    set (w1 := set_outputFile _ _).
    destruct (accepting_next _ Hacc) as [Hop Hacc'].
    destruct (RunFacts.run_shape_accepting (commands a) (aDevice w)
                (mkFile (tl (writeq w)) []) Hacc')
      as [b [d1 [out1 [cp [cs [l [Hrun [_ [_ [_ [_ [_ Hacc1]]]]]]]]]]]].
    destruct (accepting_next _ Hacc1) as [Hcl _].
    destruct (logout d1) as [r d2] eqn:Hout.
    destruct (target_block_shape a h w1 b d1 out1 r d2 Hop Hrun Hout)
      as [Hr [_ [_ [_ Hd]]]].
    cbv zeta in Hr, Hd. rewrite Hcl in Hr, Hd.
    exists b, d1, out1. split; [exact Hrun|].
    rewrite Hd, Hr, SF, Dir, Hout. subst w1.
    cbn [disk outputFile set_outputFile set_disk fst].
    rewrite <- !app_assoc. cbn [app].
    destruct r; split; reflexivity.
  - rewrite (bind_run _ _ _ _ _ Bad). cbv beta iota. cbn [fst snd].
    repeat split.
Qed.

Lemma per_target_file_witness :
  disk (snd (command_phase MoreScenarios.filed_audit "r1"
               MoreScenarios.filed_world))
  = [Opened "out/r1_19700101_000000.txt";
     Wrote (FileAt "out/r1_19700101_000000.txt") (opening_delimiter "r1");
     Wrote (FileAt "out/r1_19700101_000000.txt") "Welcome";
     Wrote (FileAt "out/r1_19700101_000000.txt") "version 1";
     Wrote (FileAt "out/r1_19700101_000000.txt") closing_delimiter;
     Closed (FileAt "out/r1_19700101_000000.txt")].
Proof.
  assert ("out"%string <> ""%string) as Hd by discriminate.
  destruct (per_target_file MoreScenarios.filed_audit "r1"
              MoreScenarios.filed_world "out" eq_refl eq_refl Hd)
    as [Good _].
  destruct (Good eq_refl eq_refl) as [b [d1 [out1 [Hrun [_ E]]]]].
  rewrite E. vm_compute in Hrun.
  injection Hrun as _ <- <-. vm_compute. reflexivity.
Defined.

(** *** Names of files *)

Lemma find_char_absent (p : ascii -> bool) (c : ascii) (s : string) :
  all_chars p s = true -> p c = false ->
  find s (String c "") = (-1)%Z.
Proof.
  intros Hs Hc. induction s as [|b s IH]; [reflexivity|].
  cbn [all_chars] in Hs. apply andb_true_iff in Hs. destruct Hs as [Hb Hs].
  cbn [find startswith]. destruct (Ascii.eqb_spec c b) as [->|Hn].
  - congruence.
  - cbn [andb]. now rewrite (IH Hs).
Qed.

Lemma cleanse_allowed (s : string) :
  all_chars filename_char (cleanse s) = true.
Proof.
  induction s as [|c s IH]; [reflexivity|]. cbn [cleanse].
  destruct (filename_char c) eqn:E; [|exact IH].
  cbn [all_chars]. now rewrite E, IH.
Qed.

Lemma cleanse_fixes (s : string) :
  all_chars filename_char s = true -> cleanse s = s.
Proof.
  induction s as [|c s IH]; [reflexivity|]. cbn [all_chars cleanse].
  intros H. apply andb_true_iff in H. destruct H as [-> H].
  now rewrite (IH H).
Qed.

(** X18.  The part of a file name that comes from the name of the task
    or of the host: only letters, digits, "-", "_" and "." are kept, in
    their order, so it holds no path separator; a name made of such
    characters is unchanged, cleansing twice changes nothing more, and a
    name made of other characters only gives the empty text. *)
Theorem cleanse_keeps_filename_chars (s t : string) :
  all_chars filename_char (cleanse s) = true
  /\ find (cleanse s) "/" = (-1)%Z
  /\ cleanse (s ++ t) = (cleanse s ++ cleanse t)%string
  /\ cleanse (cleanse s) = cleanse s
  /\ (all_chars filename_char s = true -> cleanse s = s)
  /\ (all_chars (fun c => negb (filename_char c)) s = true ->
      cleanse s = ""%string).
Proof.
  split; [apply cleanse_allowed|].
  split; [apply (find_char_absent filename_char);
          [apply cleanse_allowed | reflexivity]|].
  split.
  { induction s as [|c s IH]; [reflexivity|]. cbn [String.append cleanse].
    destruct (filename_char c); [cbn [String.append]; now rewrite IH|].
    exact IH. }
  split; [apply cleanse_fixes, cleanse_allowed|].
  split; [apply cleanse_fixes|].
  induction s as [|c s IH]; [reflexivity|]. cbn [all_chars cleanse].
  intros H. apply andb_true_iff in H. destruct H as [Hc H].
  apply negb_true_iff in Hc. rewrite Hc. exact (IH H).
Qed.

End EngineExtras.

(* ===================================================================== *)
(** ** The line that closes each turn *)
(* ===================================================================== *)

Module ClosingFacts.

Import Text TextFacts Capture Observations EngineObs.
Import MonadFacts TransportFacts.
Import Devices Activity DeviceFacts EngineFacts DeviceExtras EngineExtras.
Import Scenarios.

(** *** Statements that leave the network alone *)

Lemma net_refl w : same_net w w.
Proof. reflexivity. Qed.

Lemma net_trans w1 w2 w3 :
  same_net w1 w2 -> same_net w2 w3 -> same_net w1 w3.
Proof. unfold same_net. congruence. Qed.

Lemma steady_net {A} (c : M World A) : keeps steady c -> keeps same_net c.
Proof. intros K w. destruct (K w) as [_ [_ [N _]]]. exact N. Qed.

Lemma call_net {A} m (body : M Device A) : keeps same_net (call m body).
Proof.
  intros w. destruct (body (aDevice w)) as [r d'] eqn:E.
  now rewrite (call_eq _ _ _ _ _ E).
Qed.

Lemma call_run_net cmds : keeps same_net (call_run cmds).
Proof.
  intros w.
  destruct (Devices.run cmds (aDevice w, sink w)) as [r [d' out']] eqn:E.
  now rewrite (call_run_run _ _ _ _ _ E).
Qed.

Lemma writeOutputFile_net text : keeps same_net (_writeOutputFile text).
Proof. intros w. now rewrite writeOutputFile_run. Qed.

Lemma target_block_net a h : keeps same_net (target_block a h).
Proof.
  unfold target_block.
  repeat match goal with
    | |- keeps _ (bind _ _) => apply (keeps_bind _ net_trans); [|intros ?]
    | |- keeps _ (if _ then _ else _) => apply (keeps_if _)
    | |- keeps _ (ret _) => apply (keeps_ret _ net_refl)
    | |- keeps _ (call _ _) => apply call_net
    | |- keeps _ (call_run _) => apply call_run_net
    | |- keeps _ (_writeOutputFile _) => apply writeOutputFile_net
    | |- keeps _ (_writeLogFile _) => intros ?; reflexivity
    | |- keeps _ (_closeOutputFile _) =>
        apply steady_net, closeOutputFile_steady
    end.
Qed.

(** *** The lines of the log that close a turn, and those that do not *)

Lemma messages_logged m w : messages (logged m w) = (messages w ++ [m])%list.
Proof. unfold messages, logged. cbn. now rewrite map_app. Qed.

Lemma filter_closing_app l1 l2 :
  filter is_closing (l1 ++ l2)
  = (filter is_closing l1 ++ filter is_closing l2)%list.
Proof. apply filter_app. Qed.

Lemma filter_finished_closing (l : list string) :
  filter is_finished (filter is_closing l) = filter is_finished l.
Proof.
  induction l as [|m l IH]; [reflexivity|]. cbn [filter].
  unfold is_closing at 1. destruct (is_finished m) eqn:F; cbn [orb filter].
  - rewrite F. now rewrite IH.
  - destruct (is_unable m); cbn [filter]; [rewrite F|]; exact IH.
Qed.

(** *** The block of a target that returns *)

Lemma target_block_finishes a h w w' :
  target_block a h w = (Ret tt, w') ->
  exists l,
    messages w' = (messages w ++ l)%list
    /\ filter is_closing l = [("Finished commands at " ++ h)%string]
    /\ net w' = net w.
Proof.
  intros H.
  pose proof (target_block_net a h w) as N. rewrite H in N. cbn [snd] in N.
  destruct (next_write (writeq w)) as [f|] eqn:Hop.
  { destruct (target_block_refused a h w f Hop) as [Hr _].
    rewrite H in Hr. discriminate Hr. }
  destruct (RunFacts.run_shape (commands a) (aDevice w)
              (mkFile (tl (writeq w)) []))
    as [d1 [out1 [cp [cs [later [Hrun _]]]]]].
  destruct (run_result cp cs _) as [b|e].
  2:{ destruct (target_block_run_raises a h w e d1 out1 Hop Hrun) as [Hr _].
      rewrite H in Hr. discriminate Hr. }
  destruct (logout d1) as [r d2] eqn:Hout.
  destruct (target_block_shape a h w b d1 out1 r d2 Hop Hrun Hout)
    as [Hr [_ [_ [Hm _]]]].
  cbv zeta in Hr, Hm. rewrite H in Hr, Hm. cbn [fst snd] in Hr, Hm.
  destruct r as [v|e]; [|discriminate Hr].
  destruct (next_write (wq out1)); [discriminate Hr|].
  eexists. split; [exact Hm|]. split; [|exact N].
  destruct b, (truthy v); reflexivity.
Qed.

Lemma command_phase_finishes a h w w' :
  command_phase a h w = (Ret tt, w') ->
  exists l,
    messages w' = (messages w ++ l)%list
    /\ filter is_closing l = [("Finished commands at " ++ h)%string]
    /\ net w' = net w.
Proof.
  unfold command_phase. intros H.
  apply bind_ret_inv in H. destruct H as [[] [w1 [E1 H]]].
  assert (keeps steady
            (if negb (singleFile a)
             then (f <- timestampedFilename h;; _openOutputFile a f)%py
             else ret tt)) as K.
  { steady_tac; [apply timestampedFilename_steady
                | apply openOutputFile_steady]. }
  assert (keeps quiet
            (if negb (singleFile a)
             then (f <- timestampedFilename h;; _openOutputFile a f)%py
             else ret tt)) as Q.
  { apply keeps_if; [|intros ?; reflexivity].
    apply (keeps_bind _ quiet_trans);
      [apply timestampedFilename_quiet
      | intros ?; apply openOutputFile_quiet]. }
  destruct (steady_step _ _ _ _ K E1) as [_ [_ [N1 _]]].
  pose proof (quiet_step _ _ _ _ Q E1) as M1.
  destruct (target_block_finishes a h w1 w' H) as [l [Hm [Hf Hn]]].
  exists l. rewrite <- M1, <- N1. repeat split; assumption.
Qed.

(** The escalation in closed form. *)
Lemma escalation_run a h w r d' :
  superuser (superuserPassword a) (aDevice w) = (r, d') ->
  escalation a h w
  = if superuserNeeded a then
      let w1 := set_aDevice d'
                  (set_calls
                     (calls w ++ [(hostname (aDevice w), m_superuser)])%list
                     w) in
      match r with
      | Ret true => (Ret true, logged ("Superuser at " ++ h) w1)
      | Ret false => (Ret false, logged ("Unable to superuser at " ++ h) w1)
      | Raise e => (Raise e, w1)
      end
    else (Ret true, w).
Proof.
  intros E. unfold escalation. destruct (superuserNeeded a); [|reflexivity].
  unfold bind at 1. rewrite (call_eq _ _ _ _ _ E).
  destruct r as [[|]|e]; reflexivity.
Qed.

(** *** The turn of a target that returns *)

Lemma visit_closes_with a h w w' :
  visit a h w = (Ret tt, w') ->
  exists l,
    messages w' = (messages w ++ l)%list
    /\ map Some (filter is_closing l)
       = [closing_line h (progress_of a h (hd unreachable (net w)))]
    /\ net w' = tl (net w).
Proof.
  unfold visit, progress_of. unfold bind at 1, modify at 1.
  unfold bind at 1, next_peer at 1.
  set (w1 := set_net _ _).
  assert (aDevice w1 = createDevice h (deviceType a)) as D1 by reflexivity.
  assert (messages w1 = messages w) as M1 by reflexivity.
  assert (net w1 = tl (net w)) as N1 by reflexivity.
  clearbody w1.
  destruct (connect (hd unreachable (net w)) (user a) (Activity.password a)
              (createDevice h (deviceType a))) as [rc d2] eqn:E2.
  assert (connect (hd unreachable (net w)) (user a) (Activity.password a)
            (aDevice w1) = (rc, d2)) as E2' by (now rewrite D1).
  unfold bind at 1. rewrite (call_eq _ _ _ _ _ E2').
  set (w2 := set_aDevice d2 _).
  assert (aDevice w2 = d2) as D2 by reflexivity.
  assert (messages w2 = messages w) as M2 by (rewrite <- M1; reflexivity).
  assert (net w2 = tl (net w)) as N2 by (rewrite <- N1; reflexivity).
  clearbody w2.
  destruct rc as [[|]|e2]; cbn [negb]; [| |intros H; discriminate H].
  2:{ rewrite writeLogFile_run. intros H. injection H as <-.
      eexists. rewrite messages_logged, M2.
      split; [reflexivity|]. split; [reflexivity|]. exact N2. }
  unfold bind at 1. rewrite writeLogFile_run.
  set (w3 := logged _ w2).
  assert (aDevice w3 = d2) as D3 by (rewrite <- D2; reflexivity).
  assert (messages w3 = (messages w ++ [("Connected to " ++ h)%string])%list)
    as M3 by (unfold w3; now rewrite messages_logged, M2).
  assert (net w3 = tl (net w)) as N3 by (rewrite <- N2; reflexivity).
  clearbody w3.
  destruct (login d2) as [r4 d4] eqn:E4.
  assert (login (aDevice w3) = (r4, d4)) as E4' by (now rewrite D3).
  unfold bind at 1. rewrite (call_eq _ _ _ _ _ E4').
  set (w4 := set_aDevice d4 _).
  assert (aDevice w4 = d4) as D4 by reflexivity.
  assert (messages w4 = messages w3) as M4 by reflexivity.
  assert (net w4 = tl (net w)) as N4 by (rewrite <- N3; reflexivity).
  clearbody w4.
  destruct r4 as [[|]|e4]; cbn [negb]; [| |intros H; discriminate H].
  2:{ rewrite writeLogFile_run. intros H. injection H as <-.
      eexists. rewrite messages_logged, M4, M3, <- app_assoc.
      split; [reflexivity|]. split; [reflexivity|]. exact N4. }
  destruct (superuser (superuserPassword a) d4) as [r5 d5] eqn:E5.
  assert (superuser (superuserPassword a) (aDevice w4) = (r5, d5)) as E5'
    by (now rewrite D4).
  unfold bind at 1. rewrite (escalation_run _ _ _ _ _ E5').
  destruct (superuserNeeded a).
  - cbv zeta. set (w5 := set_aDevice d5 _).
    assert (messages w5 = messages w4) as M5 by reflexivity.
    assert (net w5 = tl (net w)) as N5 by (rewrite <- N4; reflexivity).
    clearbody w5.
    destruct r5 as [[|]|e5]; cbn [negb]; [| |intros H; discriminate H].
    + intros H.
      destruct (command_phase_finishes a h _ _ H) as [l [Hm [Hf Hn]]].
      rewrite messages_logged, M5, M4, M3, <- !app_assoc in Hm.
      eexists. split; [exact Hm|]. split.
      * cbn [app].
        change (filter is_closing
                  (("Connected to " ++ h)%string
                   :: ("Superuser at " ++ h)%string :: l))
          with (filter is_closing l).
        now rewrite Hf.
      * rewrite Hn. exact N5.
    + intros H. injection H as <-.
      eexists. rewrite messages_logged, M5, M4, M3, <- app_assoc.
      split; [reflexivity|]. split; [reflexivity|]. exact N5.
  - cbn [negb]. intros H.
    destruct (command_phase_finishes a h _ _ H) as [l [Hm [Hf Hn]]].
    rewrite M4, M3, <- !app_assoc in Hm.
    eexists. split; [exact Hm|]. split.
    + cbn [app].
      change (filter is_closing (("Connected to " ++ h)%string :: l))
        with (filter is_closing l).
      now rewrite Hf.
    + rewrite Hn. exact N4.
Qed.

Lemma for_each_closes_with a (hosts : list string) :
  forall w w',
    for_each hosts (visit a) w = (Ret tt, w') ->
    exists l,
      messages w' = (messages w ++ l)%list
      /\ map Some (filter is_closing l) = closing_lines a hosts (net w).
Proof.
  induction hosts as [|h rest IH]; intros w w' H.
  - injection H as <-. exists []. now rewrite app_nil_r.
  - cbn [for_each] in H.
    apply bind_ret_inv in H. destruct H as [[] [w1 [E1 H]]].
    destruct (visit_closes_with a h w w1 E1) as [l1 [M1 [F1 N1]]].
    destruct (IH w1 w' H) as [l2 [M2 F2]].
    exists (l1 ++ l2)%list. split.
    + now rewrite M2, M1, app_assoc.
    + rewrite filter_closing_app, map_app, F1, F2, N1. reflexivity.
Qed.

(** The "Finished commands at" lines among the closing lines are those
    of the targets whose turn got to the commands. *)
Lemma finished_among a (hosts : list string) :
  forall peers (l : list string),
    map Some l = closing_lines a hosts peers ->
    count is_finished l = reached a hosts peers.
Proof.
  induction hosts as [|h rest IH]; intros peers l H.
  - destruct l; [reflexivity | discriminate H].
  - destruct l as [|m l]; [discriminate H|].
    cbn [map closing_lines reached] in *.
    injection H as Hm Hl. unfold count in *. cbn [filter].
    specialize (IH _ _ Hl).
    destruct (progress_of a h (hd unreachable peers));
      cbn [closing_line] in Hm; try discriminate Hm;
      injection Hm as ->;
      match goal with
      | |- context [is_finished ?x] =>
          let b := eval cbv in (is_finished x) in
          change (is_finished x) with b
      end; cbn [length]; now rewrite IH.
Qed.

Lemma reached_bound a (hosts : list string) :
  forall peers, reached a hosts peers <= length hosts.
Proof.
  induction hosts as [|h rest IH]; intros peers; [apply Nat.le_refl|].
  cbn [reached length]. specialize (IH (tl peers)).
  destruct (progress_of a h (hd unreachable peers)); lia.
Qed.

Lemma reached_all a (hosts : list string) :
  forall peers,
    reached a hosts peers = length hosts <-> all_reached a hosts peers.
Proof.
  induction hosts as [|h rest IH]; intros peers; [now split|].
  cbn [reached length all_reached]. specialize (IH (tl peers)).
  pose proof (reached_bound a rest (tl peers)) as B.
  destruct (progress_of a h (hd unreachable peers)); split;
    try (intros H; exfalso; lia);
    try (intros [H _]; discriminate H).
  - intros H. split; [reflexivity|]. apply IH. lia.
  - intros [_ H]. apply IH in H. lia.
Qed.

(** C1, as the code has it.  When the run completes, every target has
    got exactly one closing line in the log, and the closing lines are
    in the order of the targets: "Finished commands at <hostname>" for a
    target whose connect, login and requested escalation returned True,
    whatever its commands and its logout did, and else the "Unable to
    connect to", "Unable to login to" or "Unable to superuser at" line,
    with its host name, of the step that returned False.  So the
    "Finished commands at" lines number the targets that got to their
    commands, they number the targets less the "Unable to ..." lines,
    and they number the targets only when no connect, login or
    requested escalation failed. *)
Theorem finished_lines_count (a : Activity) (w w' : World) :
  Activity.run a w = (Ret tt, w') ->
  (exists l,
     messages w' = (messages w ++ l)%list
     /\ map Some (filter is_closing l)
        = closing_lines a (targets a) (net w))
  /\ finished_lines w' = finished_lines w + reached a (targets a) (net w)
  /\ finished_lines w' + unable_lines w'
     = finished_lines w + unable_lines w + List.length (targets a)
  /\ (finished_lines w' = finished_lines w + List.length (targets a)
      <-> all_reached a (targets a) (net w)).
Proof.
  intros Hrun.
  enough ((exists l,
             messages w' = (messages w ++ l)%list
             /\ map Some (filter is_closing l)
                = closing_lines a (targets a) (net w))
          /\ finished_lines w'
             = finished_lines w + reached a (targets a) (net w)
          /\ finished_lines w' + unable_lines w'
             = finished_lines w + unable_lines w + List.length (targets a))
    as [Hl [Hf Hc]].
  { split; [exact Hl|]. split; [exact Hf|]. split; [exact Hc|].
    rewrite <- reached_all, Hf. lia. }
  pose proof (closing_lines_count a w w' Hrun) as Hcount.
  assert (exists l,
            messages w' = (messages w ++ l)%list
            /\ map Some (filter is_closing l)
               = closing_lines a (targets a) (net w)) as Hl.
  { revert Hrun. unfold Activity.run. intros H.
    apply bind_ret_inv in H. destruct H as [f1 [w1 [E1 H]]].
    apply bind_ret_inv in H. destruct H as [f2 [w2 [E2 H]]].
    apply bind_ret_inv in H. destruct H as [[] [w3 [E3 H]]].
    apply bind_ret_inv in H. destruct H as [[] [w4 [E4 H]]].
    apply bind_ret_inv in H. destruct H as [[] [w5 [E5 H]]].
    apply bind_ret_inv in H. destruct H as [[] [w6 [E6 H]]].
    apply bind_ret_inv in H. destruct H as [[] [w7 [E7 H]]].
    apply bind_ret_inv in H. destruct H as [[] [w8 [E8 H]]].
    pose proof (steady_step _ _ _ _ (timestampedFilename_steady _) E1)
      as [_ [_ [N1 _]]].
    pose proof (steady_step _ _ _ _ (timestampedFilename_steady _) E2)
      as [_ [_ [N2 _]]].
    pose proof (steady_step _ _ _ _ (openLogFile_steady _ _) E3)
      as [_ [_ [N3 _]]].
    assert (net w4 = net w3) as N4.
    { destruct (singleFile a).
      - now pose proof (steady_step _ _ _ _ (openOutputFile_steady _ _) E4)
          as [_ [_ [N4 _]]].
      - now injection E4 as <-. }
    apply (quiet_step _ _ _ _ (timestampedFilename_quiet _)) in E1.
    apply (quiet_step _ _ _ _ (timestampedFilename_quiet _)) in E2.
    apply (quiet_step _ _ _ _ (openLogFile_quiet _ _)) in E3.
    assert (messages w4 = messages w3) as E4'.
    { destruct (singleFile a).
      - now apply (quiet_step _ _ _ _ (openOutputFile_quiet _ _)) in E4.
      - now injection E4 as <-. }
    destruct (for_each_closes_with a (targets a) w4 w5 E5) as [l [Ml Fl]].
    rewrite writeLogFile_run in E6. injection E6 as <-.
    assert (messages w7
            = messages (logged "Finished activity" w5)) as E7'.
    { destruct (singleFile a).
      - now apply (quiet_step _ _ _ _ (closeOutputFile_quiet _)) in E7.
      - now injection E7 as <-. }
    rewrite writeLogFile_run in E8. injection E8 as <-.
    apply (quiet_step _ _ _ _ (closeLogFile_quiet _)) in H.
    exists (l ++ ["Finished activity"; "END"])%list. split.
    - rewrite H, messages_logged, E7', messages_logged, Ml, E4', E3, E2, E1.
      now rewrite <- !app_assoc.
    - rewrite filter_closing_app, map_app, Fl, N4, N3, N2, N1.
      cbn. now rewrite app_nil_r. }
  split; [exact Hl|]. split; [|exact Hcount].
  destruct Hl as [l [Ml Fl]].
  unfold finished_lines. rewrite Ml, count_app. f_equal.
  unfold count at 1. rewrite <- filter_finished_closing.
  exact (finished_among a (targets a) (net w) _ Fl).
Qed.

Lemma finished_lines_count_witness :
  Activity.run (audit ["10.0.0.1"; "10.0.0.2"] "" false)
               (start [unreachable; plain_host] [] [])
  = (Ret tt, snd (Activity.run (audit ["10.0.0.1"; "10.0.0.2"] "" false)
                               (start [unreachable; plain_host] [] [])))
  /\ filter is_closing
       (messages
          (snd (Activity.run (audit ["10.0.0.1"; "10.0.0.2"] "" false)
                             (start [unreachable; plain_host] [] []))))
     = ["Unable to connect to 10.0.0.1. Test with a local SSH session.";
        "Finished commands at 10.0.0.2"]
  /\ finished_lines
       (snd (Activity.run (audit ["10.0.0.1"; "10.0.0.2"] "" false)
                          (start [unreachable; plain_host] [] [])))
     = 1.
Proof.
  assert (Activity.run (audit ["10.0.0.1"; "10.0.0.2"] "" false)
               (start [unreachable; plain_host] [] [])
  = (Ret tt, snd (Activity.run (audit ["10.0.0.1"; "10.0.0.2"] "" false)
                               (start [unreachable; plain_host] [] [])))) as E
    by (vm_compute; reflexivity).
  split; [exact E|].
  destruct (finished_lines_count _ _ _ E) as [[l [Ml Fl]] [Hf _]].
  split.
  - rewrite Ml. cbn [messages start log map app].
    apply (f_equal (map (fun o => match o with
                                  | Some m => m
                                  | None => EmptyString
                                  end))) in Fl.
    rewrite map_map, map_id in Fl. rewrite Fl. vm_compute. reflexivity.
  - rewrite Hf. vm_compute. reflexivity.
Defined.

End ClosingFacts.

(* ===================================================================== *)
(** ** Facts about the task files *)
(* ===================================================================== *)

Module FileFacts.

Import Codec CodecFacts Files FileScenarios.
Local Open Scope N_scope.

Lemma crypt_then_decrypt (p key : str) :
  ascii_only p -> ascii_only key -> key <> [] ->
  exists c, xor_crypt_string p key = Some c
            /\ xor_decrypt_string c key = Some p.
Proof.
  intros Hp Hk Hne.
  destruct (roundtrip_ascii p key Hp Hk Hne) as [E R].
  unfold roundtrip in R. rewrite E in R. eexists. split; [exact E | exact R].
Qed.

(** X19.  A task written by [writeToJSON] and loaded by [loadFromJSON]
    into a new object, when user and passwords are within ASCII and the
    user is not empty.  Name, user, passwords, targets, commands, device
    type and the need of escalation come back; the description does
    not.  The output directory comes back only if a device type is set,
    the single-file flag only if moreover the output directory is set,
    and the log directory only if moreover the single-file flag is
    set. *)
Theorem reload_keeps_and_loses (t : Task) :
  ascii_only (user t) -> ascii_only (password t) ->
  ascii_only (superuserPassword t) -> user t <> [] ->
  exists t',
    reload t = (Returned true, t')
    /\ name t' = name t /\ user t' = user t /\ password t' = password t
    /\ targets t' = targets t /\ commands t' = commands t
    /\ deviceType t' = deviceType t
    /\ superuserNeeded t' = superuserNeeded t
    /\ (superuserNeeded t = true ->
        superuserPassword t' = superuserPassword t)
    /\ description t' = ""%string
    /\ outputDir t'
       = (if nonempty (deviceType t) && is_set (outputDir t)
          then outputDir t else None)
    /\ singleFile t'
       = nonempty (deviceType t) && is_set (outputDir t) && singleFile t
    /\ logDir t'
       = (if nonempty (deviceType t) && is_set (outputDir t)
             && singleFile t && is_set (logDir t)
          then logDir t else None).
Proof.
  intros Hu Hp Hs Hne.
  destruct (crypt_then_decrypt _ _ Hp Hu Hne) as [c [Ec Dc]].
  destruct (crypt_then_decrypt _ _ Hs Hu Hne) as [s [Es Ds]].
  unfold reload, writeToJSON, data_of. rewrite Ec.
  destruct t as [n de u p sp su tg cm od ld sf ty].
  cbn [Files.user Files.password Files.superuserPassword Files.name
       Files.description Files.superuserNeeded Files.targets Files.commands
       Files.outputDir Files.logDir Files.singleFile Files.deviceType] in *.
  destruct su; [rewrite Es|];
    destruct ty as [|ch ty]; cbn [nonempty];
    destruct od as [[|ch1 od]|]; cbn [is_set nonempty andb];
    destruct sf; cbn [andb];
    destruct ld as [[|ch2 ld]|]; cbn [is_set nonempty andb];
    unfold loadFromJSON, load_data, andthen, item, assign, done, fail,
      ignoring_KeyError, decrypted;
    cbn -[xor_decrypt_string]; rewrite ?Dc; cbn -[xor_decrypt_string];
    rewrite ?Ds; cbn -[xor_decrypt_string];
    (eexists; split; [reflexivity|]); cbn; repeat split; congruence.
Qed.

Lemma reload_keeps_and_loses_witness :
  exists t',
    reload nightly = (Returned true, t')
    /\ outputDir t' = Some "out"%string /\ logDir t' = None.
Proof.
  assert (ascii_only [97; 100; 109; 105; 110]) as Hu
    by (repeat constructor).
  assert (ascii_only [112; 119]) as Hp by (repeat constructor).
  assert (ascii_only [114; 111; 111; 116]) as Hs by (repeat constructor).
  assert ([97; 100; 109; 105; 110] <> (@nil N)) as Hne by discriminate.
  destruct (reload_keeps_and_loses nightly Hu Hp Hs Hne)
    as [t' [R [_ [_ [_ [_ [_ [_ [_ [_ [_ [O [_ L]]]]]]]]]]]]].
  exists t'. split; [exact R|]. split; [exact O | exact L].
Defined.

Ltac load_steps :=
  unfold load_data, andthen, item, assign, done, fail, ignoring_KeyError,
    decrypted;
  cbn -[xor_decrypt_string].

(** X20.  The four optional keys "type", "outputDir", "singleFile" and
    "logDir" are read in this order inside one [try]: the first one that
    is missing ends the reading of the others.  So whenever
    [loadFromJSON] returns, an output directory was loaded only from a
    file with a "type", a single-file flag only from one that has also
    an "outputDir", and a log directory only from one that has also a
    "singleFile". *)
Theorem optional_keys_stop_at_first_missing (d : Doc) (t t' : Task)
    (b : bool) :
  load_data d t = (Returned b, t') ->
  b = true
  /\ (j_type d = None ->
      deviceType t' = deviceType t /\ outputDir t' = outputDir t
      /\ singleFile t' = singleFile t /\ logDir t' = logDir t)
  /\ (j_outputDir d = None ->
      outputDir t' = outputDir t /\ singleFile t' = singleFile t
      /\ logDir t' = logDir t)
  /\ (j_singleFile d = None ->
      singleFile t' = singleFile t /\ logDir t' = logDir t)
  /\ (j_logDir d = None -> logDir t' = logDir t).
Proof.
  destruct d as [jn jde jl jp jsp jty jdv jcm jod jsf jld].
  destruct t as [n de u p sp su tg cm od ld sf ty].
  load_steps.
  destruct jn as [vn|]; [|discriminate]. cbn -[xor_decrypt_string].
  destruct jl as [vl|]; [|discriminate]. cbn -[xor_decrypt_string].
  destruct jp as [vp|]; [|discriminate]. cbn -[xor_decrypt_string].
  destruct (xor_decrypt_string vp vl) as [pw|]; [|discriminate].
  cbn -[xor_decrypt_string].
  destruct jdv as [vd|]; [|discriminate]. cbn -[xor_decrypt_string].
  destruct jcm as [vc|]; [|discriminate]. cbn -[xor_decrypt_string].
  destruct jty as [vt|], jod as [vo|], jsf as [vs|], jld as [vg|];
    cbn -[xor_decrypt_string];
    (destruct jsp as [vsp|]; cbn -[xor_decrypt_string];
     [destruct (xor_decrypt_string vsp vl) as [spw|];
      cbn -[xor_decrypt_string]; [|discriminate]|]);
    intros H; injection H as <- <-; cbn;
    repeat split; intros; try reflexivity; discriminate.
Qed.

Lemma optional_keys_stop_at_first_missing_witness :
  outputDir (snd (load_data untyped_doc blank)) = None
  /\ logDir (snd (load_data untyped_doc blank)) = None.
Proof.
  assert (load_data untyped_doc blank
          = (Returned true, snd (load_data untyped_doc blank))) as E
    by reflexivity.
  destruct (optional_keys_stop_at_first_missing _ _ _ _ E)
    as [_ [H _]].
  destruct (H eq_refl) as [_ [O [_ L]]].
  split; [exact O | exact L].
Defined.

(** X21.  The keys "name", "login", "password", "devices" and "commands"
    are read outside every [try]: when one of them is missing,
    [loadFromJSON] does not return False, it raises; what leaves is the
    KeyError of the first missing key, or the error of the codec when
    the password does not decrypt, and the object keeps what was
    assigned before. *)
Theorem missing_key_escapes (d : Doc) (t : Task) :
  j_name d = None \/ j_login d = None \/ j_password d = None
  \/ j_devices d = None \/ j_commands d = None ->
  exists f t',
    load_data d t = (Failed f, t')
    /\ (f = CodecError
        \/ exists k, f = KeyError k
             /\ In k ["name"; "login"; "password"; "devices";
                      "commands"]%string)
    /\ (j_name d = None -> f = KeyError "name" /\ t' = t)
    /\ (forall v, j_name d = Some v -> name t' = v).
Proof.
  destruct d as [jn jde jl jp jsp jty jdv jcm jod jsf jld].
  destruct t as [n de u p sp su tg cm od ld sf ty].
  cbn [j_name j_login j_password j_devices j_commands].
  intros H. load_steps.
  destruct jn as [vn|]; cbn -[xor_decrypt_string].
  2:{ eexists. eexists. split; [reflexivity|].
      split; [right; eexists; split; [reflexivity | cbn; auto]|].
      split; [intros _; split; reflexivity | discriminate]. }
  destruct jl as [vl|]; cbn -[xor_decrypt_string].
  2:{ eexists. eexists. split; [reflexivity|].
      split; [right; eexists; split; [reflexivity | cbn; auto]|].
      split; [discriminate | intros v E; now injection E]. }
  destruct jp as [vp|]; cbn -[xor_decrypt_string].
  2:{ eexists. eexists. split; [reflexivity|].
      split; [right; eexists; split; [reflexivity | cbn; auto]|].
      split; [discriminate | intros v E; now injection E]. }
  destruct (xor_decrypt_string vp vl) as [pw|]; cbn -[xor_decrypt_string].
  2:{ eexists. eexists. split; [reflexivity|]. split; [now left|].
      split; [discriminate | intros v E; now injection E]. }
  destruct jdv as [vd|]; cbn -[xor_decrypt_string].
  2:{ eexists. eexists. split; [reflexivity|].
      split; [right; eexists; split; [reflexivity | cbn; auto]|].
      split; [discriminate | intros v E; now injection E]. }
  destruct jcm as [vc|]; cbn -[xor_decrypt_string].
  2:{ eexists. eexists. split; [reflexivity|].
      split; [right; eexists; split; [reflexivity | cbn; auto 6]|].
      split; [discriminate | intros v E; now injection E]. }
  exfalso. destruct H as [H|[H|[H|[H|H]]]]; discriminate H.
Qed.

Lemma missing_key_escapes_witness :
  exists f t',
    load_data anonymous_doc blank = (Failed f, t')
    /\ name t' = "nightly"%string.
Proof.
  destruct (missing_key_escapes anonymous_doc blank)
    as [f [t' [E [_ [_ N]]]]]; [right; left; reflexivity|].
  exists f, t'. split; [exact E | exact (N _ eq_refl)].
Defined.

End FileFacts.

(* ===================================================================== *)
(** ** Facts about check and about tasks typed at the console *)
(* ===================================================================== *)

Module CheckFacts.

Import Text TextFacts EngineObs Files Checks.
Import Devices Activity.

Lemma lower_char_idem (c : ascii) : lower_char (lower_char c) = lower_char c.
Proof. destruct c as [[] [] [] [] [] [] [] []]; reflexivity. Qed.

Lemma lower_idem (s : string) : lower (lower s) = lower s.
Proof.
  induction s as [|c s IH]; [reflexivity|]. cbn [lower].
  now rewrite lower_char_idem, IH.
Qed.

(** [createDevice] reads the device type without regard to case. *)
Lemma class_of_lower (ty : string) : class_of (lower ty) = class_of ty.
Proof. unfold class_of, createDevice. now rewrite lower_idem. Qed.

Lemma listed_iff (ty : string) :
  existsb (String.eqb ty) listOfDeviceTypes = true
  <-> In ty listOfDeviceTypes.
Proof.
  rewrite existsb_exists. split.
  - intros [x [I E]]. apply String.eqb_eq in E. now subst.
  - intros I. exists ty. split; [exact I | apply String.eqb_refl].
Qed.

Lemma listed_is_lower (ty : string) :
  In ty listOfDeviceTypes -> lower ty = ty /\ class_of ty <> Generic.
Proof.
  intros [<-|[<-|[<-|[]]]]; split; (reflexivity || discriminate).
Qed.

Lemma nonempty_iff (s : string) : nonempty s = true <-> s <> ""%string.
Proof. destruct s; cbn; split; (congruence || discriminate || auto). Qed.

(** X22.  What [check] guarantees when it returns: a name, at least one
    target and one command, directories that [testMakeDir] accepted, and
    a device type that is either empty, for which [createDevice] builds
    the generic device, or one of the listed names in lower case, for
    which it builds a vendor device. *)
Theorem checked_task (makes : string -> bool) (a : Activity) :
  check makes a = None ->
  name a <> ""%string /\ targets a <> [] /\ commands a <> []
  /\ (forall d, outputDir a = Some d -> d <> ""%string -> makes d = true)
  /\ (forall d, logDir a = Some d -> d <> ""%string -> makes d = true)
  /\ ((deviceType a = ""%string /\ class_of (deviceType a) = Generic)
      \/ (In (deviceType a) listOfDeviceTypes
          /\ lower (deviceType a) = deviceType a
          /\ class_of (deviceType a) <> Generic)).
Proof.
  unfold check.
  destruct (String.eqb_spec (name a) "") as [|Hn]; [discriminate|].
  destruct (is_set (outputDir a) && negb (makes _)) eqn:Ho; [discriminate|].
  destruct (is_set (logDir a) && negb (makes _)) eqn:Hl; [discriminate|].
  destruct (targets a) as [|h tg] eqn:Ht; [discriminate|].
  destruct (commands a) as [|c cm] eqn:Hc; [discriminate|].
  cbn [length Nat.eqb].
  destruct (nonempty (deviceType a) && negb (existsb _ _)) eqn:Hd;
    [discriminate|].
  intros _. split; [exact Hn|]. split; [discriminate|].
  split; [discriminate|]. split; [|split].
  - intros d E Hne. rewrite E in Ho. cbn [is_set] in Ho.
    apply nonempty_iff in Hne. rewrite Hne in Ho. cbn in Ho.
    now apply negb_false_iff in Ho.
  - intros d E Hne. rewrite E in Hl. cbn [is_set] in Hl.
    apply nonempty_iff in Hne. rewrite Hne in Hl. cbn in Hl.
    now apply negb_false_iff in Hl.
  - destruct (deviceType a) as [|ch ty] eqn:Ety; [left; now split|].
    right. cbn [nonempty andb] in Hd. apply negb_false_iff in Hd.
    apply listed_iff in Hd. destruct (listed_is_lower _ Hd) as [L K].
    split; [exact Hd|]. split; assumption.
Qed.

Lemma checked_task_witness :
  class_of (deviceType (Scenarios.audit ["r1"] "linux" false)) <> Generic.
Proof.
  assert (check (fun _ => true) (Scenarios.audit ["r1"] "linux" false)
          = None) as E by reflexivity.
  destruct (checked_task _ _ E) as [_ [_ [_ [_ [_ [[H _]|[_ [_ H]]]]]]]].
  - discriminate H.
  - exact H.
Defined.

(** X23.  [check] is case-sensitive where [createDevice] is not: a
    device type that holds an upper-case letter is refused by [check],
    whatever the rest of the task is, although [createDevice] builds for
    it the device it builds for the lower-case spelling. *)
Theorem check_is_case_sensitive (makes : string -> bool) (a : Activity) :
  has_upper (deviceType a) ->
  (exists m, check makes a = Some m)
  /\ (name a <> ""%string -> is_set (outputDir a) = false ->
      is_set (logDir a) = false -> targets a <> [] -> commands a <> [] ->
      check makes a = Some ("Invalid device type " ++ deviceType a)%string)
  /\ class_of (deviceType a) = class_of (lower (deviceType a)).
Proof.
  intros U. unfold has_upper in U.
  assert (nonempty (deviceType a)
          && negb (existsb (String.eqb (deviceType a)) listOfDeviceTypes)
          = true) as Hd.
  { apply andb_true_iff. split.
    - apply nonempty_iff. intros E. rewrite E in U. now apply U.
    - apply negb_true_iff.
      destruct (existsb _ _) eqn:E; [|reflexivity].
      apply listed_iff, listed_is_lower in E. destruct E as [E _].
      contradiction. }
  split; [|split].
  - unfold check. rewrite Hd.
    repeat match goal with
           | |- exists m, (if ?b then _ else _) = Some m =>
               destruct b; [eexists; reflexivity|]
           end.
    eexists; reflexivity.
  - intros Hn Ho Hl Ht Hc. unfold check. rewrite Hd, Ho, Hl.
    destruct (String.eqb_spec (name a) "") as [|_]; [contradiction|].
    destruct (targets a); [contradiction|].
    destruct (commands a); [contradiction|]. reflexivity.
  - symmetry. apply class_of_lower.
Qed.

Lemma check_is_case_sensitive_witness :
  check (fun _ => true) (Scenarios.audit ["r1"] "CiscoIOS" false)
  = Some "Invalid device type CiscoIOS"%string
  /\ class_of "CiscoIOS" = CiscoIOS.
Proof.
  assert (has_upper (deviceType (Scenarios.audit ["r1"] "CiscoIOS" false)))
    as U by (unfold has_upper; cbn; discriminate).
  destruct (check_is_case_sensitive (fun _ => true) _ U) as [_ [H K]].
  split.
  - apply H; (reflexivity || discriminate).
  - exact K.
Defined.

End CheckFacts.

Module ConsoleFacts.

Import Text EngineObs Files Checks CheckFacts.
Import Devices Activity Console ConsoleObs.

(** *** Rules for statements on the console *)

Lemma holds_seq {A B} P (c : IO A) Q (k : A -> IO B) R :
  holds P c Q -> (forall a, holds (Q a) (k a) R) -> holds P (seq c k) R.
Proof.
  intros Hc Hk lines f HP. unfold seq. specialize (Hc lines f HP).
  destruct (c (lines, f)) as [[a|] [rest f']]; [|exact Hc].
  apply Hk. exact Hc.
Qed.

Lemma holds_input P : holds P input (fun _ f => P f).
Proof. intros [|l rest] f HP; [reflexivity | exact HP]. Qed.



Lemma holds_pure {A} P (a : A) (Q : A -> Form -> Prop) :
  (forall f, P f -> Q a f) -> holds P (pure a) Q.
Proof. intros H lines f HP. apply H, HP. Qed.

Lemma holds_if {A} P (b : bool) (c1 c2 : IO A) Q :
  holds P c1 Q -> holds P c2 Q -> holds P (if b then c1 else c2) Q.
Proof. now destruct b. Qed.

Lemma holds_inputYesNo P : holds P inputYesNo (fun _ f => P f).
Proof.
  unfold inputYesNo. eapply holds_seq; [apply holds_input|].
  intros text. apply holds_pure. auto.
Qed.


(** A statement that keeps [P]. *)
Ltac keeps_form :=
  repeat match goal with
    | |- holds _ (seq _ _) _ => eapply holds_seq; [|intros ?]
    | |- holds _ input _ => apply holds_input
    | |- holds _ inputYesNo _ => apply holds_inputYesNo
    | |- holds _ (if _ then _ else _) _ => apply holds_if
    end.




(** *** A device type that is not listed *)








End ConsoleFacts.
